(** * shredder.c: a shallow embedding and its verified properties

    The program overwrites regular files with random data, optionally
    with a final pass of zeros, renames them to a random name and unlinks
    them.  The embedding threads an explicit [world] (file system,
    descriptor table, scripted kernel answers, event trace) through a
    functional transcription of each C function of [shredder.c]. *)

From stdpp Require Import base gmap strings list fin_maps.
From Stdlib Require Import ZArith Lia Ascii.

Local Open Scope Z_scope.

(** ** Machine integers (LP64 Linux) *)

Definition wrap_unsigned (bits z : Z) : Z := z mod 2 ^ bits.
Definition wrap_signed (bits z : Z) : Z :=
  (z + 2 ^ (bits - 1)) mod 2 ^ bits - 2 ^ (bits - 1).

(** The casts [(size_t)x], [(ssize_t)x] and [(off_t)x]. *)
Definition to_size_t : Z -> Z := wrap_unsigned 64.
Definition to_ssize_t : Z -> Z := wrap_signed 64.
Definition to_off_t : Z -> Z := wrap_signed 64.

Definition OFF_MAX : Z := 2 ^ 63 - 1.

(** [static size_t CHUNK = 1024 * 1024;] *)
Definition CHUNK : Z := 1024 * 1024.

(** ** Memory cells

    A byte of a buffer or of a file, tagged with where it came from: the
    file's original content, the random source, [memset(..., 0, ...)], or
    uninitialised memory. *)

Inductive cell :=
| Orig (b : Byte.byte)
| Rnd (b : Byte.byte)
| Zero
| Junk.

Definition is_rnd (c : cell) : bool := match c with Rnd _ => true | _ => false end.
Definition is_zero (c : cell) : bool := match c with Zero => true | _ => false end.
Definition any_cell (c : cell) : bool := true.

(** The value read by [(unsigned char)rndbuf[i]]. *)
Definition cell_value (c : cell) : Z :=
  match c with
  | Orig b | Rnd b => Z.of_N (Byte.to_N b)
  | Zero | Junk => 0
  end.

(** [dst] with [src] copied in at offset [off] (memcpy semantics). *)
Definition blit (off : Z) (src dst : list cell) : list cell :=
  take (Z.to_nat off) dst ++ src ++ drop (Z.to_nat off + length src)%nat dst.

(** ** The file system *)

Inductive node :=
| NReg (data : list cell)
| NDir
| NLink (target : string)
| NChr
| NBlk
| NFifo
| NSock.

(** What [st_mode & S_IFMT] can be after [stat]; [stat] follows symbolic
    links, so it never reports a link. *)
Inductive ftype := S_IFREG | S_IFDIR | S_IFCHR | S_IFBLK | S_IFIFO | S_IFSOCK.

Record stat_t := Stat { st_mode : ftype; st_size : Z }.

Definition S_ISREG (m : ftype) : bool :=
  match m with S_IFREG => true | _ => false end.

Definition MAXSYMLINKS : nat := 40.

(** *** Path resolution

    The file system is given by its paths: the keys of the map are
    resolved paths without [.], [..], empty components or links on the
    way, absolute ([/tmp/a]) or relative to the working directory ([a],
    [sub/a], [../a]); the working directory itself is [.], the root
    [/].  A regular file is listed under one resolved path, with its
    content; further names of the same file (hard links) are not
    represented. *)

(** The texts between the slashes of a path: [/tmp/a] gives
    [""; "tmp"; "a"], and [a/] gives ["a"; ""]. *)
Fixpoint split_slash (acc : list ascii) (l : list ascii) : list string :=
  match l with
  | [] => [String.string_of_list_ascii (rev acc)]
  | c :: l' =>
      if Ascii.eqb c "/" then String.string_of_list_ascii (rev acc) :: split_slash [] l'
      else split_slash (c :: acc) l'
  end.

Definition components (path : string) : list string :=
  split_slash [] (String.list_ascii_of_string path).

Fixpoint unsplit (names : list string) : string :=
  match names with
  | [] => EmptyString
  | [name] => name
  | name :: rest => name +:+ "/" +:+ unsplit rest
  end.

Definition is_absolute (path : string) : bool :=
  match path with
  | String c _ => Ascii.eqb c "/"
  | EmptyString => false
  end.

(** The entry [name] of the directory [dir]. *)
Definition join (dir name : string) : string :=
  if String.eqb dir "/" then "/" +:+ name
  else if String.eqb dir "." then name
  else dir +:+ "/" +:+ name.

(** The directory above a resolved directory: the root is its own
    parent, and above the working directory come [..], [../..], ... *)
Definition parent (dir : string) : string :=
  if String.eqb dir "/" then "/"%string
  else
    match reverse (components dir) with
    | [] => dir
    | name :: above =>
        if String.eqb name "." || String.eqb name ".." then join dir ".."
        else
          match reverse above with
          | [] => "."%string
          | [root] => if String.eqb root "" then "/"%string else root
          | names => unsplit names
          end
    end.

(** The walk over the components of a path, from the directory [dir].
    Empty components and [.] are passed over, [..] goes to the parent;
    a name must be an entry of the directory; before further components
    it must be a directory, or a link, which [follow] takes up with the
    components that are left.  A link in the last place is followed
    too. *)
Fixpoint walk_names
    (follow : string -> string -> list string -> option (string * node))
    (fs : gmap string node) (dir : string) (names : list string)
  : option (string * node) :=
  match names with
  | [] =>
      match fs !! dir with
      | Some n => Some (dir, n)
      | None => None
      end
  | name :: rest =>
      if String.eqb name "" || String.eqb name "." then walk_names follow fs dir rest
      else if String.eqb name ".." then walk_names follow fs (parent dir) rest
      else
        let p := join dir name in
        match fs !! p with
        | None => None
        | Some (NLink target) => follow target dir rest
        | Some NDir => walk_names follow fs p rest
        | Some n =>
            match rest with
            | [] => Some (p, n)
            | _ :: _ => None
            end
        end
  end.

(** [walk hops]: at most [hops] links are followed; the content of a link
    is resolved from the root if it is absolute, from the directory of
    the link if not; an empty content leads nowhere. *)
Fixpoint walk (hops : nat) (fs : gmap string node) (dir : string)
    (names : list string) : option (string * node) :=
  walk_names
    (fun target dir rest =>
       match hops with
       | O => None
       | S hops' =>
           if String.eqb target "" then None
           else walk hops' fs (if is_absolute target then "/"%string else dir)
                  (components target ++ rest)
       end)
    fs dir names.

(** Path resolution as done by [stat] and [open]: symbolic links are
    followed, in every place of the path, up to [MAXSYMLINKS] of them. *)
Definition resolve (hops : nat) (fs : gmap string node) (path : string)
  : option (string * node) :=
  if String.eqb path "" then None
  else walk hops fs (if is_absolute path then "/"%string else "."%string)
         (components path).

Definition node_stat (n : node) : option stat_t :=
  match n with
  | NReg data =>
      let size := Z.of_nat (length data) in
      if size <=? OFF_MAX then Some (Stat S_IFREG size) else None
  | NDir => Some (Stat S_IFDIR 0)
  | NLink _ => None
  | NChr => Some (Stat S_IFCHR 0)
  | NBlk => Some (Stat S_IFBLK 0)
  | NFifo => Some (Stat S_IFIFO 0)
  | NSock => Some (Stat S_IFSOCK 0)
  end.

(** An open file description. *)
Inductive ofile :=
| OFile (path : string) (pos : Z)
| ODir (path : string)
| ODev.

(** ** Scripted kernel answers *)

(** System calls whose only outcome is success or failure. *)
Inductive sys :=
| SMalloc | SOpen | SOpenUrandom | SLseek | SFdatasync | SFsync
| SClose | SRename | SUnlink.

Global Instance sys_eq_dec : EqDecision sys.
Proof. solve_decision. Defined.

(** One answer of [getrandom]. *)
Inductive gr_resp := GrBytes (bs : list Byte.byte) | GrEintr | GrErr.
(** One answer of [read] on [/dev/urandom]; no bytes means end of stream. *)
Inductive rd_resp := RdBytes (bs : list Byte.byte) | RdEintr | RdErr.
(** One answer of [write]: how many bytes the kernel accepts at most. *)
Inductive wr_resp := WrN (n : nat) | WrEintr | WrErr.

(** ** Events *)

(** The result of a data-transfer call: a byte count, [-1] with
    [errno == EINTR], or [-1] with another error. *)
Inductive io := IoOk (n : Z) | IoEintr | IoErr.

Inductive msg :=
| MsgMallocFailed (size : Z)
| MsgPerror (s : string)
| MsgSkipNonRegular (path : string)
| MsgPass (pass passes : Z) (path : string)
| MsgRandomFailed
| MsgFinalZero (path : string)
| MsgProcessing (path : string)
| MsgFailedOverwrite (path : string)
| MsgRenamed (old new : string)
| MsgUnlinked (path : string).

Inductive event :=
| EvStat (path : string) (ok : bool)
| EvOpen (path : string) (fd : Z)
| EvOpenUrandom (fd : Z)
| EvOpenDir (path : string) (fd : Z)
| EvMalloc (size : Z) (ok : bool)
| EvLseek (fd : Z) (ok : bool)
| EvGetrandom (want : Z) (res : io)
| EvRead (fd want : Z) (res : io)
| EvWrite (fd : Z) (file : string) (pos : Z) (data : list cell)
| EvWriteFail (fd : Z) (eintr : bool)
| EvMemset (size : Z)
| EvFdatasync (fd : Z) (ok : bool)
| EvFsync (fd : Z) (ok : bool)
| EvClose (fd : Z)
| EvRename (old new : string) (ok : bool)
| EvUnlink (path : string) (ok : bool)
| EvStderr (m : msg).

(** ** The world *)

Record world := World {
  fs : gmap string node;          (* directory entries *)
  fdt : gmap Z ofile;             (* open descriptors *)
  next_fd : Z;                    (* next descriptor number *)
  plan : sys -> list bool;        (* outcomes of the calls to come; none left: success *)
  rnd_tape : list gr_resp;        (* answers of getrandom; none left: hard error *)
  dev_tape : list rd_resp;        (* answers of read(/dev/urandom); none left: end of stream *)
  wr_tape : list wr_resp;         (* answers of write; none left: hard error *)
  trace : list event              (* what happened, latest first *)
}.

Definition set_fs (x : gmap string node) (w : world) : world :=
  World x (fdt w) (next_fd w) (plan w) (rnd_tape w) (dev_tape w) (wr_tape w) (trace w).
Definition set_fdt (x : gmap Z ofile) (w : world) : world :=
  World (fs w) x (next_fd w) (plan w) (rnd_tape w) (dev_tape w) (wr_tape w) (trace w).
Definition set_next_fd (x : Z) (w : world) : world :=
  World (fs w) (fdt w) x (plan w) (rnd_tape w) (dev_tape w) (wr_tape w) (trace w).
Definition set_plan (x : sys -> list bool) (w : world) : world :=
  World (fs w) (fdt w) (next_fd w) x (rnd_tape w) (dev_tape w) (wr_tape w) (trace w).
Definition set_rnd_tape (x : list gr_resp) (w : world) : world :=
  World (fs w) (fdt w) (next_fd w) (plan w) x (dev_tape w) (wr_tape w) (trace w).
Definition set_dev_tape (x : list rd_resp) (w : world) : world :=
  World (fs w) (fdt w) (next_fd w) (plan w) (rnd_tape w) x (wr_tape w) (trace w).
Definition set_wr_tape (x : list wr_resp) (w : world) : world :=
  World (fs w) (fdt w) (next_fd w) (plan w) (rnd_tape w) (dev_tape w) x (trace w).

Definition log (e : event) (w : world) : world :=
  World (fs w) (fdt w) (next_fd w) (plan w) (rnd_tape w) (dev_tape w) (wr_tape w)
        (e :: trace w).

(** [if (verbose) fprintf(stderr, ...)] and [if (verbose) perror(...)]. *)
Definition vlog (verbose : bool) (m : msg) (w : world) : world :=
  if verbose then log (EvStderr m) w else w.

(** Next scripted outcome of a call of kind [k]. *)
Definition pop (k : sys) (w : world) : bool * world :=
  (hd true (plan w k),
   set_plan (fun k' => if decide (k' = k) then tl (plan w k') else plan w k') w).

(** ** System calls *)

Module OS.

Definition stat (path : string) (w : world) : option stat_t * world :=
  match resolve MAXSYMLINKS (fs w) path with
  | Some (_, n) =>
      match node_stat n with
      | Some st => (Some st, log (EvStat path true) w)
      | None => (None, log (EvStat path false) w)
      end
  | None => (None, log (EvStat path false) w)
  end.

Definition alloc_fd (o : ofile) (w : world) : Z * world :=
  let fd := next_fd w in
  (fd, set_next_fd (fd + 1) (set_fdt (<[fd := o]> (fdt w)) w)).

(** [open(path, O_WRONLY)]: follows links, no truncation, position 0. *)
Definition open_wronly (path : string) (w : world) : Z * world :=
  let '(ok, w) := pop SOpen w in
  match ok, resolve MAXSYMLINKS (fs w) path with
  | true, Some (rp, NReg _) =>
      let '(fd, w) := alloc_fd (OFile rp 0) w in
      (fd, log (EvOpen path fd) w)
  | _, _ => (-1, log (EvOpen path (-1)) w)
  end.

(** [open("/dev/urandom", O_RDONLY)]. *)
Definition open_urandom (w : world) : Z * world :=
  let '(ok, w) := pop SOpenUrandom w in
  if ok then
    let '(fd, w) := alloc_fd ODev w in
    (fd, log (EvOpenUrandom fd) w)
  else (-1, log (EvOpenUrandom (-1)) w).

(** [open(dir, O_DIRECTORY | O_RDONLY)]. *)
Definition open_dir (path : string) (w : world) : Z * world :=
  match resolve MAXSYMLINKS (fs w) path with
  | Some (rp, NDir) =>
      let '(fd, w) := alloc_fd (ODir rp) w in
      (fd, log (EvOpenDir path fd) w)
  | _ => (-1, log (EvOpenDir path (-1)) w)
  end.

Definition close (fd : Z) (w : world) : Z * world :=
  let '(ok, w) := pop SClose w in
  let w := log (EvClose fd) (set_fdt (delete fd (fdt w)) w) in
  (if ok then 0 else -1, w).

(** [malloc(size)] and [strdup]: only success or failure is modelled. *)
Definition malloc (size : Z) (w : world) : bool * world :=
  let '(ok, w) := pop SMalloc w in
  (ok, log (EvMalloc size ok) w).

(** [lseek(fd, 0, SEEK_SET)]. *)
Definition lseek0 (fd : Z) (w : world) : Z * world :=
  let '(ok, w) := pop SLseek w in
  match ok, fdt w !! fd with
  | true, Some (OFile p _) =>
      (0, log (EvLseek fd true) (set_fdt (<[fd := OFile p 0]> (fdt w)) w))
  | _, _ => (-1, log (EvLseek fd false) w)
  end.

(** The content of a file after [src] is written at [pos]; a write
    past the end would extend the file. *)
Definition file_write (pos : Z) (src data : list cell) : list cell :=
  blit pos src (data ++ replicate (Z.to_nat pos - length data) Zero).

(** A [write(fd, buf, count)] of which the kernel accepts [n] bytes. *)
Definition write_n (n : nat) (fd : Z) (buf : list cell) (count : Z) (w : world)
  : Z * world :=
  match fdt w !! fd with
  | Some (OFile p pos) =>
      match fs w !! p with
      | Some (NReg data) =>
          let src := take (Nat.min n (Z.to_nat count)) buf in
          let k := Z.of_nat (length src) in
          let w := set_fs (<[p := NReg (file_write pos src data)]> (fs w)) w in
          let w := set_fdt (<[fd := OFile p (pos + k)]> (fdt w)) w in
          (k, log (EvWrite fd p pos src) w)
      | _ => (-1, log (EvWriteFail fd false) w)
      end
  | _ => (-1, log (EvWriteFail fd false) w)
  end.

Definition fdatasync (fd : Z) (w : world) : Z * world :=
  let '(ok, w) := pop SFdatasync w in
  (if ok then 0 else -1, log (EvFdatasync fd ok) w).

Definition fsync (fd : Z) (w : world) : Z * world :=
  let '(ok, w) := pop SFsync w in
  (if ok then 0 else -1, log (EvFsync fd ok) w).

(** [rename(old, new)]: acts on the entry itself, replaces [new]. *)
Definition rename (old new : string) (w : world) : Z * world :=
  let '(ok, w) := pop SRename w in
  match ok, fs w !! old with
  | true, Some n =>
      (0, log (EvRename old new true)
              (set_fs (<[new := n]> (delete old (fs w))) w))
  | _, _ => (-1, log (EvRename old new false) w)
  end.

(** [unlink(path)]: acts on the entry itself, refuses directories. *)
Definition unlink (path : string) (w : world) : Z * world :=
  let '(ok, w) := pop SUnlink w in
  match ok, fs w !! path with
  | true, Some NDir | false, _ | _, None =>
      (-1, log (EvUnlink path false) w)
  | true, Some _ =>
      (0, log (EvUnlink path true) (set_fs (delete path (fs w)) w))
  end.

End OS.

(** ** C strings *)

Definition strlen (s : string) : Z := Z.of_nat (String.length s).

Fixpoint str_take (n : nat) (s : string) : string :=
  match n, s with
  | S n', String c s' => String c (str_take n' s')
  | _, _ => EmptyString
  end.

(** [snprintf(out, size, "%s/%s", dir, name)] given the formatted text:
    at most [size - 1] characters are stored. *)
Definition snprintf (size : Z) (text : string) : string :=
  str_take (Z.to_nat (size - 1)) text.

Definition hex_digit (n : Z) : ascii :=
  default "?"%char (String.list_ascii_of_string "0123456789abcdef" !! Z.to_nat n).

(** [sprintf(dst, "%02x", v)] for an [unsigned char] [v]. *)
Definition sprintf_02x (v : Z) : string :=
  String (hex_digit (v / 16)) (String (hex_digit (v mod 16)) EmptyString).

Definition is_lower_hex (c : ascii) : bool :=
  bool_decide (c ∈ String.list_ascii_of_string "0123456789abcdef").

(** [dirname] of the GNU C library: trailing slashes are dropped, then
    the last component, then the slashes before it.  What is left is the
    result; if nothing is left, the result is ["."] when no slash came
    before the component, and the root when only slashes did: ["//"] for
    exactly two of them, ["/"] otherwise. *)
Definition is_slash (c : ascii) : bool := Ascii.eqb c "/"%char.

Fixpoint strip_slashes (r : list ascii) : list ascii :=
  match r with
  | c :: r' => if is_slash c then strip_slashes r' else r
  | [] => []
  end.

Fixpoint strip_component (r : list ascii) : list ascii :=
  match r with
  | c :: r' => if is_slash c then r else strip_component r'
  | [] => []
  end.

Definition root_of (slashes : list ascii) : string :=
  if Nat.eqb (length slashes) 2 then "//" else "/".

Definition dirname (path : string) : string :=
  match strip_slashes (rev (String.list_ascii_of_string path)) with
  | [] =>
      match path with
      | EmptyString => "."
      | _ => root_of (String.list_ascii_of_string path)
      end
  | r1 =>
      match strip_component r1 with
      | [] => "."
      | r2 =>
          match strip_slashes r2 with
          | [] => root_of r2
          | r3 => String.string_of_list_ascii (rev r3)
          end
      end
  end.

(** ** The program *)

(** How a function ends: it returns, or the process exits. *)
Inductive outcome (A : Type) :=
| Return (a : A)
| Exit (status : Z).
Arguments Return {A} a.
Arguments Exit {A} status.

(** [alloc_buf]: [malloc], or a message and [exit(2)]. *)
Definition alloc_buf (size : Z) (w : world) : outcome (list cell) * world :=
  let '(ok, w) := OS.malloc size w in
  if ok then (Return (replicate (Z.to_nat size) Junk), w)
  else (Exit 2, log (EvStderr (MsgMallocFailed size)) w).

(** The [getrandom] loop of [fill_random]: [p] is the offset of the
    pointer [p] into [buf]; the result is the final [left].  The C
    variable [got] is assigned and never read. *)
Fixpoint getrandom_loop (tape : list gr_resp) (buf : list cell) (p left : Z)
    (w : world) : Z * list cell * world :=
  if left =? 0 then (left, buf, w)
  else
    match tape with
    | [] => (left, buf, log (EvGetrandom left IoErr) w)
    | GrEintr :: t =>
        getrandom_loop t buf p left (log (EvGetrandom left IoEintr) (set_rnd_tape t w))
    | GrErr :: t =>
        (left, buf, log (EvGetrandom left IoErr) (set_rnd_tape t w))
    | GrBytes bs :: t =>
        let data := take (Z.to_nat left) bs in
        let r := Z.of_nat (length data) in
        getrandom_loop t (blit p (Rnd <$> data) buf) (p + r) (left - r)
          (log (EvGetrandom left (IoOk r)) (set_rnd_tape t w))
    end.

(** The [read] loop of [fill_random] on [/dev/urandom]; the result is
    the final [total]. *)
Fixpoint urandom_loop (tape : list rd_resp) (fd : Z) (buf : list cell)
    (len total : Z) (w : world) : Z * list cell * world :=
  if total <? to_ssize_t len then
    match tape with
    | [] => (total, buf, log (EvRead fd (len - total) (IoOk 0)) w)
    | RdEintr :: t =>
        urandom_loop t fd buf len total
          (log (EvRead fd (len - total) IoEintr) (set_dev_tape t w))
    | RdErr :: t =>
        (-1, buf, log (EvRead fd (len - total) IoErr) (set_dev_tape t w))
    | RdBytes bs :: t =>
        let data := take (Z.to_nat (len - total)) bs in
        let r := Z.of_nat (length data) in
        let w := log (EvRead fd (len - total) (IoOk r)) (set_dev_tape t w) in
        if r =? 0 then (total, buf, w)
        else urandom_loop t fd (blit total (Rnd <$> data) buf) len (total + r) w
    end
  else (total, buf, w).

Definition fill_random (buf : list cell) (len : Z) (w : world)
  : Z * list cell * world :=
  let '(left_, buf, w) := getrandom_loop (rnd_tape w) buf 0 len w in
  if left_ =? 0 then (to_ssize_t len, buf, w)
  else
    let '(fd, w) := OS.open_urandom w in
    if fd <? 0 then (-1, buf, w)
    else
      let '(total, buf, w) := urandom_loop (dev_tape w) fd buf len 0 w in
      let '(_, w) := OS.close fd w in
      (total, buf, w).

Definition sync_and_check (fd : Z) (w : world) : Z * world :=
  let '(r, w) := OS.fdatasync fd w in
  if r =? 0 then (0, w)
  else
    let '(r, w) := OS.fsync fd w in
    if r =? 0 then (0, w) else (-1, w).

(** The [sprintf] loop of [random_filename_in_dir], [n] iterations from
    index [i]; each call stores two digits at [name + i*2]. *)
Fixpoint name_loop (n : nat) (i : Z) (rndbuf : list cell) (name : string) : string :=
  match n with
  | O => name
  | S n' =>
      let c := default Junk (rndbuf !! Z.to_nat i) in
      name_loop n' (i + 1) rndbuf
        (str_take (Z.to_nat (i * 2)) name +:+ sprintf_02x (cell_value c))
  end.

Definition random_filename_in_dir (orig_path : string) (w : world)
  : option string * world :=
  let '(ok, w) := OS.malloc (strlen orig_path + 1) w in
  if negb ok then (None, w)
  else
    let dir := dirname orig_path in
    let name_len := 16 in
    let rndbuf := replicate 16 Junk in
    let '(r, rndbuf, w) := fill_random rndbuf 16 w in
    if negb (r =? to_ssize_t 16) then (None, w)
    else
      let name := name_loop (Z.to_nat (name_len / 2)) 0 rndbuf EmptyString in
      let name := str_take (Z.to_nat name_len) name in
      let outlen := strlen dir + 1 + strlen name + 1 in
      let '(ok, w) := OS.malloc outlen w in
      if negb ok then (None, w)
      else (Some (snprintf outlen (dir +:+ "/" +:+ name)), w).

(** [write(fd, buf, count)] under the kernel's answer [resp]. *)
Definition os_write (resp : wr_resp) (fd : Z) (buf : list cell) (count : Z)
    (w : world) : io * world :=
  match resp with
  | WrEintr => (IoEintr, log (EvWriteFail fd true) w)
  | WrErr => (IoErr, log (EvWriteFail fd false) w)
  | WrN n =>
      let '(k, w) := OS.write_n n fd buf count w in
      (if k <? 0 then IoErr else IoOk k, w)
  end.

(** [size_t bufsize = (CHUNK < (size_t)size) ? CHUNK
                     : (size_t)size ? (size_t)size : CHUNK;] *)
Definition bufsize_of (size : Z) : Z :=
  if CHUNK <? to_size_t size then CHUNK
  else if negb (to_size_t size =? 0) then to_size_t size
  else CHUNK.

(** [size_t towrite = bufsize;
     if ((off_t)towrite > size - written_total)
         towrite = (size_t)(size - written_total);] *)
Definition chunk_len (bufsize size written_total : Z) : Z :=
  if to_off_t bufsize >? size - written_total
  then to_size_t (size - written_total)
  else bufsize.

(** The error exits of [overwrite_file]: [free(buf); close(fd); return -1;] *)
Definition bail (fd : Z) (w : world) : world := snd (OS.close fd w).

(** The inner [while (written_total < size)] loop of a random pass.
    [None]: the function has returned [-1]. *)
Fixpoint random_write_loop (tape : list wr_resp) (verbose : bool)
    (fd size bufsize : Z) (buf : list cell) (written_total : Z) (w : world)
  : option (list cell) * world :=
  if written_total <? size then
    let towrite := chunk_len bufsize size written_total in
    let '(r, buf, w) := fill_random buf towrite w in
    if negb (r =? to_ssize_t towrite) then
      (None, bail fd (vlog verbose MsgRandomFailed w))
    else
      match tape with
      | [] =>
          let '(_, w) := os_write WrErr fd buf towrite w in
          (None, bail fd (vlog verbose (MsgPerror "write") w))
      | resp :: t =>
          let '(wr, w) := os_write resp fd buf towrite (set_wr_tape t w) in
          match wr with
          | IoEintr =>
              random_write_loop t verbose fd size bufsize buf written_total w
          | IoErr => (None, bail fd (vlog verbose (MsgPerror "write") w))
          | IoOk k =>
              random_write_loop t verbose fd size bufsize buf (written_total + k) w
          end
      end
  else (Some buf, w).

(** The inner loop of the final zero pass. *)
Fixpoint zero_write_loop (tape : list wr_resp) (verbose : bool)
    (fd size bufsize : Z) (buf : list cell) (written_total : Z) (w : world)
  : option (list cell) * world :=
  if written_total <? size then
    let towrite := chunk_len bufsize size written_total in
    match tape with
    | [] =>
        let '(_, w) := os_write WrErr fd buf towrite w in
        (None, bail fd (vlog verbose (MsgPerror "write") w))
    | resp :: t =>
        let '(wr, w) := os_write resp fd buf towrite (set_wr_tape t w) in
        match wr with
        | IoEintr => zero_write_loop t verbose fd size bufsize buf written_total w
        | IoErr => (None, bail fd (vlog verbose (MsgPerror "write") w))
        | IoOk k =>
            zero_write_loop t verbose fd size bufsize buf (written_total + k) w
        end
    end
  else (Some buf, w).

(** [if (sync_and_check(fd) != 0) { if (verbose) perror("sync"); }] *)
Definition checkpoint (verbose : bool) (fd : Z) (w : world) : world :=
  let '(r, w) := sync_and_check fd w in
  if negb (r =? 0) then vlog verbose (MsgPerror "sync") w else w.

(** [for (int pass = 1; pass <= passes; ++pass)], with [n] iterations
    to go. *)
Fixpoint pass_loop (n : nat) (pass passes : Z) (path : string) (verbose : bool)
    (fd size bufsize : Z) (buf : list cell) (w : world)
  : option (list cell) * world :=
  match n with
  | O => (Some buf, w)
  | S n' =>
      let w := vlog verbose (MsgPass pass passes path) w in
      let '(r, w) := OS.lseek0 fd w in
      if r =? -1 then (None, bail fd (vlog verbose (MsgPerror "lseek") w))
      else
        match random_write_loop (wr_tape w) verbose fd size bufsize buf 0 w with
        | (None, w) => (None, w)
        | (Some buf, w) =>
            let w := checkpoint verbose fd w in
            pass_loop n' (pass + 1) passes path verbose fd size bufsize buf w
        end
  end.

(** The final zero pass of [overwrite_file]. *)
Definition zero_pass (path : string) (verbose : bool) (fd size bufsize : Z)
    (buf : list cell) (w : world) : option (list cell) * world :=
  let w := vlog verbose (MsgFinalZero path) w in
  let '(r, w) := OS.lseek0 fd w in
  if r =? -1 then (None, bail fd (vlog verbose (MsgPerror "lseek") w))
  else
    let buf := blit 0 (replicate (Z.to_nat bufsize) Zero) buf in
    let w := log (EvMemset bufsize) w in
    match zero_write_loop (wr_tape w) verbose fd size bufsize buf 0 w with
    | (None, w) => (None, w)
    | (Some buf, w) => (Some buf, checkpoint verbose fd w)
    end.

Definition overwrite_file (path : string) (passes : Z) (final_zero verbose : bool)
    (w : world) : outcome Z * world :=
  let '(st, w) := OS.stat path w in
  match st with
  | None => (Return (-1), vlog verbose (MsgPerror "stat") w)
  | Some st =>
      if negb (S_ISREG (st_mode st)) then
        (Return (-1), vlog verbose (MsgSkipNonRegular path) w)
      else
        let size := st_size st in
        let '(fd, w) := OS.open_wronly path w in
        if fd <? 0 then (Return (-1), vlog verbose (MsgPerror "open") w)
        else
          let bufsize := bufsize_of size in
          match alloc_buf bufsize w with
          | (Exit status, w) => (Exit status, w)
          | (Return buf, w) =>
              match pass_loop (Z.to_nat passes) 1 passes path verbose
                      fd size bufsize buf w with
              | (None, w) => (Return (-1), w)
              | (Some buf, w) =>
                  let finish (w : world) :=
                    let '(r, w) := OS.close fd w in
                    (Return 0, if negb (r =? 0) then vlog verbose (MsgPerror "close") w else w) in
                  if final_zero then
                    match zero_pass path verbose fd size bufsize buf w with
                    | (None, w) => (Return (-1), w)
                    | (Some _, w) => finish w
                    end
                  else finish w
              end
          end
  end.

(** [main], the fallback: [unlink] the original path. *)
Definition unlink_original (path : string) (verbose : bool) (exit_status : Z)
    (w : world) : Z * world :=
  let '(r, w) := OS.unlink path w in
  if negb (r =? 0) then (2, vlog verbose (MsgPerror "unlink") w)
  else (exit_status, vlog verbose (MsgUnlinked path) w).

(** [main], after a successful rename: open the directory of the new
    name and [fsync] it, best effort.  [strdup] may fail; [dirname(NULL)]
    is ["."]. *)
Definition sync_dir (newname : string) (verbose : bool) (w : world) : world :=
  let '(ok, w) := OS.malloc (strlen newname + 1) w in
  let dir := if ok then dirname newname else "."%string in
  let '(dfd, w) := OS.open_dir dir w in
  if 0 <=? dfd then
    let '(r, w) := OS.fsync dfd w in
    let w := if negb (r =? 0) then vlog verbose (MsgPerror "fsync(dir)") w else w in
    snd (OS.close dfd w)
  else w.

(** [main], after a successful overwrite: rename to a random name, sync
    the directory, unlink; the result is the new [exit_status]. *)
Definition obfuscate_and_remove (path : string) (verbose : bool) (exit_status : Z)
    (w : world) : Z * world :=
  let '(newname, w) := random_filename_in_dir path w in
  match newname with
  | Some newname =>
      let '(r, w) := OS.rename path newname w in
      if negb (r =? 0) then
        unlink_original path verbose exit_status (vlog verbose (MsgPerror "rename") w)
      else
        let w := vlog verbose (MsgRenamed path newname) w in
        let w := sync_dir newname verbose w in
        let '(r, w) := OS.unlink newname w in
        if negb (r =? 0) then (2, vlog verbose (MsgPerror "unlink") w)
        else (exit_status, vlog verbose (MsgUnlinked newname) w)
  | None => unlink_original path verbose exit_status w
  end.

(** The [for] loop of [main] over the file arguments. *)
Fixpoint main_loop (files : list string) (passes : Z) (final_zero verbose : bool)
    (exit_status : Z) (w : world) : outcome Z * world :=
  match files with
  | [] => (Return exit_status, w)
  | path :: rest =>
      let w := vlog verbose (MsgProcessing path) w in
      match overwrite_file path passes final_zero verbose w with
      | (Exit status, w) => (Exit status, w)
      | (Return r, w) =>
          if negb (r =? 0) then
            main_loop rest passes final_zero verbose 2
              (log (EvStderr (MsgFailedOverwrite path)) w)
          else
            let '(exit_status, w) := obfuscate_and_remove path verbose exit_status w in
            main_loop rest passes final_zero verbose exit_status w
      end
  end.

(** [main] from [int exit_status = 0;] on, options already parsed. *)
Definition main_files (files : list string) (passes : Z) (final_zero verbose : bool)
    (w : world) : outcome Z * world :=
  main_loop files passes final_zero verbose 0 w.

(** The status the parent process sees. *)
Definition process_status (o : outcome Z) : Z :=
  match o with Return v => v | Exit status => status end.

(** ** Sample worlds *)

Definition no_faults : sys -> list bool := fun _ => [].

Definition world0 (files : list (string * node)) : world :=
  World (list_to_map files) ∅ 3 no_faults [] [] [] [].

Definition bytes_AA (n : nat) : list Byte.byte := replicate n Byte.xaa.
Definition bytes_seq : list Byte.byte :=
  [Byte.x00; Byte.x01; Byte.x7f; Byte.x80; Byte.xab; Byte.xcd; Byte.xef; Byte.xff;
   Byte.x10; Byte.x20; Byte.x30; Byte.x40; Byte.x50; Byte.x60; Byte.x70; Byte.x9a].

(** * Verified properties *)

(** ** Machine integers *)

Lemma to_size_t_id z : 0 <= z < 2 ^ 64 -> to_size_t z = z.
Proof. intros H. unfold to_size_t, wrap_unsigned. apply Z.mod_small. lia. Qed.

Lemma to_ssize_t_id z : - 2 ^ 63 <= z < 2 ^ 63 -> to_ssize_t z = z.
Proof.
  intros H. unfold to_ssize_t, wrap_signed.
  change (2 ^ (64 - 1)) with (2 ^ 63). change (2 ^ 64) with (2 ^ 63 + 2 ^ 63).
  rewrite Z.mod_small; lia.
Qed.

Lemma to_off_t_id z : - 2 ^ 63 <= z < 2 ^ 63 -> to_off_t z = z.
Proof. apply to_ssize_t_id. Qed.

Lemma CHUNK_val : CHUNK = 1048576.
Proof. reflexivity. Qed.

Lemma OFF_MAX_val : OFF_MAX = 2 ^ 63 - 1.
Proof. reflexivity. Qed.

(** The buffer size is positive, at most [CHUNK], and never larger than
    a non-empty file. *)
Lemma bufsize_of_spec size :
  0 <= size <= OFF_MAX ->
  bufsize_of size = (if size =? 0 then CHUNK else Z.min CHUNK size).
Proof.
  intros H. rewrite OFF_MAX_val in H. unfold bufsize_of.
  rewrite to_size_t_id by lia. rewrite CHUNK_val.
  destruct (1048576 <? size) eqn:E1, (size =? 0) eqn:E2; simpl; lia.
Qed.

Lemma bufsize_of_pos size : 0 <= size <= OFF_MAX -> 0 < bufsize_of size <= CHUNK.
Proof.
  intros H. rewrite bufsize_of_spec by done. rewrite CHUNK_val.
  destruct (size =? 0) eqn:E; lia.
Qed.

(** The chunk length is the buffer size clamped to what remains. *)
Lemma chunk_len_spec bufsize size written_total :
  0 < bufsize <= CHUNK -> 0 <= written_total <= size -> size <= OFF_MAX ->
  chunk_len bufsize size written_total = Z.min bufsize (size - written_total).
Proof.
  intros Hb Hw Hs. rewrite OFF_MAX_val in Hs. rewrite CHUNK_val in Hb.
  unfold chunk_len. rewrite to_off_t_id by lia.
  destruct (bufsize >? size - written_total) eqn:E.
  - rewrite to_size_t_id by lia. lia.
  - lia.
Qed.

(** ** Strings *)

Lemma str_append_cons c (s t : string) : String c s +:+ t = String c (s +:+ t).
Proof. reflexivity. Qed.

Lemma str_append_nil (t : string) : EmptyString +:+ t = t.
Proof. reflexivity. Qed.

Lemma str_length_append (s t : string) :
  String.length (s +:+ t) = (String.length s + String.length t)%nat.
Proof.
  induction s as [|c s IH]; [done |].
  rewrite str_append_cons. simpl. by rewrite IH.
Qed.

Lemma str_append_empty (s : string) : s +:+ EmptyString = s.
Proof. induction s as [|c s IH]; [done |]. by rewrite str_append_cons, IH. Qed.

Lemma str_append_assoc (s t u : string) : (s +:+ t) +:+ u = s +:+ (t +:+ u).
Proof. induction s as [|c s IH]; [done |]. by rewrite !str_append_cons, IH. Qed.

Lemma str_take_all (n : nat) (s : string) :
  (String.length s <= n)%nat -> str_take n s = s.
Proof.
  revert n. induction s as [|c s IH]; intros [|n] H; simpl in *; try done; try lia.
  rewrite IH; [done | lia].
Qed.

Lemma cell_value_range c : 0 <= cell_value c < 256.
Proof.
  destruct c as [b|b| |]; simpl; try lia; pose proof (Byte.to_N_bounded b); lia.
Qed.

Lemma hex_digit_lower n : 0 <= n < 16 -> is_lower_hex (hex_digit n) = true.
Proof.
  intros H.
  assert (Hall : forallb (fun k => is_lower_hex (hex_digit (Z.of_nat k))) (seq 0 16) = true)
    by (vm_compute; reflexivity).
  rewrite forallb_forall in Hall. specialize (Hall (Z.to_nat n)).
  rewrite Z2Nat.id in Hall by lia. apply Hall. apply in_seq. lia.
Qed.

(** [all_lower_hex s]: every character of [s] is one of [0-9a-f]. *)
Definition all_lower_hex (s : string) : bool :=
  forallb is_lower_hex (String.list_ascii_of_string s).

Lemma sprintf_02x_spec v :
  0 <= v < 256 ->
  String.length (sprintf_02x v) = 2%nat /\ all_lower_hex (sprintf_02x v) = true.
Proof.
  intros H. split; [reflexivity |].
  unfold all_lower_hex, sprintf_02x. simpl.
  rewrite !hex_digit_lower; [done | |].
  - apply Z.mod_pos_bound. lia.
  - split; [apply Z.div_pos; lia | apply Z.div_lt_upper_bound; lia].
Qed.

Lemma all_lower_hex_append s t :
  all_lower_hex (s +:+ t) = all_lower_hex s && all_lower_hex t.
Proof.
  unfold all_lower_hex. induction s as [|c s IH]; [done |].
  rewrite str_append_cons. simpl. rewrite IH. by rewrite andb_assoc.
Qed.

(** The digits of a list of cells, two per cell. *)
Fixpoint hex_of (cs : list cell) : string :=
  match cs with
  | [] => EmptyString
  | c :: cs' => sprintf_02x (cell_value c) +:+ hex_of cs'
  end.

Lemma hex_of_length cs : String.length (hex_of cs) = (2 * length cs)%nat.
Proof.
  induction cs as [|c cs IH]; [done |].
  change (hex_of (c :: cs)) with (sprintf_02x (cell_value c) +:+ hex_of cs).
  rewrite str_length_append, IH. simpl. lia.
Qed.

Lemma hex_of_lower cs : all_lower_hex (hex_of cs) = true.
Proof.
  induction cs as [|c cs IH]; [done |].
  change (hex_of (c :: cs)) with (sprintf_02x (cell_value c) +:+ hex_of cs).
  rewrite all_lower_hex_append, IH.
  by destruct (sprintf_02x_spec (cell_value c) (cell_value_range c)) as [_ ->].
Qed.

Lemma hex_of_app cs ds : hex_of (cs ++ ds) = hex_of cs +:+ hex_of ds.
Proof. induction cs as [|c cs IH]; simpl; [done | by rewrite IH]. Qed.

(** The [sprintf] loop appends the digits of cells [i], [i+1], ... to the
    [2*i] characters already stored. *)
Lemma name_loop_spec n (i : nat) rndbuf name :
  (i + n <= length rndbuf)%nat ->
  String.length name = (2 * i)%nat ->
  name_loop n (Z.of_nat i) rndbuf name = name +:+ hex_of (take n (drop i rndbuf)).
Proof.
  revert i name. induction n as [|n IH]; intros i name Hlen Hname.
  - simpl. by rewrite str_append_empty.
  - cbn [name_loop]. rewrite Nat2Z.id.
    replace (Z.to_nat (Z.of_nat i * 2)) with (String.length name) by lia.
    rewrite str_take_all by lia.
    replace (Z.of_nat i + 1) with (Z.of_nat (S i)) by lia.
    destruct (rndbuf !! i) as [c|] eqn:Hc.
    2: { apply lookup_ge_None in Hc. lia. }
    rewrite IH.
    + rewrite (drop_S _ _ _ Hc). cbn [take hex_of default].
      by rewrite str_append_assoc.
    + lia.
    + rewrite str_length_append. simpl. lia.
Qed.

(** ** Traces *)

(** [extends P t t']: trace [t'] is [t] plus later events, all in class [P]. *)
Definition extends (P : event -> bool) (t t' : list event) : Prop :=
  exists evs, t' = evs ++ t /\ Forall (fun e => P e = true) evs.

Lemma extends_refl P t : extends P t t.
Proof. exists []. by split. Qed.

Lemma extends_cons P t t' e : P e = true -> extends P t t' -> extends P t (e :: t').
Proof.
  intros He (evs & -> & Hevs). exists (e :: evs). split; [done | by constructor].
Qed.

Lemma extends_trans P t1 t2 t3 : extends P t1 t2 -> extends P t2 t3 -> extends P t1 t3.
Proof.
  intros (e1 & -> & H1) (e2 & -> & H2). exists (e2 ++ e1).
  split; [by rewrite app_assoc | by apply Forall_app].
Qed.

Lemma extends_weaken (P Q : event -> bool) t t' :
  (forall e, P e = true -> Q e = true) -> extends P t t' -> extends Q t t'.
Proof.
  intros HPQ (evs & -> & H). exists evs. split; [done |].
  eapply Forall_impl; [exact H | done].
Qed.

(** Events of the random byte source. *)
Definition random_event (e : event) : bool :=
  match e with
  | EvGetrandom _ _ | EvOpenUrandom _ | EvRead _ _ _ | EvClose _ => true
  | _ => false
  end.

(** ** Buffers *)

Lemma blit_length off src dst :
  0 <= off -> off + Z.of_nat (length src) <= Z.of_nat (length dst) ->
  length (blit off src dst) = length dst.
Proof.
  intros H1 H2. unfold blit.
  rewrite !length_app, length_take, length_drop. lia.
Qed.

Lemma blit_nil off dst : blit off [] dst = dst.
Proof. unfold blit. simpl. rewrite Nat.add_0_r. apply take_drop. Qed.


(** Two adjacent copies are one copy. *)
Lemma blit_blit off src1 src2 dst :
  0 <= off -> off <= Z.of_nat (length dst) ->
  blit (off + Z.of_nat (length src1)) src2 (blit off src1 dst)
  = blit off (src1 ++ src2) dst.
Proof.
  intros H1 H2. unfold blit.
  replace (Z.to_nat (off + Z.of_nat (length src1)))
    with (length (take (Z.to_nat off) dst ++ src1)).
  2: { rewrite length_app, length_take. lia. }
  rewrite (app_assoc (take _ dst) src1), take_app_length.
  rewrite drop_app_add, drop_drop, length_app.
  rewrite <- !app_assoc. do 3 f_equal. f_equal. lia.
Qed.

Lemma blit_lookup_lt (i : nat) src dst :
  (i < length src)%nat -> blit 0 src dst !! i = src !! i.
Proof.
  intros H. unfold blit. simpl. 
  by rewrite lookup_app_l.
Qed.

Lemma blit_lookup_ge (i : nat) src dst :
  (length src <= i)%nat -> blit 0 src dst !! i = dst !! i.
Proof.
  intros H. unfold blit. simpl. 
  rewrite lookup_app_r by done. rewrite lookup_drop. f_equal. lia.
Qed.

Lemma blit_take (n : nat) src dst :
  n = length src -> take n (blit 0 src dst) = src.
Proof.
  intros ->. unfold blit. simpl. apply take_app_length.
Qed.

(** Goals made of linear arithmetic, trivial equations, [/\] and [\/]. *)
Ltac arith :=
  repeat match goal with |- _ /\ _ => split end;
  first [ lia | done | (left; arith) | (right; arith) ].

(** ** The random byte source *)

Definition getrandom_event (e : event) : bool :=
  match e with EvGetrandom _ _ => true | _ => false end.

Lemma getrandom_event_random e : getrandom_event e = true -> random_event e = true.
Proof. by destruct e. Qed.

(** The [getrandom] loop copies the delivered bytes to [buf] from [p]
    on, touches nothing else, and stops short only on a hard error. *)
Lemma getrandom_loop_spec tape : forall buf p left w left' buf' w',
  0 <= p -> 0 <= left -> p + left <= Z.of_nat (length buf) ->
  getrandom_loop tape buf p left w = (left', buf', w') ->
  exists data,
    Z.of_nat (length data) = left - left' /\ 0 <= left' /\
    buf' = blit p (Rnd <$> data) buf /\
    fs w' = fs w /\ fdt w' = fdt w /\ next_fd w' = next_fd w /\
    plan w' = plan w /\ dev_tape w' = dev_tape w /\ wr_tape w' = wr_tape w /\
    exists evs, trace w' = evs ++ trace w /\
      Forall (fun e => getrandom_event e = true) evs /\
      (left' <> 0 -> exists n, EvGetrandom n IoErr ∈ evs).
Proof.
  induction tape as [|r tape IH]; intros buf p left w left' buf' w' Hp Hl Hb;
    cbn [getrandom_loop]; destruct (left =? 0) eqn:E0.
  - intros [= <- <- <-]. exists []. rewrite blit_nil. simpl.
    repeat split; try done; try lia. exists []. repeat split; try done; lia.
  - intros [= <- <- <-]. exists []. rewrite blit_nil. simpl.
    repeat split; try done; try lia. eexists [_]. simpl.
    repeat split; [by repeat constructor |]. intros _. eexists. left.
  - intros [= <- <- <-]. exists []. rewrite blit_nil. simpl.
    repeat split; try done; try lia. exists []. repeat split; try done; lia.
  - destruct r as [bs| |].
    + intros Hrun. apply IH in Hrun as (data & Hd & Hl' & -> & Hrest).
      * exists (take (Z.to_nat left) bs ++ data).
        rewrite fmap_app. rewrite <- blit_blit by lia.
        rewrite length_fmap. rewrite length_app.
        simpl in Hrest.
        destruct Hrest as (? & ? & ? & ? & ? & ? & evs & Hevs & Hall & Herr).
        repeat split; try done; try lia.
        eexists (evs ++ [_]). rewrite <- app_assoc. split; [exact Hevs |].
        split; [apply Forall_app; split; [done | by repeat constructor] |].
        intros Hne. destruct (Herr Hne) as [n Hn]. exists n.
        apply elem_of_app. by left.
      * lia.
      * rewrite length_take. lia.
      * rewrite blit_length; rewrite ?length_fmap, ?length_take; lia.
    + intros Hrun. apply IH in Hrun as (data & Hd & Hl' & -> & Hrest); try done.
      exists data. simpl in Hrest.
      destruct Hrest as (? & ? & ? & ? & ? & ? & evs & Hevs & Hall & Herr).
      repeat split; try done.
      eexists (evs ++ [_]). rewrite <- app_assoc. split; [exact Hevs |].
      split; [apply Forall_app; split; [done | by repeat constructor] |].
      intros Hne. destruct (Herr Hne) as [n Hn]. exists n.
      apply elem_of_app. by left.
    + intros [= <- <- <-]. exists []. rewrite blit_nil. simpl.
      repeat split; try done; try lia. eexists [_]. simpl.
      repeat split; [by repeat constructor |]. intros _. eexists. left.
Qed.

Lemma extends_step P e t t' :
  P e = true -> extends P (e :: t) t' -> extends P t t'.
Proof.
  intros He H. eapply extends_trans; [| exact H].
  apply extends_cons; [done | apply extends_refl].
Qed.

(** The [read] loop copies what the device delivers to [buf] from
    [total] on; it returns the new total, or [-1] after a read error. *)
Lemma urandom_loop_spec tape : forall fd buf len total w r buf' w',
  0 <= total <= len -> len <= Z.of_nat (length buf) -> len < 2 ^ 63 ->
  urandom_loop tape fd buf len total w = (r, buf', w') ->
  exists data,
    buf' = blit total (Rnd <$> data) buf /\
    total + Z.of_nat (length data) <= len /\
    (r = total + Z.of_nat (length data) \/
     r = -1 /\ total + Z.of_nat (length data) < len) /\
    fs w' = fs w /\ fdt w' = fdt w /\ next_fd w' = next_fd w /\
    plan w' = plan w /\ rnd_tape w' = rnd_tape w /\ wr_tape w' = wr_tape w /\
    extends random_event (trace w) (trace w').
Proof.
  induction tape as [|a tape IH]; intros fd buf len total w r buf' w' Ht Hb Hlen;
    cbn [urandom_loop]; rewrite to_ssize_t_id by lia;
    destruct (total <? len) eqn:E0.
  - intros [= <- <- <-]. exists []. rewrite blit_nil. simpl.
    repeat split; try done; try lia.
    apply extends_cons; [done | apply extends_refl].
  - intros [= <- <- <-]. exists []. rewrite blit_nil. simpl.
    repeat split; try done; try lia. apply extends_refl.
  - destruct a as [bs| |].
    + destruct (Z.of_nat (length (take (Z.to_nat (len - total)) bs)) =? 0) eqn:E1.
      * intros [= <- <- <-]. exists []. rewrite blit_nil. simpl.
        repeat split; try done; try lia.
        apply extends_cons; [done | apply extends_refl].
      * intros Hrun. apply IH in Hrun as (data & -> & Hd & Hr & Hrest).
        -- exists (take (Z.to_nat (len - total)) bs ++ data).
           rewrite fmap_app. rewrite <- blit_blit by lia.
           rewrite length_fmap. rewrite length_app.
           simpl in Hrest. destruct Hrest as (? & ? & ? & ? & ? & ? & Hext).
           repeat split; try done; try lia.
           eapply extends_step; [| exact Hext]; done.
        -- rewrite length_take. lia.
        -- rewrite blit_length; rewrite ?length_fmap, ?length_take; lia.
        -- done.
    + intros Hrun. apply IH in Hrun as (data & -> & Hd & Hr & Hrest); try done.
      exists data. simpl in Hrest.
      destruct Hrest as (? & ? & ? & ? & ? & ? & Hext).
      repeat split; try done. eapply extends_step; [| exact Hext]; done.
    + intros [= <- <- <-]. exists []. rewrite blit_nil. simpl.
      repeat split; try done; try lia.
      apply extends_cons; [done | apply extends_refl].
  - intros [= <- <- <-]. exists []. rewrite blit_nil. simpl.
    repeat split; try done; try lia. apply extends_refl.
Qed.

(** What [fill_random] leaves untouched. *)
Definition random_frame (w w' : world) : Prop :=
  fs w' = fs w /\ wr_tape w' = wr_tape w /\
  next_fd w <= next_fd w' /\
  (forall fd, fd < next_fd w -> fdt w' !! fd = fdt w !! fd) /\
  (forall k, k <> SOpenUrandom -> k <> SClose -> plan w' k = plan w k) /\
  extends random_event (trace w) (trace w').

(** [fill_random] in full: [d1] is what [getrandom] delivered, [d2] what
    [/dev/urandom] delivered afterwards, from the start of the buffer
    again.  The result is [len] exactly when one of them is complete, and
    the device is opened only after a hard [getrandom] error. *)
Lemma fill_random_spec buf len w r buf' w' :
  0 <= len <= Z.of_nat (length buf) -> len < 2 ^ 63 ->
  fill_random buf len w = (r, buf', w') ->
  exists d1 d2 : list Byte.byte,
    buf' = blit 0 (Rnd <$> d2) (blit 0 (Rnd <$> d1) buf) /\
    Z.of_nat (length d1) <= len /\ Z.of_nat (length d2) <= len /\
    (r = len /\ (Z.of_nat (length d1) = len /\ d2 = [] \/ Z.of_nat (length d2) = len) \/
     r <> len /\ Z.of_nat (length d1) < len /\ Z.of_nat (length d2) < len /\
       (r = -1 \/ r = Z.of_nat (length d2))) /\
    random_frame w w' /\
    (forall evs, trace w' = evs ++ trace w ->
       (exists fd, EvOpenUrandom fd ∈ evs) -> exists n, EvGetrandom n IoErr ∈ evs).
Proof.
  intros Hlen Hmax. unfold fill_random.
  destruct (getrandom_loop (rnd_tape w) buf 0 len w) as [[left1 buf1] w1] eqn:E1.
  apply getrandom_loop_spec in E1
    as (d1 & Hd1 & Hl1 & -> & Hfs1 & Hfdt1 & Hnf1 & Hpl1 & Hdev1 & Hwr1 & ev1 & Hev1 & Hall1 & Herr1);
    try lia.
  assert (Hext1 : extends random_event (trace w) (trace w1)).
  { exists ev1. split; [done |]. eapply Forall_impl; [exact Hall1 |].
    apply getrandom_event_random. }
  destruct (left1 =? 0) eqn:E0.
  - intros [= <- <- <-]. exists d1, []. rewrite (blit_nil 0).
    rewrite to_ssize_t_id by lia. simpl.
    split; [done |]. split; [lia |]. split; [lia |]. split; [arith |].
    split.
    + repeat split; try done; try lia.
      * intros; by rewrite Hfdt1.
      * intros; by rewrite Hpl1.
    + intros evs Hevs [fd Hfd]. rewrite Hev1 in Hevs.
      apply app_inv_tail in Hevs as <-.
      rewrite Forall_forall in Hall1. by apply Hall1 in Hfd.
  - assert (Hget : forall evs2 evs, trace w1 = ev1 ++ trace w ->
        evs2 ++ trace w1 = evs ++ trace w -> exists n, EvGetrandom n IoErr ∈ evs).
    { intros evs2 evs H1 H2. rewrite H1, app_assoc in H2.
      apply app_inv_tail in H2 as <-. destruct Herr1 as [n Hn]; [lia |].
      exists n. apply elem_of_app. by right. }
    unfold OS.open_urandom, pop. cbn [fst snd].
    destruct (hd true (plan w1 SOpenUrandom)) eqn:Eok; cbn [OS.alloc_fd].
    + simpl. destruct (next_fd w1 <? 0) eqn:Eneg.
      * intros [= <- <- <-]. exists d1, []. rewrite (blit_nil 0). simpl.
        split; [done |]. split; [lia |]. split; [lia |]. split; [arith |].
        split.
        -- repeat split; simpl; try done; try lia.
           ++ intros fd Hfd. rewrite lookup_insert_ne by lia. by rewrite Hfdt1.
           ++ intros k Hk _. rewrite Hpl1. by destruct (decide (k = SOpenUrandom)).
           ++ apply extends_cons; [done | exact Hext1].
        -- intros evs Hevs _. eapply (Hget [_]); [done | exact Hevs].
      * match goal with |- context [urandom_loop ?t ?fd ?b ?l ?tot ?w0] =>
          destruct (urandom_loop t fd b l tot w0) as [[total2 buf2] w2] eqn:E2 end.
        apply urandom_loop_spec in E2
          as (d2 & -> & Hd2 & Hr2 & Hfs2 & Hfdt2 & Hnf2 & Hpl2 & Hrnd2 & Hwr2 & Hext2);
          try lia.
        2: { rewrite blit_length; rewrite ?length_fmap; lia. }
        simpl in *. intros [= <- <- <-]. exists d1, d2. simpl.
        split; [done |]. split; [lia |]. split; [lia |]. split; [arith |].
        split.
        -- repeat split; simpl; try done; try lia.
           ++ congruence.
           ++ congruence.
           ++ intros fd Hfd. rewrite Hfdt2.
              rewrite lookup_delete_ne by lia.
              rewrite lookup_insert_ne by lia. by rewrite Hfdt1.
           ++ intros k Hk Hk'. rewrite Hpl2, Hpl1.
              destruct (decide (k = SClose)); [done |].
              by destruct (decide (k = SOpenUrandom)).
           ++ apply extends_cons; [done |].
              eapply extends_trans; [| exact Hext2].
              apply extends_cons; [done | exact Hext1].
        -- intros evs Hevs _. destruct Hext2 as (ev2 & Hev2 & _).
           rewrite Hev2 in Hevs.
           eapply (Hget (_ :: ev2 ++ [_])); [done |].
           rewrite <- Hevs. simpl. by rewrite <- app_assoc.
    + simpl. intros [= <- <- <-]. exists d1, []. rewrite (blit_nil 0). simpl.
      split; [done |]. split; [lia |]. split; [lia |]. split; [arith |].
      split.
      * repeat split; simpl; try done; try lia.
        -- intros; by rewrite Hfdt1.
        -- intros k Hk _. rewrite Hpl1. by destruct (decide (k = SOpenUrandom)).
        -- apply extends_cons; [done | exact Hext1].
      * intros evs Hevs _. eapply (Hget [_]); [done | exact Hevs].
Qed.

Lemma blit2_length (d1 d2 : list Byte.byte) (buf : list cell) :
  (length d1 <= length buf)%nat -> (length d2 <= length buf)%nat ->
  length (blit 0 (Rnd <$> d2) (blit 0 (Rnd <$> d1) buf)) = length buf.
Proof.
  intros H1 H2.
  assert (Hin : length (blit 0 (Rnd <$> d1) buf) = length buf).
  { apply blit_length; rewrite ?length_fmap; lia. }
  rewrite blit_length; rewrite ?length_fmap; lia.
Qed.

(** Consequences of [fill_random_spec] used by the callers. *)
Lemma fill_random_ok buf len w buf' w' :
  0 <= len <= Z.of_nat (length buf) -> len < 2 ^ 63 ->
  fill_random buf len w = (len, buf', w') ->
  length buf' = length buf /\
  Forall (fun c => is_rnd c = true) (take (Z.to_nat len) buf') /\
  random_frame w w'.
Proof.
  intros Hlen Hmax Hrun.
  apply fill_random_spec in Hrun as (d1 & d2 & -> & H1 & H2 & Hr & Hframe & _); try done.
  split; [| split; [| done]].
  - apply blit2_length; lia.
  - destruct Hr as [[_ [[Hd1 ->] | Hd2]] | [? _]]; [| | done].
    + rewrite (blit_nil 0). rewrite blit_take by (rewrite length_fmap; lia).
      apply Forall_fmap. by apply Forall_true.
    + rewrite blit_take by (rewrite length_fmap; lia).
      apply Forall_fmap. by apply Forall_true.
Qed.

Lemma fill_random_frame buf len w r buf' w' :
  0 <= len <= Z.of_nat (length buf) -> len < 2 ^ 63 ->
  fill_random buf len w = (r, buf', w') ->
  length buf' = length buf /\ random_frame w w'.
Proof.
  intros Hlen Hmax Hrun.
  apply fill_random_spec in Hrun as (d1 & d2 & -> & H1 & H2 & Hr & Hframe & _); try done.
  split; [| done]. apply blit2_length; lia.
Qed.

(** ** The random file name *)

(** C1 (amended). Whenever [random_filename_in_dir] succeeds, it has
    drawn 16 random bytes, and the name it returns is the directory of
    the path, a slash, and a basename of 16 lowercase hexadecimal digits
    that render the first 8 of those bytes: 64 bits of randomness. *)
Theorem random_filename_basename path w out w' :
  random_filename_in_dir path w = (Some out, w') ->
  exists rnd w1,
    fill_random (replicate 16 Junk) 16 (snd (OS.malloc (strlen path + 1) w))
      = (16, rnd, w1) /\
    length rnd = 16%nat /\
    Forall (fun c => is_rnd c = true) rnd /\
    out = dirname path +:+ "/" +:+ hex_of (take 8 rnd) /\
    String.length (hex_of (take 8 rnd)) = 16%nat /\
    all_lower_hex (hex_of (take 8 rnd)) = true.
Proof.
  unfold random_filename_in_dir.
  destruct (OS.malloc (strlen path + 1) w) as [ok w0] eqn:E0. cbn [snd].
  destruct ok; cbn [negb]; [| done].
  destruct (fill_random (replicate 16 Junk) 16 w0) as [[r rnd] w1] eqn:E1.
  change (to_ssize_t 16) with 16.
  destruct (r =? 16) eqn:Er; cbn [negb]; [| done].
  apply Z.eqb_eq in Er as ->.
  destruct (fill_random_ok (replicate 16 Junk) 16 w0 rnd w1) as (Hlen & Hrnd & _);
    [rewrite length_replicate; lia | done | done |].
  rewrite length_replicate in Hlen.
  change (Z.to_nat 16) with 16%nat in *. change (Z.to_nat (16 / 2)) with 8%nat.
  rewrite take_ge in Hrnd by lia.
  pose proof (name_loop_spec 8 0 rnd EmptyString ltac:(lia) eq_refl) as Hname.
  change (Z.of_nat 0) with 0 in Hname. rewrite Hname, drop_0, str_append_nil.
  assert (Hl : String.length (hex_of (take 8 rnd)) = 16%nat).
  { rewrite hex_of_length, length_take. lia. }
  rewrite (str_take_all 16) by lia.
  destruct (OS.malloc _ w1) as [ok2 w2] eqn:E2.
  destruct ok2; cbn [negb]; [| done].
  intros [= <- <-]. exists rnd, w1.
  repeat split; try done; [| apply hex_of_lower].
  unfold snprintf. apply str_take_all.
  unfold strlen. rewrite !str_length_append. simpl. lia.
Qed.

Definition world_C1 : world :=
  set_rnd_tape [GrBytes bytes_seq] (world0 [("/tmp"%string, NDir);
                ("/tmp/a"%string, NReg [Orig Byte.xaa])]).

Lemma random_filename_basename_witness :
  exists rnd w1,
    fill_random (replicate 16 Junk) 16 (snd (OS.malloc (strlen "/tmp/a" + 1) world_C1))
      = (16, rnd, w1) /\
    length rnd = 16%nat /\
    Forall (fun c => is_rnd c = true) rnd /\
    "/tmp/00017f80abcdefff"%string = dirname "/tmp/a" +:+ "/" +:+ hex_of (take 8 rnd) /\
    String.length (hex_of (take 8 rnd)) = 16%nat /\
    all_lower_hex (hex_of (take 8 rnd)) = true.
Proof.
  apply (random_filename_basename "/tmp/a" world_C1 "/tmp/00017f80abcdefff"
           (snd (random_filename_in_dir "/tmp/a" world_C1))).
  vm_compute. reflexivity.
Defined.

(** C1, as stated, fails: with the 16 random bytes [bytes_seq] the
    basename is [00017f80abcdefff], 16 characters; no basename of 32
    characters is produced, and the last 8 random bytes do not matter. *)
Lemma random_filename_basename_not_32 :
  fst (random_filename_in_dir "/tmp/a" world_C1) = Some "/tmp/00017f80abcdefff"%string /\
  ~ (exists name, String.length name = 32%nat /\
       fst (random_filename_in_dir "/tmp/a" world_C1) = Some ("/tmp/" +:+ name)) /\
  fst (random_filename_in_dir "/tmp/a"
         (set_rnd_tape [GrBytes (take 8 bytes_seq ++ replicate 8 Byte.x00)] world_C1))
  = fst (random_filename_in_dir "/tmp/a" world_C1).
Proof.
  split; [vm_compute; reflexivity |]. split; [| vm_compute; reflexivity].
  intros (name & Hlen & Hname).
  assert (H : fst (random_filename_in_dir "/tmp/a" world_C1)
              = Some ("/tmp/" +:+ "00017f80abcdefff")) by (vm_compute; reflexivity).
  rewrite H in Hname. injection Hname as Hname.
  apply (f_equal String.length) in Hname.
  rewrite !str_length_append in Hname. simpl in Hname. lia.
Qed.

Definition world_C5 : world :=
  set_dev_tape [RdEintr; RdBytes (take 3 bytes_seq); RdBytes (drop 3 bytes_seq)]
    (set_rnd_tape [GrBytes (take 2 bytes_seq); GrEintr; GrErr] (world0 [])).

(** ** Writing to the open file *)

(** Descriptor [fd] is open on the regular file [rp] of [size] bytes, at
    offset [pos]. *)
Definition file_open (w : world) (fd : Z) (rp : string) (pos size : Z) : Prop :=
  fdt w !! fd = Some (OFile rp pos) /\ fd < next_fd w /\
  exists data, fs w !! rp = Some (NReg data) /\ Z.of_nat (length data) = size.

Lemma file_open_random_frame w w' fd rp pos size :
  random_frame w w' -> file_open w fd rp pos size -> file_open w' fd rp pos size.
Proof.
  intros (Hfs & _ & Hnf & Hfdt & _) (Hfd & Hlt & data & Hdata & Hlen).
  repeat split.
  - by rewrite Hfdt.
  - lia.
  - exists data. by rewrite Hfs.
Qed.

Lemma file_write_length pos src data :
  0 <= pos -> pos + Z.of_nat (length src) <= Z.of_nat (length data) ->
  length (OS.file_write pos src data) = length data.
Proof.
  intros H1 H2. unfold OS.file_write.
  replace (Z.to_nat pos - length data)%nat with 0%nat by lia.
  simpl. rewrite app_nil_r. by apply blit_length.
Qed.

Fixpoint count (P : event -> bool) (evs : list event) : nat :=
  match evs with
  | [] => 0
  | e :: evs' => (if P e then 1 else 0) + count P evs'
  end.

Lemma count_app P evs1 evs2 : count P (evs1 ++ evs2) = (count P evs1 + count P evs2)%nat.
Proof. induction evs1 as [|e evs1 IH]; simpl; [done | rewrite IH; lia]. Qed.

Lemma count_none P Q evs :
  Forall (fun e => Q e = true) evs -> (forall e, Q e = true -> P e = false) ->
  count P evs = 0%nat.
Proof.
  intros Hall HQP. induction Hall as [|e evs He _ IH]; simpl; [done |].
  by rewrite (HQP e He), IH.
Qed.

(** [covers rp off e]: [e] is a write to file [rp] that includes the
    byte at offset [off]. *)
Definition covers (rp : string) (off : Z) (e : event) : bool :=
  match e with
  | EvWrite _ f pos data =>
      bool_decide (f = rp) && (pos <=? off) && (off <? pos + Z.of_nat (length data))
  | _ => false
  end.

(** The events of a pass's write loop when it completes: interrupted
    writes, writes of cells of kind [P] inside the first [size] bytes of
    [rp], and ([rnd]) the random byte source at work. *)
Definition chunk_event (P : cell -> bool) (rnd : bool) (rp : string) (size : Z)
    (e : event) : bool :=
  match e with
  | EvWrite _ f pos data =>
      bool_decide (f = rp) && (0 <=? pos) && (pos + Z.of_nat (length data) <=? size)
      && forallb P data
  | EvWriteFail _ true => true
  | _ => rnd && random_event e
  end.

(** One [write] on the open file. *)
Lemma os_write_spec resp fd buf count_ w wr w1 rp pos size :
  0 <= count_ -> pos + count_ <= size -> 0 <= pos ->
  file_open w fd rp pos size ->
  os_write resp fd buf count_ w = (wr, w1) ->
  match wr with
  | IoOk k =>
      0 <= k <= count_ /\ file_open w1 fd rp (pos + k) size /\
      trace w1 = EvWrite fd rp pos (take (Z.to_nat k) buf) :: trace w /\
      (Z.to_nat k <= length buf)%nat
  | IoEintr => file_open w1 fd rp pos size /\ trace w1 = EvWriteFail fd true :: trace w
  | IoErr => trace w1 = EvWriteFail fd false :: trace w
  end.
Proof.
  intros Hc Hfit Hpos (Hfd & Hlt & data & Hdata & Hlen).
  destruct resp as [n| |]; simpl.
  - unfold OS.write_n. rewrite Hfd, Hdata.
    set (src := take (Nat.min n (Z.to_nat count_)) buf).
    assert (Hsrc : Z.of_nat (length src) <= count_).
    { unfold src. rewrite length_take. lia. }
    destruct (Z.of_nat (length src) <? 0) eqn:E; [lia |].
    intros [= <- <-]. rewrite Nat2Z.id.
    split; [lia |]. split; [| split].
    + unfold file_open. simpl. rewrite !lookup_insert_eq.
      split; [done |]. split; [lia |].
      exists (OS.file_write pos src data).
      split; [done |]. rewrite file_write_length; lia.
    + simpl. do 2 f_equal. unfold src. rewrite length_take.
      destruct (decide (Nat.min n (Z.to_nat count_) <= length buf)%nat).
      * f_equal. lia.
      * rewrite !take_ge; [done | lia | lia].
    + unfold src. rewrite length_take. lia.
  - intros [= <- <-]. split; [| done]. unfold file_open. simpl. eauto.
  - by intros [= <- <-].
Qed.

Lemma forallb_take_take (P : cell -> bool) (k n : nat) (buf : list cell) :
  (k <= n)%nat -> Forall (fun c => P c = true) (take n buf) ->
  forallb P (take k buf) = true.
Proof.
  intros Hk Hall. apply forallb_forall. intros c Hc.
  rewrite Forall_forall in Hall. apply Hall.
  apply list_elem_of_In in Hc. apply list_elem_of_lookup in Hc as [i Hi].
  apply lookup_take_Some in Hi as [Hi Hlt].
  apply list_elem_of_lookup. exists i. rewrite lookup_take_lt by lia. done.
Qed.

Lemma chunk_lt_2_63 z : z <= CHUNK -> z < 2 ^ 63.
Proof. rewrite CHUNK_val. intros H. eapply Z.le_lt_trans; [exact H | done]. Qed.

Lemma random_event_not_covers rp off e : random_event e = true -> covers rp off e = false.
Proof. by destruct e. Qed.

(** A random pass's write loop that completes has written every byte
    from [written_total] to the end of the file exactly once, with
    random cells, and nothing outside the file's extent. *)
Lemma random_write_loop_ok tape : forall verbose fd size bufsize buf wt w buf' w' rp,
  0 <= wt <= size -> size <= OFF_MAX -> 0 < bufsize <= CHUNK ->
  bufsize <= Z.of_nat (length buf) ->
  file_open w fd rp wt size ->
  random_write_loop tape verbose fd size bufsize buf wt w = (Some buf', w') ->
  length buf' = length buf /\ file_open w' fd rp size size /\
  exists evs, trace w' = evs ++ trace w /\
    Forall (fun e => chunk_event is_rnd true rp size e = true) evs /\
    forall off, count (covers rp off) evs
                = if (wt <=? off) && (off <? size) then 1%nat else 0%nat.
Proof.
  induction tape as [|resp tape IH];
    intros verbose fd size bufsize buf wt w buf' w' rp Hwt Hsize Hbs Hbuf Hopen;
    cbn [random_write_loop]; destruct (wt <? size) eqn:Elt.
  2,4: intros [= <- <-]; assert (wt = size) as -> by lia;
       (split; [done |]; split; [done |]; exists []; repeat split; try done;
        intros off; simpl; destruct (size <=? off) eqn:?, (off <? size) eqn:?; simpl; lia).
  all: rewrite chunk_len_spec by lia;
       remember (Z.min bufsize (size - wt)) as towrite eqn:Htw0;
       assert (Htw : 0 < towrite <= bufsize /\ towrite <= size - wt) by lia;
       pose proof CHUNK_val as HC;
       destruct (fill_random buf towrite w) as [[r buf1] w1] eqn:Efill;
       rewrite to_ssize_t_id by (pose proof (chunk_lt_2_63 towrite); lia);
       destruct (r =? towrite) eqn:Er; cbn [negb]; [| done];
       apply Z.eqb_eq in Er as ->;
       apply fill_random_ok in Efill as (Hlen1 & Hrnd1 & Hframe1);
         [| lia | apply chunk_lt_2_63; lia].
  - destruct (os_write WrErr fd buf1 towrite w1). done.
  - destruct (os_write resp fd buf1 towrite (set_wr_tape tape w1)) as [wr w2] eqn:Ew.
    pose proof (file_open_random_frame _ _ _ _ _ _ Hframe1 Hopen) as Hopen1.
    destruct Hframe1 as (_ & _ & _ & _ & _ & ev1 & Hev1 & Hall1).
    apply (os_write_spec _ _ _ _ _ _ _ rp wt size) in Ew; [| lia | lia | lia | exact Hopen1].
    destruct wr as [k| |]; [| | done].
    + destruct Ew as (Hk & Hopen2 & Htr2 & Hkb). intros Hrun.
      apply (IH _ _ _ _ _ _ _ _ _ rp) in Hrun as (Hlen' & Hopen' & evs & Hevs & Hall & Hcov);
        [| lia | done | done | lia | done].
      split; [congruence |]. split; [done |].
      exists (evs ++ EvWrite fd rp wt (take (Z.to_nat k) buf1) :: ev1).
      split; [| split].
      * rewrite Hevs, Htr2. simpl. rewrite Hev1. by rewrite <- app_assoc.
      * apply Forall_app. split; [done |]. constructor.
        -- simpl. rewrite length_take. rewrite bool_decide_eq_true_2 by done.
           rewrite (forallb_take_take is_rnd _ (Z.to_nat towrite)); [| lia | done].
           simpl. rewrite andb_true_r. apply andb_true_intro. split; apply Z.leb_le; lia.
        -- eapply Forall_impl; [exact Hall1 |]. intros e He. destruct e; try done.
      * intros off. rewrite count_app, Hcov. simpl. rewrite length_take.
        rewrite (count_none _ _ _ Hall1 (random_event_not_covers rp off)).
        rewrite bool_decide_eq_true_2 by done. simpl.
        replace (Z.of_nat (Nat.min (Z.to_nat k) (length buf1))) with k by lia.
        destruct (wt + k <=? off) eqn:?, (off <? size) eqn:?, (wt <=? off) eqn:?,
          (off <? wt + k) eqn:?; simpl; lia.
    + destruct Ew as (Hopen2 & Htr2). intros Hrun.
      apply (IH _ _ _ _ _ _ _ _ _ rp) in Hrun as (Hlen' & Hopen' & evs & Hevs & Hall & Hcov);
        [| lia | done | done | lia | done].
      split; [congruence |]. split; [done |].
      exists (evs ++ EvWriteFail fd true :: ev1).
      split; [| split].
      * rewrite Hevs, Htr2. simpl. rewrite Hev1. by rewrite <- app_assoc.
      * apply Forall_app. split; [done |]. constructor; [done |].
        eapply Forall_impl; [exact Hall1 |]. intros e He. destruct e; try done.
      * intros off. rewrite count_app, Hcov. simpl.
        rewrite (count_none _ _ _ Hall1 (random_event_not_covers rp off)). lia.
Qed.

(** The same for the zero pass, whose loop writes the cleared buffer as
    it is and asks for no random bytes. *)
Lemma zero_write_loop_ok tape : forall verbose fd size bufsize buf wt w buf' w' rp,
  0 <= wt <= size -> size <= OFF_MAX -> 0 < bufsize <= CHUNK ->
  bufsize <= Z.of_nat (length buf) ->
  Forall (fun c => is_zero c = true) (take (Z.to_nat bufsize) buf) ->
  file_open w fd rp wt size ->
  zero_write_loop tape verbose fd size bufsize buf wt w = (Some buf', w') ->
  buf' = buf /\ file_open w' fd rp size size /\
  exists evs, trace w' = evs ++ trace w /\
    Forall (fun e => chunk_event is_zero false rp size e = true) evs /\
    forall off, count (covers rp off) evs
                = if (wt <=? off) && (off <? size) then 1%nat else 0%nat.
Proof.
  induction tape as [|resp tape IH];
    intros verbose fd size bufsize buf wt w buf' w' rp Hwt Hsize Hbs Hbuf Hzero Hopen;
    cbn [zero_write_loop]; destruct (wt <? size) eqn:Elt.
  2,4: intros [= <- <-]; assert (wt = size) as -> by lia;
       (split; [done |]; split; [done |]; exists []; repeat split; try done;
        intros off; simpl; destruct (size <=? off) eqn:?, (off <? size) eqn:?; simpl; lia).
  all: rewrite chunk_len_spec by lia;
       remember (Z.min bufsize (size - wt)) as towrite eqn:Htw0;
       assert (Htw : 0 < towrite <= bufsize /\ towrite <= size - wt) by lia.
  - destruct (os_write WrErr fd buf towrite w). done.
  - destruct (os_write resp fd buf towrite (set_wr_tape tape w)) as [wr w2] eqn:Ew.
    apply (os_write_spec _ _ _ _ _ _ _ rp wt size) in Ew; [| lia | lia | lia | exact Hopen].
    destruct wr as [k| |]; [| | done].
    + destruct Ew as (Hk & Hopen2 & Htr2 & Hkb). intros Hrun.
      apply (IH _ _ _ _ _ _ _ _ _ rp) in Hrun as (Hlen' & Hopen' & evs & Hevs & Hall & Hcov);
        [| lia | done | done | lia | done | done].
      split; [done |]. split; [done |].
      exists (evs ++ [EvWrite fd rp wt (take (Z.to_nat k) buf)]).
      split; [| split].
      * rewrite Hevs, Htr2. simpl. by rewrite <- app_assoc.
      * apply Forall_app. split; [done |]. constructor; [| done].
        simpl. rewrite length_take. rewrite bool_decide_eq_true_2 by done.
        rewrite (forallb_take_take is_zero _ (Z.to_nat bufsize)); [| lia | done].
        simpl. rewrite andb_true_r. apply andb_true_intro. split; apply Z.leb_le; lia.
      * intros off. rewrite count_app, Hcov. simpl. rewrite length_take.
        rewrite bool_decide_eq_true_2 by done. simpl.
        replace (Z.of_nat (Nat.min (Z.to_nat k) (length buf))) with k by lia.
        destruct (wt + k <=? off) eqn:?, (off <? size) eqn:?, (wt <=? off) eqn:?,
          (off <? wt + k) eqn:?; simpl; lia.
    + destruct Ew as (Hopen2 & Htr2). intros Hrun.
      apply (IH _ _ _ _ _ _ _ _ _ rp) in Hrun as (Hlen' & Hopen' & evs & Hevs & Hall & Hcov);
        [| lia | done | done | lia | done | done].
      split; [done |]. split; [done |].
      exists (evs ++ [EvWriteFail fd true]).
      split; [| split].
      * rewrite Hevs, Htr2. simpl. by rewrite <- app_assoc.
      * apply Forall_app. split; [done |]. by constructor.
      * intros off. rewrite count_app, Hcov. simpl. lia.
Qed.

(** ** Passes *)

Definition is_fdatasync (e : event) : bool :=
  match e with EvFdatasync _ _ => true | _ => false end.
Definition is_memset (e : event) : bool :=
  match e with EvMemset _ => true | _ => false end.

(** The events of a completed pass: those of its write loop, the seek
    before, the checkpoint after, progress and warning messages, and for
    the zero pass ([rnd = false]) the [memset]. *)
Definition pass_event (P : cell -> bool) (rnd : bool) (rp : string) (size : Z)
    (e : event) : bool :=
  chunk_event P rnd rp size e ||
  match e with
  | EvLseek _ true | EvFdatasync _ _ | EvFsync _ _ => true
  | EvStderr (MsgPass _ _ _) | EvStderr (MsgPerror _) | EvStderr (MsgFinalZero _) => true
  | EvMemset _ => negb rnd
  | _ => false
  end.

Lemma chunk_event_pass P rnd rp size e :
  chunk_event P rnd rp size e = true -> pass_event P rnd rp size e = true.
Proof. unfold pass_event. by intros ->. Qed.

Lemma vlog_trace v m w :
  trace (vlog v m w) = (if v then [EvStderr m] else []) ++ trace w.
Proof. by destruct v. Qed.

Lemma file_open_vlog v m w fd rp pos size :
  file_open (vlog v m w) fd rp pos size <-> file_open w fd rp pos size.
Proof. by destruct v. Qed.

Lemma lseek0_spec fd w r w1 rp pos size :
  file_open w fd rp pos size ->
  OS.lseek0 fd w = (r, w1) ->
  r = 0 /\ file_open w1 fd rp 0 size /\ trace w1 = EvLseek fd true :: trace w \/
  r = -1 /\ trace w1 = EvLseek fd false :: trace w.
Proof.
  intros (Hfd & Hlt & data & Hdata & Hlen). unfold OS.lseek0, pop. cbn [fst snd].
  destruct (hd true (plan w SLseek)); simpl; rewrite ?Hfd; intros [= <- <-]; [left | by right].
  split; [done |]. split; [| done]. unfold file_open. simpl.
  rewrite lookup_insert_eq. eauto.
Qed.

(** The checkpoint calls [fdatasync] once, [fsync] if that failed, and
    changes neither the files nor the descriptors. *)
Lemma checkpoint_spec v fd w :
  exists evs, trace (checkpoint v fd w) = evs ++ trace w /\
    count is_fdatasync evs = 1%nat /\
    Forall (fun e => match e with
                     | EvFdatasync _ _ | EvFsync _ _ | EvStderr (MsgPerror _) => true
                     | _ => false
                     end = true) evs /\
    fs (checkpoint v fd w) = fs w /\ fdt (checkpoint v fd w) = fdt w /\
    next_fd (checkpoint v fd w) = next_fd w.
Proof.
  unfold checkpoint, sync_and_check, OS.fdatasync, OS.fsync, pop. cbn [fst snd].
  destruct (hd true (plan w SFdatasync)); simpl.
  - eexists [_]. by repeat split; try repeat constructor.
  - match goal with |- context [if ?b then _ else _] => destruct b end; simpl.
    + eexists [_; _]. by repeat split; try repeat constructor.
    + destruct v; simpl.
      * eexists [_; _; _]. by repeat split; try repeat constructor.
      * eexists [_; _]. by repeat split; try repeat constructor.
Qed.

Lemma file_open_checkpoint v fd' w fd rp pos size :
  file_open w fd rp pos size -> file_open (checkpoint v fd' w) fd rp pos size.
Proof.
  destruct (checkpoint_spec v fd' w) as (_ & _ & _ & _ & Hfs & Hfdt & Hnf).
  unfold file_open. by rewrite Hfs, Hfdt, Hnf.
Qed.

Lemma count_all_false P evs :
  Forall (fun e => P e = false) evs -> count P evs = 0%nat.
Proof. induction 1 as [|e evs He _ IH]; simpl; [done | by rewrite He, IH]. Qed.

(** [n] completed random passes: every byte of the file written [n]
    times, [n] checkpoints, no [memset]. *)
Lemma pass_loop_ok n : forall pass passes path verbose fd size bufsize buf w buf' w' rp pos,
  0 <= size <= OFF_MAX -> 0 < bufsize <= CHUNK ->
  bufsize <= Z.of_nat (length buf) ->
  file_open w fd rp pos size ->
  pass_loop n pass passes path verbose fd size bufsize buf w = (Some buf', w') ->
  length buf' = length buf /\ (exists pos', file_open w' fd rp pos' size) /\
  exists evs, trace w' = evs ++ trace w /\
    Forall (fun e => pass_event is_rnd true rp size e = true) evs /\
    count is_fdatasync evs = n /\
    forall off, count (covers rp off) evs
                = if (0 <=? off) && (off <? size) then n else 0%nat.
Proof.
  induction n as [|n IH];
    intros pass passes path verbose fd size bufsize buf w buf' w' rp pos Hsize Hbs Hbuf Hopen;
    cbn [pass_loop].
  - intros [= <- <-]. split; [done |]. split; [eauto |]. exists [].
    repeat split; try done. intros off. simpl. by destruct (_ && _).
  - destruct (OS.lseek0 fd (vlog verbose (MsgPass pass passes path) w)) as [r w1] eqn:Eseek.
    apply (lseek0_spec _ _ _ _ rp pos size) in Eseek; [| by apply file_open_vlog].
    destruct Eseek as [(-> & Hopen1 & Htr1) | (-> & _)]; [| done].
    change (0 =? -1) with false. cbv iota.
    destruct (random_write_loop (wr_tape w1) verbose fd size bufsize buf 0 w1)
      as [[buf1|] w2] eqn:Eloop; [| done].
    apply (random_write_loop_ok _ _ _ _ _ _ _ _ _ _ rp) in Eloop
      as (Hlen1 & Hopen2 & ev2 & Hev2 & Hall2 & Hcov2); [| lia | lia | done | done | done].
    destruct (checkpoint_spec verbose fd w2) as (ev3 & Hev3 & Hn3 & Hall3 & _).
    pose proof (file_open_checkpoint verbose fd _ _ _ _ _ Hopen2) as Hopen3.
    intros Hrun.
    apply (IH _ _ _ _ _ _ _ _ _ _ _ rp size) in Hrun
      as (Hlen' & Hopen' & evs & Hevs & Hall & Hn & Hcov); [| done | done | lia | done].
    split; [congruence |]. split; [done |].
    exists (evs ++ ev3 ++ ev2 ++ EvLseek fd true :: (if verbose then [EvStderr (MsgPass pass passes path)] else [])).
    split; [| split; [| split]].
    + rewrite Hevs, Hev3, Hev2, Htr1, vlog_trace. by rewrite <- !app_assoc.
    + apply Forall_app. split; [done |]. apply Forall_app. split.
      { eapply Forall_impl; [exact Hall3 |]. intros e He. destruct e as [| | | | | | | | | | | | | | | |[]]; done. }
      apply Forall_app. split.
      { eapply Forall_impl; [exact Hall2 |]. intros e. apply chunk_event_pass. }
      constructor; [done |]. destruct verbose; by repeat constructor.
    + rewrite !count_app, Hn, Hn3. simpl.
      rewrite (count_none is_fdatasync _ _ Hall2).
      2: { intros e He. destruct e as [| | | | | | | | | | | | | | | |]; try done. }
      destruct verbose; simpl; lia.
    + intros off. rewrite !count_app, Hcov, Hcov2. simpl.
      rewrite (count_none (covers rp off) _ _ Hall3).
      2: { intros e He. by destruct e. }
      replace (count (covers rp off) (if verbose then [EvStderr (MsgPass pass passes path)] else []))
        with 0%nat by (by destruct verbose).
      destruct ((0 <=? off) && (off <? size)); lia.
Qed.

(** The completed zero pass: one [memset], every byte of the file
    written once with zero cells, one checkpoint. *)
Lemma zero_pass_ok path verbose fd size bufsize buf w buf' w' rp pos :
  0 <= size <= OFF_MAX -> 0 < bufsize <= CHUNK ->
  bufsize <= Z.of_nat (length buf) ->
  file_open w fd rp pos size ->
  zero_pass path verbose fd size bufsize buf w = (Some buf', w') ->
  (exists pos', file_open w' fd rp pos' size) /\
  exists evs, trace w' = evs ++ trace w /\
    Forall (fun e => pass_event is_zero false rp size e = true) evs /\
    count is_fdatasync evs = 1%nat /\ count is_memset evs = 1%nat /\
    forall off, count (covers rp off) evs
                = if (0 <=? off) && (off <? size) then 1%nat else 0%nat.
Proof.
  intros Hsize Hbs Hbuf Hopen. unfold zero_pass.
  destruct (OS.lseek0 fd (vlog verbose (MsgFinalZero path) w)) as [r w1] eqn:Eseek.
  apply (lseek0_spec _ _ _ _ rp pos size) in Eseek; [| by apply file_open_vlog].
  destruct Eseek as [(-> & Hopen1 & Htr1) | (-> & _)]; [| done].
  change (0 =? -1) with false. cbv iota.
  set (zbuf := blit 0 (replicate (Z.to_nat bufsize) Zero) buf).
  assert (Hz : Forall (fun c => is_zero c = true) (take (Z.to_nat bufsize) zbuf)).
  { unfold zbuf. rewrite blit_take by (by rewrite length_replicate).
    by apply Forall_replicate. }
  assert (Hzl : length zbuf = length buf).
  { unfold zbuf. apply blit_length; [lia |]. rewrite length_replicate. lia. }
  destruct (zero_write_loop _ verbose fd size bufsize zbuf 0 (log (EvMemset bufsize) w1))
    as [[buf1|] w2] eqn:Eloop; [| done].
  apply (zero_write_loop_ok _ _ _ _ _ _ _ _ _ _ rp) in Eloop
    as (_ & Hopen2 & ev2 & Hev2 & Hall2 & Hcov2); [| lia | lia | done | lia | done | done].
  destruct (checkpoint_spec verbose fd w2) as (ev3 & Hev3 & Hn3 & Hall3 & _).
  pose proof (file_open_checkpoint verbose fd _ _ _ _ _ Hopen2) as Hopen3.
  intros [= <- <-]. split; [eauto |].
  exists (ev3 ++ ev2 ++ EvMemset bufsize :: EvLseek fd true ::
            (if verbose then [EvStderr (MsgFinalZero path)] else [])).
  split; [| split; [| split; [| split]]].
  - rewrite Hev3, Hev2. simpl. rewrite Htr1, vlog_trace. by rewrite <- !app_assoc.
  - apply Forall_app. split.
    { eapply Forall_impl; [exact Hall3 |]. intros e He.
      destruct e as [| | | | | | | | | | | | | | | |[]]; done. }
    apply Forall_app. split.
    { eapply Forall_impl; [exact Hall2 |]. intros e. apply chunk_event_pass. }
    constructor; [done |]. constructor; [done |]. destruct verbose; by repeat constructor.
  - rewrite !count_app, Hn3. simpl.
    rewrite (count_none is_fdatasync _ _ Hall2).
    2: { intros e He. destruct e as [| | | | | | | | | | | | | | | |]; try done. }
    destruct verbose; simpl; lia.
  - rewrite !count_app. simpl.
    rewrite (count_none is_memset _ _ Hall2).
    2: { intros e He. destruct e as [| | | | | | | | | | | | | | | |]; try done. }
    rewrite (count_none is_memset _ _ Hall3).
    2: { intros e He. by destruct e. }
    destruct verbose; simpl; lia.
  - intros off. rewrite !count_app, Hcov2. simpl.
    rewrite (count_none (covers rp off) _ _ Hall3).
    2: { intros e He. by destruct e. }
    replace (count (covers rp off) (if verbose then [EvStderr (MsgFinalZero path)] else []))
      with 0%nat by (by destruct verbose).
    destruct ((0 <=? off) && (off <? size)); lia.
Qed.

(** [covers_with P rp off e]: [e] is a write to [rp] that includes the
    byte at [off] and whose data are all of kind [P]. *)
Definition covers_with (P : cell -> bool) (rp : string) (off : Z) (e : event) : bool :=
  match e with
  | EvWrite _ _ _ data => covers rp off e && forallb P data
  | _ => false
  end.

Lemma count_ext P Q evs :
  Forall (fun e => P e = Q e) evs -> count P evs = count Q evs.
Proof. induction 1 as [|e evs He _ IH]; simpl; [done | by rewrite He, IH]. Qed.

(** In a pass of kind [P], the covering writes all carry kind [P]. *)
Lemma count_covers_with_same P rnd rp size off evs :
  Forall (fun e => pass_event P rnd rp size e = true) evs ->
  count (covers_with P rp off) evs = count (covers rp off) evs.
Proof.
  intros Hall. apply count_ext. eapply Forall_impl; [exact Hall |].
  intros e He. destruct e; try done. simpl.
  unfold pass_event in He. simpl in He. rewrite orb_false_r in He.
  apply andb_true_iff in He as [_ ->]. by rewrite andb_true_r.
Qed.

(** ... and none carries a disjoint kind [Q]. *)
Lemma count_covers_with_other P Q rnd rp size off evs :
  (forall c, P c = true -> Q c = false) ->
  Forall (fun e => pass_event P rnd rp size e = true) evs ->
  count (covers_with Q rp off) evs = 0%nat.
Proof.
  intros HPQ Hall. apply count_all_false. eapply Forall_impl; [exact Hall |].
  intros e He. destruct e as [| | | | | | | |fd f pos data| | | | | | | |]; try done. simpl.
  unfold pass_event in He. simpl in He. rewrite orb_false_r in He.
  apply andb_true_iff in He as [_ HP].
  destruct (bool_decide (f = rp) && (pos <=? off) && (off <? pos + Z.of_nat (length data)))
    eqn:Ecov; [| done].
  simpl. apply andb_true_iff in Ecov as [Ecov Hhi]. apply andb_true_iff in Ecov as [_ Hlo].
  apply Z.ltb_lt in Hhi. apply Z.leb_le in Hlo.
  destruct data as [|c data]; [simpl in Hhi; lia |].
  simpl in HP |- *. apply andb_true_iff in HP as [Hc _]. by rewrite (HPQ c Hc).
Qed.

(** ** Event classes, whatever the outcome *)

(** Events the pass loops can log. *)
Definition loop_event (e : event) : bool :=
  match e with
  | EvGetrandom _ _ | EvOpenUrandom _ | EvRead _ _ _ | EvClose _
  | EvWrite _ _ _ _ | EvWriteFail _ _ | EvLseek _ _ | EvMemset _
  | EvFdatasync _ _ | EvFsync _ _ => true
  | EvStderr (MsgPerror _) | EvStderr (MsgPass _ _ _)
  | EvStderr MsgRandomFailed | EvStderr (MsgFinalZero _) => true
  | _ => false
  end.

(** Events [overwrite_file] can log. *)
Definition file_event (e : event) : bool :=
  loop_event e ||
  match e with
  | EvStat _ _ | EvOpen _ _ | EvMalloc _ _ => true
  | EvStderr (MsgSkipNonRegular _) | EvStderr (MsgMallocFailed _) => true
  | _ => false
  end.

Lemma random_event_loop e : random_event e = true -> loop_event e = true.
Proof. by destruct e. Qed.

Lemma loop_event_file e : loop_event e = true -> file_event e = true.
Proof. unfold file_event. by intros ->. Qed.

Ltac ext_steps :=
  repeat first [ apply extends_refl | apply extends_cons; [reflexivity |] ].

Lemma getrandom_loop_events tape : forall buf p left w,
  extends random_event (trace w) (trace (getrandom_loop tape buf p left w).2).
Proof.
  induction tape as [|r tape IH]; intros buf p left w; cbn [getrandom_loop];
    destruct (left =? 0); simpl; try by ext_steps.
  destruct r; simpl; try by ext_steps.
  - eapply extends_trans; [| apply IH]; simpl; ext_steps.
  - eapply extends_trans; [| apply IH]; simpl; ext_steps.
Qed.

Lemma urandom_loop_events tape : forall fd buf len total w,
  extends random_event (trace w) (trace (urandom_loop tape fd buf len total w).2).
Proof.
  induction tape as [|r tape IH]; intros fd buf len total w; cbn [urandom_loop];
    destruct (total <? to_ssize_t len); simpl; try by ext_steps.
  destruct r; simpl; try by ext_steps.
  - destruct (_ =? 0); simpl; [by ext_steps |].
    eapply extends_trans; [| apply IH]; simpl; ext_steps.
  - eapply extends_trans; [| apply IH]; simpl; ext_steps.
Qed.

Lemma fill_random_events buf len w :
  extends random_event (trace w) (trace (fill_random buf len w).2).
Proof.
  unfold fill_random.
  pose proof (getrandom_loop_events (rnd_tape w) buf 0 len w) as H1.
  destruct (getrandom_loop (rnd_tape w) buf 0 len w) as [[left1 buf1] w1]. simpl in H1.
  destruct (left1 =? 0); [done |].
  unfold OS.open_urandom, OS.alloc_fd, OS.close, pop. cbn [fst snd].
  destruct (hd true (plan w1 SOpenUrandom)); simpl.
  - destruct (next_fd w1 <? 0); simpl; [by apply extends_cons |].
    match goal with |- context [urandom_loop ?t ?fd ?b ?l ?tot ?w0] =>
      pose proof (urandom_loop_events t fd b l tot w0) as H2;
      destruct (urandom_loop t fd b l tot w0) as [[total2 buf2] w2] end.
    simpl in *. apply extends_cons; [done |].
    eapply extends_trans; [| exact H2]. by apply extends_cons.
  - by apply extends_cons.
Qed.

Lemma bail_events fd w : extends loop_event (trace w) (trace (bail fd w)).
Proof. unfold bail, OS.close, pop. simpl. ext_steps. Qed.

Lemma vlog_events P v m w :
  P (EvStderr m) = true -> extends P (trace w) (trace (vlog v m w)).
Proof. intros H. destruct v; simpl; [by apply extends_cons; [| apply extends_refl] | apply extends_refl]. Qed.

Lemma os_write_events resp fd buf n w :
  extends loop_event (trace w) (trace (os_write resp fd buf n w).2).
Proof.
  destruct resp; simpl; try by ext_steps.
  unfold OS.write_n. repeat case_match; simplify_eq; simpl; ext_steps.
Qed.

Lemma random_write_loop_events tape : forall verbose fd size bufsize buf wt w,
  extends loop_event (trace w)
    (trace (random_write_loop tape verbose fd size bufsize buf wt w).2).
Proof.
  assert (Hfail : forall verbose fd m w0 w1,
    loop_event (EvStderr m) = true ->
    extends loop_event (trace w0) (trace w1) ->
    extends loop_event (trace w0) (trace (bail fd (vlog verbose m w1)))).
  { intros. eapply extends_trans; [| apply bail_events].
    eapply extends_trans; [| by apply vlog_events]. done. }
  induction tape as [|resp tape IH]; intros verbose fd size bufsize buf wt w;
    cbn [random_write_loop]; destruct (wt <? size); try apply extends_refl.
  all: pose proof (fill_random_events buf (chunk_len bufsize size wt) w) as H1;
       destruct (fill_random buf (chunk_len bufsize size wt) w) as [[r buf1] w1];
       simpl in H1; apply (extends_weaken _ loop_event) in H1; [| apply random_event_loop];
       destruct (negb _); cbn [snd]; [by apply Hfail |].
  - pose proof (os_write_events WrErr fd buf1 (chunk_len bufsize size wt) w1) as H2.
    destruct (os_write WrErr fd buf1 _ w1) as [wr w2]. cbn [snd] in *.
    apply Hfail; [done |]. by eapply extends_trans.
  - pose proof (os_write_events resp fd buf1 (chunk_len bufsize size wt) (set_wr_tape tape w1)) as H2.
    destruct (os_write resp fd buf1 _ (set_wr_tape tape w1)) as [wr w2]. cbn [snd] in H2.
    assert (H12 : extends loop_event (trace w) (trace w2)) by (by eapply extends_trans).
    destruct wr.
    + eapply extends_trans; [exact H12 | apply IH].
    + eapply extends_trans; [exact H12 | apply IH].
    + by apply Hfail.
Qed.

Lemma zero_write_loop_events tape : forall verbose fd size bufsize buf wt w,
  extends loop_event (trace w)
    (trace (zero_write_loop tape verbose fd size bufsize buf wt w).2).
Proof.
  assert (Hfail : forall verbose fd m w0 w1,
    loop_event (EvStderr m) = true ->
    extends loop_event (trace w0) (trace w1) ->
    extends loop_event (trace w0) (trace (bail fd (vlog verbose m w1)))).
  { intros. eapply extends_trans; [| apply bail_events].
    eapply extends_trans; [| by apply vlog_events]. done. }
  induction tape as [|resp tape IH]; intros verbose fd size bufsize buf wt w;
    cbn [zero_write_loop]; destruct (wt <? size); try apply extends_refl.
  - pose proof (os_write_events WrErr fd buf (chunk_len bufsize size wt) w) as H2.
    destruct (os_write WrErr fd buf _ w) as [wr w2]. cbn [snd] in *.
    by apply Hfail.
  - pose proof (os_write_events resp fd buf (chunk_len bufsize size wt) (set_wr_tape tape w)) as H2.
    destruct (os_write resp fd buf _ (set_wr_tape tape w)) as [wr w2]. cbn [snd] in H2.
    destruct wr.
    + eapply extends_trans; [exact H2 | apply IH].
    + eapply extends_trans; [exact H2 | apply IH].
    + by apply Hfail.
Qed.

Lemma lseek0_events fd w : extends loop_event (trace w) (trace (OS.lseek0 fd w).2).
Proof. unfold OS.lseek0, pop. cbn [fst snd]. repeat case_match; simpl; ext_steps. Qed.

Lemma checkpoint_events v fd w : extends loop_event (trace w) (trace (checkpoint v fd w)).
Proof.
  destruct (checkpoint_spec v fd w) as (evs & Hevs & _ & Hall & _).
  exists evs. split; [done |]. eapply Forall_impl; [exact Hall |].
  intros e He. destruct e as [| | | | | | | | | | | | | | | |[]]; done.
Qed.

Lemma pass_loop_events n : forall pass passes path verbose fd size bufsize buf w,
  extends loop_event (trace w)
    (trace (pass_loop n pass passes path verbose fd size bufsize buf w).2).
Proof.
  induction n as [|n IH]; intros pass passes path verbose fd size bufsize buf w;
    cbn [pass_loop]; [apply extends_refl |].
  pose proof (vlog_events loop_event verbose (MsgPass pass passes path) w eq_refl) as H0.
  pose proof (lseek0_events fd (vlog verbose (MsgPass pass passes path) w)) as H1.
  destruct (OS.lseek0 fd _) as [r w1]. cbn [snd] in H1.
  assert (H01 : extends loop_event (trace w) (trace w1)) by (by eapply extends_trans).
  destruct (r =? -1).
  - cbn [snd]. eapply extends_trans; [| apply bail_events].
    eapply extends_trans; [| by apply vlog_events]. done.
  - pose proof (random_write_loop_events (wr_tape w1) verbose fd size bufsize buf 0 w1) as H2.
    destruct (random_write_loop _ verbose fd size bufsize buf 0 w1) as [[buf1|] w2];
      cbn [snd] in *; [| by eapply extends_trans].
    eapply extends_trans; [| apply IH].
    eapply extends_trans; [| apply checkpoint_events]. by eapply extends_trans.
Qed.

Lemma zero_pass_events path verbose fd size bufsize buf w :
  extends loop_event (trace w)
    (trace (zero_pass path verbose fd size bufsize buf w).2).
Proof.
  unfold zero_pass.
  pose proof (vlog_events loop_event verbose (MsgFinalZero path) w eq_refl) as H0.
  pose proof (lseek0_events fd (vlog verbose (MsgFinalZero path) w)) as H1.
  destruct (OS.lseek0 fd _) as [r w1]. cbn [snd] in H1.
  assert (H01 : extends loop_event (trace w) (trace w1)) by (by eapply extends_trans).
  destruct (r =? -1).
  - cbn [snd]. eapply extends_trans; [| apply bail_events].
    eapply extends_trans; [| by apply vlog_events]. done.
  - match goal with |- context [zero_write_loop ?t ?v ?f ?s ?b ?zb ?o ?w0] =>
      pose proof (zero_write_loop_events t v f s b zb o w0) as H2;
      destruct (zero_write_loop t v f s b zb o w0) as [[buf1|] w2] end;
      cbn [snd] in *.
    + eapply extends_trans; [| apply checkpoint_events].
      eapply extends_trans; [| exact H2]. by apply extends_cons.
    + eapply extends_trans; [| exact H2]. by apply extends_cons.
Qed.

(** ** [overwrite_file] *)

Lemma walk_names_lookup follow (m : gmap string node) names :
  (forall target dir rest rp nd, follow target dir rest = Some (rp, nd) -> m !! rp = Some nd) ->
  forall dir rp nd, walk_names follow m dir names = Some (rp, nd) -> m !! rp = Some nd.
Proof.
  intros Hfollow. induction names as [|name rest IH]; intros dir rp nd; cbn [walk_names].
  - destruct (m !! dir) as [n|] eqn:E; [| done]. by intros [= <- <-].
  - destruct (String.eqb name "" || String.eqb name "."); [apply IH |].
    destruct (String.eqb name ".."); [apply IH |].
    destruct (m !! join dir name) as [n|] eqn:E; [| done].
    destruct n; try (destruct rest; [by intros [= <- <-] | done]).
    + apply IH.
    + apply Hfollow.
Qed.

Lemma walk_lookup hops (m : gmap string node) : forall dir names rp nd,
  walk hops m dir names = Some (rp, nd) -> m !! rp = Some nd.
Proof.
  induction hops as [|hops IH]; intros dir names rp nd; cbn [walk];
    apply walk_names_lookup; intros target dir' rest rp' nd'; [done |].
  destruct (String.eqb target ""); [done | apply IH].
Qed.

Lemma resolve_lookup hops (m : gmap string node) path rp nd :
  resolve hops m path = Some (rp, nd) -> m !! rp = Some nd.
Proof.
  unfold resolve. destruct (String.eqb path ""); [done | apply walk_lookup].
Qed.

(** Resolution at work: links are followed in every place of a path, a
    relative link from its own directory; [.], [..] and repeated slashes
    are passed over; a file is no directory; a link to itself leads
    nowhere. *)
Definition tree_sample : gmap string node :=
  list_to_map [("/tmp"%string, NDir); ("/tmp/d"%string, NDir);
               ("/tmp/d/f"%string, NReg []); ("f"%string, NReg []);
               ("/tmp/ld"%string, NLink "d"); ("/tmp/d/up"%string, NLink "../d/f");
               ("/tmp/abs"%string, NLink "/tmp/d/f"); ("/tmp/loop"%string, NLink "loop")].

Lemma resolve_sample :
  (fun path => fst <$> resolve MAXSYMLINKS tree_sample path)
    <$> ["/tmp/d/f"; "/tmp/ld/f"; "/tmp/d/up"; "/tmp/abs"; "/tmp/./d/../d//f"; "./f";
         "/tmp/ld"; "/tmp/d/f/"; "/tmp/d/f/.."; "/tmp/loop"; "/tmp/none/../d/f"; ""]%string
  = [Some "/tmp/d/f"; Some "/tmp/d/f"; Some "/tmp/d/f"; Some "/tmp/d/f"; Some "/tmp/d/f";
     Some "f"; Some "/tmp/d"; None; None; None; None; None]%string.
Proof. vm_compute. reflexivity. Qed.

Lemma node_stat_reg nd st :
  node_stat nd = Some st -> S_ISREG (st_mode st) = true ->
  exists data, nd = NReg data /\ st_size st = Z.of_nat (length data) /\
               Z.of_nat (length data) <= OFF_MAX.
Proof.
  destruct nd; simpl; try (by intros [= <-]).
  destruct (Z.of_nat (length data) <=? OFF_MAX) eqn:E; [| done].
  intros [= <-] _. exists data. repeat split. lia.
Qed.

Lemma stat_spec path w st w1 :
  OS.stat path w = (st, w1) ->
  w1 = log (EvStat path (bool_decide (is_Some st))) w /\
  match st with
  | Some s => exists rp nd, resolve MAXSYMLINKS (fs w) path = Some (rp, nd) /\
                            node_stat nd = Some s
  | None => forall rp nd, resolve MAXSYMLINKS (fs w) path = Some (rp, nd) ->
                          node_stat nd = None
  end.
Proof.
  unfold OS.stat. destruct (resolve MAXSYMLINKS (fs w) path) as [[rp nd]|] eqn:E.
  - destruct (node_stat nd) eqn:En; intros [= <- <-]; (split; [done |]).
    + eauto.
    + by intros ? ? [= <- <-].
  - intros [= <- <-]. split; [done |]. done.
Qed.

Lemma open_wronly_spec path w fd w1 :
  OS.open_wronly path w = (fd, w1) ->
  trace w1 = EvOpen path fd :: trace w /\ fs w1 = fs w /\
  ((fd <? 0) = false ->
   exists rp data, resolve MAXSYMLINKS (fs w) path = Some (rp, NReg data) /\
     file_open w1 fd rp 0 (Z.of_nat (length data))).
Proof.
  unfold OS.open_wronly, OS.alloc_fd, pop. cbn [fst snd].
  destruct (hd true (plan w SOpen)); cbn [fs set_plan].
  - destruct (resolve MAXSYMLINKS (fs w) path) as [[rp []]|] eqn:E;
      intros [= <- <-]; simpl; (split; [done |]; split; [done |]); try done.
    intros _. exists rp, data. split; [done |]. unfold file_open. simpl.
    rewrite lookup_insert_eq. split; [done |]. split; [lia |].
    exists data. split; [| done]. by eapply resolve_lookup.
  - destruct (resolve MAXSYMLINKS (fs w) path) as [[rp []]|] eqn:E;
      intros [= <- <-]; simpl; (split; [done |]; split; [done |]); done.
Qed.

Lemma alloc_buf_spec size w o w1 :
  alloc_buf size w = (o, w1) ->
  fs w1 = fs w /\ fdt w1 = fdt w /\ next_fd w1 = next_fd w /\
  match o with
  | Return buf => buf = replicate (Z.to_nat size) Junk /\
                  trace w1 = EvMalloc size true :: trace w
  | Exit status => status = 2 /\
      trace w1 = EvStderr (MsgMallocFailed size) :: EvMalloc size false :: trace w
  end.
Proof.
  unfold alloc_buf, OS.malloc, pop. cbn [fst snd].
  destruct (hd true (plan w SMalloc)); intros [= <- <-]; simpl; done.
Qed.

Lemma file_open_frame w w1 fd rp pos size :
  fs w1 = fs w -> fdt w1 = fdt w -> next_fd w1 = next_fd w ->
  file_open w fd rp pos size -> file_open w1 fd rp pos size.
Proof. unfold file_open. by intros -> -> ->. Qed.

(** The last step of a successful [overwrite_file]. *)
Definition closing_event (e : event) : bool :=
  match e with EvClose _ | EvStderr (MsgPerror _) => true | _ => false end.

(** A successful [overwrite_file], step by step: [stat], [open] and
    [malloc]; the random passes [evs_r]; the zero pass [evs_z] if asked
    for; [close].  The file keeps its length. *)
Lemma overwrite_file_ok path passes final_zero verbose w w' :
  overwrite_file path passes final_zero verbose w = (Return 0, w') ->
  exists rp data, resolve MAXSYMLINKS (fs w) path = Some (rp, NReg data) /\
    Z.of_nat (length data) <= OFF_MAX /\
    (exists data', fs w' !! rp = Some (NReg data') /\ length data' = length data) /\
    exists fd evs_r evs_z evs_c,
      trace w' = evs_c ++ evs_z ++ evs_r ++
                 [EvMalloc (bufsize_of (Z.of_nat (length data))) true;
                  EvOpen path fd; EvStat path true] ++ trace w /\
      Forall (fun e => pass_event is_rnd true rp (Z.of_nat (length data)) e = true) evs_r /\
      count is_fdatasync evs_r = Z.to_nat passes /\
      (forall off, count (covers rp off) evs_r
         = if (0 <=? off) && (off <? Z.of_nat (length data)) then Z.to_nat passes else 0%nat) /\
      Forall (fun e => pass_event is_zero false rp (Z.of_nat (length data)) e = true) evs_z /\
      count is_fdatasync evs_z = (if final_zero then 1 else 0)%nat /\
      count is_memset evs_z = (if final_zero then 1 else 0)%nat /\
      (forall off, count (covers rp off) evs_z
         = if (0 <=? off) && (off <? Z.of_nat (length data)) && final_zero
           then 1%nat else 0%nat) /\
      Forall (fun e => closing_event e = true) evs_c.
Proof.
  unfold overwrite_file.
  destruct (OS.stat path w) as [st w1] eqn:Estat.
  apply stat_spec in Estat as [-> Hst].
  destruct st as [st|]; [| done].
  destruct Hst as (rp & nd & Hres & Hnd).
  destruct (S_ISREG (st_mode st)) eqn:Ereg; cbn [negb]; [| done].
  destruct (node_stat_reg _ _ Hnd Ereg) as (data & -> & Hsize & Hmax).
  rewrite Hsize. set (size := Z.of_nat (length data)) in *.
  destruct (OS.open_wronly path _) as [fd w2] eqn:Eopen.
  apply open_wronly_spec in Eopen as (Htr2 & Hfs2 & Hopen2).
  destruct (fd <? 0) eqn:Efd; [done |].
  destruct (Hopen2 eq_refl) as (rp' & data2 & Hres2 & Hopen). cbn [fs log] in Hres2.
  rewrite Hres in Hres2. injection Hres2 as <- <-. fold size in Hopen.
  destruct (alloc_buf (bufsize_of size) w2) as [[buf|status] w3] eqn:Ealloc; [| done].
  apply alloc_buf_spec in Ealloc as (Hfs3 & Hfdt3 & Hnf3 & -> & Htr3).
  apply (file_open_frame _ w3) in Hopen; [| done | done | done].
  pose proof (bufsize_of_pos size ltac:(lia)) as Hbs.
  destruct (pass_loop _ 1 passes path verbose fd size (bufsize_of size) _ w3)
    as [[buf1|] w4] eqn:Epass; [| done].
  apply (pass_loop_ok _ _ _ _ _ _ _ _ _ _ _ _ rp 0) in Epass
    as (Hlen4 & (pos4 & Hopen4) & evs_r & Hev4 & Hall4 & Hn4 & Hcov4);
    [| lia | lia | rewrite length_replicate; lia | done].
  assert (Hfinish : forall w5 evs_z pos5,
    file_open w5 fd rp pos5 size -> trace w5 = evs_z ++ trace w4 ->
    (let '(r, w6) := OS.close fd w5 in
     (Return 0, if negb (r =? 0) then vlog verbose (MsgPerror "close") w6 else w6))
    = (Return 0, w') ->
    (exists data', fs w' !! rp = Some (NReg data') /\ length data' = length data) /\
    exists evs_c, trace w' = evs_c ++ evs_z ++ evs_r ++
        [EvMalloc (bufsize_of size) true; EvOpen path fd; EvStat path true] ++ trace w /\
      Forall (fun e => closing_event e = true) evs_c).
  { intros w5 evs_z pos5 (_ & _ & data' & Hd' & Hl') Htr5.
    unfold OS.close, pop. cbn [fst snd].
    assert (Htr : evs_z ++ trace w4 = evs_z ++ evs_r ++
        [EvMalloc (bufsize_of size) true; EvOpen path fd; EvStat path true] ++ trace w).
    { rewrite Hev4, Htr3, Htr2. done. }
    destruct (hd true (plan w5 SClose)); simpl; intros [= <-].
    - split; [exists data'; split; [done | lia] |].
      eexists [_]. simpl. rewrite Htr5, Htr. by repeat constructor.
    - destruct verbose; simpl.
      + split; [exists data'; split; [done | lia] |].
        eexists [_; _]. simpl. rewrite Htr5, Htr. by repeat constructor.
      + split; [exists data'; split; [done | lia] |].
        eexists [_]. simpl. rewrite Htr5, Htr. by repeat constructor. }
  intros Hrun. exists rp, data. split; [done |]. split; [done |].
  destruct final_zero.
  - destruct (zero_pass path verbose fd size (bufsize_of size) buf1 w4)
      as [[buf2|] w5] eqn:Ezero; [| done].
    apply (zero_pass_ok _ _ _ _ _ _ _ _ _ rp pos4) in Ezero
      as ((pos5 & Hopen5) & evs_z & Hev5 & Hall5 & Hn5 & Hm5 & Hcov5);
      [| lia | lia | rewrite Hlen4, length_replicate; lia | done].
    destruct (Hfinish w5 evs_z pos5 Hopen5 Hev5 Hrun) as (Hdata & evs_c & Htr & Hc).
    split; [done |]. exists fd, evs_r, evs_z, evs_c.
    repeat split; try done. intros off. rewrite Hcov5. by rewrite andb_true_r.
  - destruct (Hfinish w4 [] pos4 Hopen4 eq_refl Hrun) as (Hdata & evs_c & Htr & Hc).
    split; [done |]. exists fd, evs_r, [], evs_c.
    repeat split; try done. intros off. simpl. by rewrite andb_false_r.
Qed.

(** Events of [overwrite_file] before its passes. *)
Definition head_event (e : event) : bool :=
  match e with
  | EvStat _ _ | EvOpen _ _ | EvMalloc _ _ => true
  | EvStderr (MsgSkipNonRegular _) | EvStderr (MsgMallocFailed _) => true
  | _ => false
  end.

Lemma head_event_file e : head_event e = true -> file_event e = true.
Proof. by destruct e as [| | | | | | | | | | | | | | | |[]]. Qed.

(** Case analysis on [x ∈ [a; b; ...]], and proof of such a membership. *)
Ltac in_cases H :=
  repeat (apply elem_of_cons in H; destruct H as [H | H]);
  try (apply elem_of_nil in H; destruct H);
  try discriminate H; try (injection H as H; subst); try subst.
Ltac in_list := by repeat constructor.

Lemma close_events fd w : extends loop_event (trace w) (trace (OS.close fd w).2).
Proof. unfold OS.close, pop. simpl. ext_steps. Qed.

(** Whatever its outcome, [overwrite_file] logs first [stat], [open] and
    [malloc] events ([head]), then events of the passes ([tail]); the
    only allocation is that of the scratch buffer, made whenever the
    file has been opened. *)
Lemma overwrite_file_trace path passes final_zero verbose w :
  exists head tail,
    trace (overwrite_file path passes final_zero verbose w).2 = tail ++ head ++ trace w /\
    Forall (fun e => loop_event e = true) tail /\
    Forall (fun e => head_event e = true) head /\
    (exists ok, EvStat path ok ∈ head) /\
    (forall size ok, EvMalloc size ok ∈ head ->
       exists rp data, resolve MAXSYMLINKS (fs w) path = Some (rp, NReg data) /\
         size = bufsize_of (Z.of_nat (length data)) /\
         Z.of_nat (length data) <= OFF_MAX) /\
    (forall fd, 0 <= fd -> EvOpen path fd ∈ head ->
       exists size ok, EvMalloc size ok ∈ head).
Proof.
  unfold overwrite_file.
  destruct (OS.stat path w) as [st w1] eqn:Estat.
  apply stat_spec in Estat as [-> Hst].
  destruct st as [st|].
  2: { exists [EvStat path false], (if verbose then [EvStderr (MsgPerror "stat")] else []).
       cbn [snd]. rewrite vlog_trace.
       split; [done |]. split; [by destruct verbose; repeat constructor |].
       split; [by repeat constructor |].
       split; [exists false; in_list |].
       split; [intros sz ok Hin | intros fd Hfd Hin]; in_cases Hin. }
  destruct Hst as (rp & nd & Hres & Hnd).
  destruct (S_ISREG (st_mode st)) eqn:Ereg; cbn [negb].
  2: { exists ((if verbose then [EvStderr (MsgSkipNonRegular path)] else []) ++ [EvStat path true]), [].
       cbn [snd]. rewrite vlog_trace.
       split; [by rewrite <- app_assoc |]. split; [done |].
       split; [by destruct verbose; repeat constructor |].
       split; [exists true; destruct verbose; in_list |].
       split; [intros sz ok Hin | intros fd Hfd Hin]; destruct verbose; in_cases Hin. }
  destruct (node_stat_reg _ _ Hnd Ereg) as (data & -> & Hsize & Hmax).
  rewrite Hsize. set (size := Z.of_nat (length data)) in *.
  destruct (OS.open_wronly path _) as [fd w2] eqn:Eopen.
  apply open_wronly_spec in Eopen as (Htr2 & Hfs2 & Hopen2).
  destruct (fd <? 0) eqn:Efd.
  { exists [EvOpen path fd; EvStat path true], (if verbose then [EvStderr (MsgPerror "open")] else []).
    cbn [snd]. rewrite vlog_trace, Htr2.
    split; [done |]. split; [by destruct verbose; repeat constructor |].
    split; [by repeat constructor |].
    split; [exists true; in_list |].
    split; [intros sz ok Hin; in_cases Hin |].
    intros fd' Hfd' Hin. in_cases Hin. lia. }
  destruct (alloc_buf (bufsize_of size) w2) as [[buf|status] w3] eqn:Ealloc.
  2: { apply alloc_buf_spec in Ealloc as (_ & _ & _ & _ & Htr3).
       exists [EvStderr (MsgMallocFailed (bufsize_of size)); EvMalloc (bufsize_of size) false;
               EvOpen path fd; EvStat path true], [].
       cbn [snd]. rewrite Htr3, Htr2.
       split; [done |]. split; [done |]. split; [by repeat constructor |].
       split; [exists true; in_list |].
       split.
       - intros sz ok Hin. exists rp, data. in_cases Hin. done.
       - intros. exists (bufsize_of size), false. in_list. }
  apply alloc_buf_spec in Ealloc as (_ & _ & _ & -> & Htr3).
  exists [EvMalloc (bufsize_of size) true; EvOpen path fd; EvStat path true].
  assert (Hhead : trace w3 = [EvMalloc (bufsize_of size) true; EvOpen path fd; EvStat path true] ++ trace w).
  { by rewrite Htr3, Htr2. }
  assert (Hrest : forall w5, extends loop_event (trace w3) (trace w5) ->
    exists tail, trace w5 = tail ++ [EvMalloc (bufsize_of size) true; EvOpen path fd; EvStat path true] ++ trace w /\
      Forall (fun e => loop_event e = true) tail /\
      Forall (fun e => head_event e = true)
        [EvMalloc (bufsize_of size) true; EvOpen path fd; EvStat path true] /\
      (exists ok, EvStat path ok ∈ [EvMalloc (bufsize_of size) true; EvOpen path fd; EvStat path true]) /\
      (forall sz ok, EvMalloc sz ok ∈ [EvMalloc (bufsize_of size) true; EvOpen path fd; EvStat path true] ->
         exists rp data0, resolve MAXSYMLINKS (fs w) path = Some (rp, NReg data0) /\
           sz = bufsize_of (Z.of_nat (length data0)) /\ Z.of_nat (length data0) <= OFF_MAX) /\
      (forall fd0, 0 <= fd0 -> EvOpen path fd0 ∈ [EvMalloc (bufsize_of size) true; EvOpen path fd; EvStat path true] ->
         exists sz ok, EvMalloc sz ok ∈ [EvMalloc (bufsize_of size) true; EvOpen path fd; EvStat path true])).
  { intros w5 (tail & Htail & Hall). exists tail. rewrite Htail, Hhead.
    split; [done |]. split; [done |]. split; [by repeat constructor |].
    split; [exists true; in_list |].
    split.
    - intros sz ok Hin. exists rp, data. in_cases Hin. done.
    - intros. exists (bufsize_of size), true. in_list. }
  pose proof (pass_loop_events (Z.to_nat passes) 1 passes path verbose fd size
                (bufsize_of size) (replicate (Z.to_nat (bufsize_of size)) Junk) w3) as H4.
  destruct (pass_loop _ 1 passes path verbose fd size (bufsize_of size) _ w3)
    as [[buf1|] w4]; cbn [snd] in *; [| by apply Hrest].
  assert (Hfinish : forall w5, extends loop_event (trace w3) (trace w5) ->
    extends loop_event (trace w3)
      (trace (let '(r, w6) := OS.close fd w5 in
              (Return 0, if negb (r =? 0) then vlog verbose (MsgPerror "close") w6 else w6)).2)).
  { intros w5 H5. pose proof (close_events fd w5) as H6.
    destruct (OS.close fd w5) as [r w6]. cbn [snd] in *.
    destruct (negb (r =? 0)).
    - eapply extends_trans; [| by apply vlog_events]. by eapply extends_trans.
    - by eapply extends_trans. }
  destruct final_zero.
  - pose proof (zero_pass_events path verbose fd size (bufsize_of size) buf1 w4) as H5.
    destruct (zero_pass path verbose fd size (bufsize_of size) buf1 w4) as [[buf2|] w5];
      cbn [snd] in *.
    + apply Hrest. apply Hfinish. by eapply extends_trans.
    + apply Hrest. by eapply extends_trans.
  - apply Hrest. by apply Hfinish.
Qed.

Lemma overwrite_file_events path passes final_zero verbose w :
  extends file_event (trace w) (trace (overwrite_file path passes final_zero verbose w).2).
Proof.
  destruct (overwrite_file_trace path passes final_zero verbose w)
    as (head & tail & Htr & Htail & Hhead & _).
  exists (tail ++ head). split; [by rewrite <- app_assoc |].
  apply Forall_app. split.
  - eapply Forall_impl; [exact Htail |]. apply loop_event_file.
  - eapply Forall_impl; [exact Hhead |]. apply head_event_file.
Qed.

Definition world_C8 : world :=
  set_wr_tape [WrN 3]
    (set_rnd_tape [GrBytes bytes_seq]
       (world0 [("/tmp"%string, NDir);
                ("/tmp/a"%string, NReg [Orig Byte.xaa; Orig Byte.xaa; Orig Byte.xaa])])).

(** C2 (amended). For every path that [stat], which follows symbolic
    links, does not report as a regular file (a directory, device, FIFO
    or socket, a missing file, a dangling link, a link to one of these),
    [overwrite_file] returns failure having only called [stat]: nothing
    is opened, no file and no descriptor changes. *)
Theorem overwrite_rejects_non_regular path passes final_zero verbose w :
  (forall rp data, resolve MAXSYMLINKS (fs w) path <> Some (rp, NReg data)) ->
  let r := overwrite_file path passes final_zero verbose w in
  r.1 = Return (-1) /\ fs r.2 = fs w /\ fdt r.2 = fdt w /\
  exists ok msgs, trace r.2 = msgs ++ EvStat path ok :: trace w /\
    Forall (fun e => match e with EvStderr _ => true | _ => false end = true) msgs.
Proof.
  intros Hnon r. subst r. unfold overwrite_file.
  destruct (OS.stat path w) as [st w1] eqn:Estat.
  apply stat_spec in Estat as [-> Hst].
  destruct st as [st|].
  - destruct Hst as (rp & nd & Hres & Hnd).
    destruct (S_ISREG (st_mode st)) eqn:Ereg; cbn [negb].
    + destruct (node_stat_reg _ _ Hnd Ereg) as (data & -> & _). by destruct (Hnon rp data).
    + cbn [fst snd]. destruct verbose; simpl.
      * repeat split; try done. eexists _, [_]. split; [done |]. by repeat constructor.
      * repeat split; try done. by eexists _, [].
  - cbn [fst snd]. destruct verbose; simpl.
    + repeat split; try done. eexists _, [_]. split; [done |]. by repeat constructor.
    + repeat split; try done. by eexists _, [].
Qed.

Definition world_C2 : world :=
  set_wr_tape [WrN 2]
    (set_rnd_tape [GrBytes bytes_seq]
       (world0 [("/tmp"%string, NDir);
                ("/tmp/dir"%string, NDir);
                ("/tmp/link"%string, NLink "/tmp/target");
                ("/tmp/dirlink"%string, NLink "/tmp/dir");
                ("/tmp/rel"%string, NLink "target");
                ("/tmp/target"%string, NReg [Orig Byte.xaa; Orig Byte.xaa])])).

Lemma overwrite_rejects_non_regular_witness :
  let r := overwrite_file "/tmp/dirlink" 3 true true world_C2 in
  r.1 = Return (-1) /\ fs r.2 = fs world_C2 /\ fdt r.2 = fdt world_C2 /\
  exists ok msgs, trace r.2 = msgs ++ EvStat "/tmp/dirlink" ok :: trace world_C2 /\
    Forall (fun e => match e with EvStderr _ => true | _ => false end = true) msgs.
Proof.
  apply (overwrite_rejects_non_regular "/tmp/dirlink" 3 true true world_C2).
  intros rp data. vm_compute. discriminate.
Defined.

(** C2, as stated, fails for a symbolic link to a regular file:
    [/tmp/link] is a link, not a regular file, yet [overwrite_file]
    succeeds on it, having opened it and overwritten its referent. *)
Lemma overwrite_follows_symlink :
  let r := overwrite_file "/tmp/link" 1 false false world_C2 in
  fs world_C2 !! "/tmp/link"%string = Some (NLink "/tmp/target") /\
  fs world_C2 !! "/tmp/target"%string = Some (NReg [Orig Byte.xaa; Orig Byte.xaa]) /\
  r.1 = Return 0 /\
  EvOpen "/tmp/link" 3 ∈ trace r.2 /\
  fs r.2 !! "/tmp/target"%string = Some (NReg [Rnd Byte.x00; Rnd Byte.x01]).
Proof.
  repeat split; try (vm_compute; reflexivity).
  vm_compute. in_list.
Qed.

(** A relative link is followed from its own directory: [/tmp/rel] holds
    [target], and the write goes to [/tmp/target]. *)
Lemma overwrite_follows_relative_link :
  let r := overwrite_file "/tmp/rel" 1 false false world_C2 in
  fs world_C2 !! "/tmp/rel"%string = Some (NLink "target") /\
  r.1 = Return 0 /\
  fs r.2 !! "/tmp/target"%string = Some (NReg [Rnd Byte.x00; Rnd Byte.x01]).
Proof. repeat split; vm_compute; reflexivity. Qed.

Lemma closing_event_not_covers rp off e : closing_event e = true -> covers rp off e = false.
Proof. by destruct e. Qed.

Lemma covers_with_covers P rp off e : covers_with P rp off e = true -> covers rp off e = true.
Proof. destruct e; try done. simpl. by intros [-> _]%andb_true_iff. Qed.

Lemma count_covers_with_none P rp off evs :
  count (covers rp off) evs = 0%nat -> count (covers_with P rp off) evs = 0%nat.
Proof.
  induction evs as [|e evs IH]; simpl; [done |].
  destruct (covers rp off e) eqn:E; [lia |]. intros H.
  destruct (covers_with P rp off e) eqn:E'.
  - apply covers_with_covers in E'. congruence.
  - by apply IH.
Qed.

Lemma pass_event_not_memset P rp size e :
  pass_event P true rp size e = true -> is_memset e = false.
Proof. by destruct e. Qed.

(** C4. When [overwrite_file] succeeds on a regular file with [N >= 1]
    passes, every byte offset of the file has been written exactly [N]
    times with random data, and exactly once more with zero bytes when
    the final zero pass is asked for, and by no other write; the buffer
    is cleared ([memset]) once for the zero pass and never otherwise. *)
Theorem overwrite_covers_every_byte path passes final_zero verbose w w' rp data :
  resolve MAXSYMLINKS (fs w) path = Some (rp, NReg data) ->
  1 <= passes ->
  overwrite_file path passes final_zero verbose w = (Return 0, w') ->
  exists evs, trace w' = evs ++ trace w /\
    (forall off, 0 <= off < Z.of_nat (length data) ->
       Z.of_nat (count (covers_with is_rnd rp off) evs) = passes /\
       count (covers_with is_zero rp off) evs = (if final_zero then 1 else 0)%nat /\
       Z.of_nat (count (covers rp off) evs) = passes + (if final_zero then 1 else 0)) /\
    count is_memset evs = (if final_zero then 1 else 0)%nat.
Proof.
  intros Hres Hn Hrun.
  apply overwrite_file_ok in Hrun
    as (rp' & data' & Hres' & Hmax & _ & fd & evs_r & evs_z & evs_c & Htr & Hall_r & _ & Hcov_r
        & Hall_z & _ & Hm_z & Hcov_z & Hall_c).
  rewrite Hres in Hres'. injection Hres' as <- <-.
  eexists. split; [rewrite Htr; by rewrite !app_assoc |]. split.
  - intros off Hoff.
    assert (Hin : (0 <=? off) && (off <? Z.of_nat (length data)) = true).
    { apply andb_true_intro. split; [apply Z.leb_le | apply Z.ltb_lt]; lia. }
    specialize (Hcov_r off). specialize (Hcov_z off). rewrite Hin in Hcov_r, Hcov_z.
    simpl in Hcov_z.
    assert (Hc : forall P, count (covers_with P rp off) evs_c = 0%nat).
    { intros P. apply count_covers_with_none.
      apply (count_none _ _ _ Hall_c), closing_event_not_covers. }
    rewrite !count_app. simpl.
    rewrite !Hc, (count_none _ _ _ Hall_c (closing_event_not_covers rp off)).
    rewrite (count_covers_with_same _ _ _ _ _ _ Hall_r), Hcov_r.
    rewrite (count_covers_with_other is_rnd is_zero _ _ _ _ _ ltac:(by intros []) Hall_r).
    rewrite (count_covers_with_same _ _ _ _ _ _ Hall_z), Hcov_z.
    rewrite (count_covers_with_other is_zero is_rnd _ _ _ _ _ ltac:(by intros []) Hall_z).
    destruct final_zero; repeat split; lia.
  - rewrite !count_app. simpl. rewrite Hm_z.
    rewrite (count_none _ _ _ Hall_c) by (by intros []).
    rewrite (count_none _ _ _ Hall_r (pass_event_not_memset _ _ _)). lia.
Qed.

Definition world_C4 : world :=
  set_wr_tape [WrN 2; WrEintr; WrN 5; WrN 1; WrN 2; WrN 3]
    (set_rnd_tape (replicate 6 (GrBytes bytes_seq))
       (world0 [("/tmp"%string, NDir);
                ("/tmp/a"%string, NReg [Orig Byte.xaa; Orig Byte.xaa; Orig Byte.xaa])])).

Lemma overwrite_covers_every_byte_witness :
  exists evs,
    trace (overwrite_file "/tmp/a" 2 true false world_C4).2 = evs ++ trace world_C4 /\
    (forall off, 0 <= off < Z.of_nat (length [Orig Byte.xaa; Orig Byte.xaa; Orig Byte.xaa]) ->
       Z.of_nat (count (covers_with is_rnd "/tmp/a" off) evs) = 2 /\
       count (covers_with is_zero "/tmp/a" off) evs = (if true then 1 else 0)%nat /\
       Z.of_nat (count (covers "/tmp/a" off) evs) = 2 + (if true then 1 else 0)) /\
    count is_memset evs = (if true then 1 else 0)%nat.
Proof.
  apply (overwrite_covers_every_byte "/tmp/a" 2 true false world_C4
           (overwrite_file "/tmp/a" 2 true false world_C4).2 "/tmp/a"
           [Orig Byte.xaa; Orig Byte.xaa; Orig Byte.xaa]).
  - vm_compute. reflexivity.
  - lia.
  - vm_compute. reflexivity.
Defined.

(** C10. When [overwrite_file] succeeds on a regular file, the file
    still has its original length: every write lies inside the original
    extent, and the writes cover exactly the offsets from 0 to the
    length, each as many times as there are passes. *)
Theorem overwrite_keeps_length path passes final_zero verbose w w' rp data :
  resolve MAXSYMLINKS (fs w) path = Some (rp, NReg data) ->
  overwrite_file path passes final_zero verbose w = (Return 0, w') ->
  (exists data', fs w' !! rp = Some (NReg data') /\ length data' = length data) /\
  exists evs, trace w' = evs ++ trace w /\
    (forall fd f pos d, EvWrite fd f pos d ∈ evs ->
       f = rp /\ 0 <= pos /\ pos + Z.of_nat (length d) <= Z.of_nat (length data)) /\
    (forall off, count (covers rp off) evs
       = if (0 <=? off) && (off <? Z.of_nat (length data))
         then (Z.to_nat passes + (if final_zero then 1 else 0))%nat else 0%nat).
Proof.
  intros Hres Hrun.
  apply overwrite_file_ok in Hrun
    as (rp' & data' & Hres' & Hmax & Hlen & fd & evs_r & evs_z & evs_c & Htr & Hall_r & _ & Hcov_r
        & Hall_z & _ & _ & Hcov_z & Hall_c).
  rewrite Hres in Hres'. injection Hres' as <- <-.
  split; [done |].
  eexists. split; [rewrite Htr; by rewrite !app_assoc |]. split.
  - assert (Hpass : forall P rnd e fd0 f pos d,
        pass_event P rnd rp (Z.of_nat (length data)) e = true -> e = EvWrite fd0 f pos d ->
        f = rp /\ 0 <= pos /\ pos + Z.of_nat (length d) <= Z.of_nat (length data)).
    { intros P rnd e fd0 f pos d He ->. unfold pass_event in He. simpl in He.
      rewrite orb_false_r in He.
      apply andb_true_iff in He as [He _]. apply andb_true_iff in He as [He H3].
      apply andb_true_iff in He as [H1 H2]. apply bool_decide_eq_true in H1.
      split; [done |]. lia. }
    intros fd0 f pos d Hin. rewrite !elem_of_app in Hin.
    rewrite Forall_forall in Hall_r, Hall_z, Hall_c.
    destruct Hin as [[[Hin | Hin] | Hin] | Hin].
    + by apply Hall_c in Hin.
    + eapply Hpass; [by apply Hall_z |]. done.
    + eapply Hpass; [by apply Hall_r |]. done.
    + in_cases Hin.
  - intros off. rewrite !count_app. simpl.
    rewrite (count_none _ _ _ Hall_c (closing_event_not_covers rp off)).
    rewrite Hcov_r, Hcov_z.
    destruct ((0 <=? off) && (off <? Z.of_nat (length data))), final_zero; simpl; lia.
Qed.

Lemma overwrite_keeps_length_witness :
  let w' := (overwrite_file "/tmp/a" 2 true false world_C4).2 in
  (exists data', fs w' !! "/tmp/a"%string = Some (NReg data') /\
     length data' = length [Orig Byte.xaa; Orig Byte.xaa; Orig Byte.xaa]) /\
  exists evs, trace w' = evs ++ trace world_C4 /\
    (forall fd f pos d, EvWrite fd f pos d ∈ evs ->
       f = "/tmp/a"%string /\ 0 <= pos /\
       pos + Z.of_nat (length d)
       <= Z.of_nat (length [Orig Byte.xaa; Orig Byte.xaa; Orig Byte.xaa])) /\
    (forall off, count (covers "/tmp/a" off) evs
       = if (0 <=? off) && (off <? Z.of_nat (length [Orig Byte.xaa; Orig Byte.xaa; Orig Byte.xaa]))
         then (Z.to_nat 2 + (if true then 1 else 0))%nat else 0%nat).
Proof.
  apply (overwrite_keeps_length "/tmp/a" 2 true false world_C4
           (overwrite_file "/tmp/a" 2 true false world_C4).2 "/tmp/a"
           [Orig Byte.xaa; Orig Byte.xaa; Orig Byte.xaa]).
  - vm_compute. reflexivity.
  - vm_compute. reflexivity.
Defined.

(** ** Empty files *)

Lemma random_write_loop_done tape verbose fd size bufsize buf wt w :
  size <= wt ->
  random_write_loop tape verbose fd size bufsize buf wt w = (Some buf, w).
Proof.
  intros H. destruct tape; cbn [random_write_loop];
    destruct (wt <? size) eqn:E; try done; lia.
Qed.

Lemma zero_write_loop_done tape verbose fd size bufsize buf wt w :
  size <= wt ->
  zero_write_loop tape verbose fd size bufsize buf wt w = (Some buf, w).
Proof.
  intros H. destruct tape; cbn [zero_write_loop];
    destruct (wt <? size) eqn:E; try done; lia.
Qed.

(** Calls of kind [k] succeed from now on. *)
Definition succeeds (k : sys) (w : world) : Prop :=
  Forall (fun b => b = true) (plan w k).

(** What a run on an empty file may log: no write, no random bytes. *)
Definition empty_file_event (e : event) : bool :=
  match e with
  | EvStat _ true | EvOpen _ _ | EvMalloc _ true | EvLseek _ true
  | EvFdatasync _ _ | EvFsync _ _ | EvMemset _ | EvClose _ | EvStderr _ => true
  | _ => false
  end.

Lemma checkpoint_frame v fd w :
  rnd_tape (checkpoint v fd w) = rnd_tape w /\
  dev_tape (checkpoint v fd w) = dev_tape w /\
  wr_tape (checkpoint v fd w) = wr_tape w /\
  forall k, k <> SFdatasync -> k <> SFsync -> plan (checkpoint v fd w) k = plan w k.
Proof.
  unfold checkpoint, sync_and_check, OS.fdatasync, OS.fsync, pop. cbn [fst snd].
  destruct (hd true (plan w SFdatasync)); simpl.
  - repeat split; try done. intros k H1 H2. by destruct (decide (k = SFdatasync)).
  - match goal with |- context [if ?b then _ else _] => destruct b end; simpl.
    + repeat split; try done. intros k H1 H2.
      destruct (decide (k = SFsync)); [done |]. by destruct (decide (k = SFdatasync)).
    + destruct v; simpl; repeat split; try done; intros k H1 H2;
        (destruct (decide (k = SFsync)); [done |]); by destruct (decide (k = SFdatasync)).
Qed.

Lemma lseek0_succeeds fd w rp pos :
  fdt w !! fd = Some (OFile rp pos) -> succeeds SLseek w ->
  exists w1, OS.lseek0 fd w = (0, w1) /\
    fdt w1 !! fd = Some (OFile rp 0) /\ succeeds SLseek w1 /\
    fs w1 = fs w /\ rnd_tape w1 = rnd_tape w /\ dev_tape w1 = dev_tape w /\
    wr_tape w1 = wr_tape w /\ plan w1 SClose = plan w SClose /\
    trace w1 = EvLseek fd true :: trace w.
Proof.
  intros Hfd Hok. unfold OS.lseek0, pop. cbn [fst snd].
  assert (Hhd : hd true (plan w SLseek) = true).
  { unfold succeeds in Hok. destruct (plan w SLseek); [done |]. by inversion Hok. }
  rewrite Hhd. simpl. rewrite Hfd. eexists. split; [done |]. simpl.
  rewrite lookup_insert_eq. repeat split; try done.
  unfold succeeds in *. simpl. destruct (plan w SLseek); [done |]. by inversion Hok.
Qed.

Lemma pass_loop_empty n : forall pass passes path verbose fd bufsize buf w rp pos,
  fdt w !! fd = Some (OFile rp pos) -> succeeds SLseek w ->
  exists w', pass_loop n pass passes path verbose fd 0 bufsize buf w = (Some buf, w') /\
    (exists pos', fdt w' !! fd = Some (OFile rp pos')) /\ succeeds SLseek w' /\
    fs w' = fs w /\ rnd_tape w' = rnd_tape w /\ dev_tape w' = dev_tape w /\
    wr_tape w' = wr_tape w /\
    exists evs, trace w' = evs ++ trace w /\
      Forall (fun e => empty_file_event e = true) evs /\
      count is_fdatasync evs = n.
Proof.
  induction n as [|n IH]; intros pass passes path verbose fd bufsize buf w rp pos Hfd Hok;
    cbn [pass_loop].
  - exists w. repeat split; try done; [eauto |]. by exists [].
  - destruct (lseek0_succeeds fd (vlog verbose (MsgPass pass passes path) w) rp pos)
      as (w1 & -> & Hfd1 & Hok1 & Hfs1 & Hr1 & Hd1 & Hw1 & _ & Htr1);
      [by destruct verbose | by destruct verbose |].
    change (0 =? -1) with false. cbv iota.
    rewrite random_write_loop_done by lia.
    destruct (checkpoint_spec verbose fd w1) as (ev3 & Hev3 & Hn3 & Hall3 & Hfs3 & Hfdt3 & _).
    destruct (checkpoint_frame verbose fd w1) as (Hr3 & Hd3 & Hw3 & Hpl3).
    destruct (IH (pass + 1) passes path verbose fd bufsize buf (checkpoint verbose fd w1) rp 0)
      as (w' & -> & Hfd' & Hok' & Hfs' & Hr' & Hd' & Hw' & evs & Hevs & Hall & Hn).
    { by rewrite Hfdt3. }
    { unfold succeeds. by rewrite Hpl3. }
    exists w'. split; [done |]. split; [done |]. split; [done |].
    split; [rewrite Hfs', Hfs3, Hfs1; by destruct verbose |].
    split; [rewrite Hr', Hr3, Hr1; by destruct verbose |].
    split; [rewrite Hd', Hd3, Hd1; by destruct verbose |].
    split; [rewrite Hw', Hw3, Hw1; by destruct verbose |].
    exists (evs ++ ev3 ++ EvLseek fd true ::
              (if verbose then [EvStderr (MsgPass pass passes path)] else [])).
    split; [| split].
    + rewrite Hevs, Hev3, Htr1, vlog_trace. by rewrite <- !app_assoc.
    + apply Forall_app. split; [done |]. apply Forall_app. split.
      { eapply Forall_impl; [exact Hall3 |]. intros e He.
        destruct e as [| | | | | | | | | | | | | | | |[]]; done. }
      constructor; [done |]. destruct verbose; by repeat constructor.
    + rewrite !count_app, Hn, Hn3. destruct verbose; simpl; lia.
Qed.

Lemma zero_pass_empty path verbose fd bufsize buf w rp pos :
  fdt w !! fd = Some (OFile rp pos) -> succeeds SLseek w ->
  exists buf' w', zero_pass path verbose fd 0 bufsize buf w = (Some buf', w') /\
    fs w' = fs w /\ rnd_tape w' = rnd_tape w /\ dev_tape w' = dev_tape w /\
    wr_tape w' = wr_tape w /\
    exists evs, trace w' = evs ++ trace w /\
      Forall (fun e => empty_file_event e = true) evs /\
      count is_fdatasync evs = 1%nat.
Proof.
  intros Hfd Hok. unfold zero_pass.
  destruct (lseek0_succeeds fd (vlog verbose (MsgFinalZero path) w) rp pos)
    as (w1 & -> & Hfd1 & Hok1 & Hfs1 & Hr1 & Hd1 & Hw1 & _ & Htr1);
    [by destruct verbose | by destruct verbose |].
  change (0 =? -1) with false. cbv iota.
  rewrite zero_write_loop_done by lia.
  destruct (checkpoint_spec verbose fd (log (EvMemset bufsize) w1))
    as (ev3 & Hev3 & Hn3 & Hall3 & Hfs3 & Hfdt3 & _).
  destruct (checkpoint_frame verbose fd (log (EvMemset bufsize) w1)) as (Hr3 & Hd3 & Hw3 & Hpl3).
  eexists _, _. split; [done |].
  split; [rewrite Hfs3; simpl; rewrite Hfs1; by destruct verbose |].
  split; [rewrite Hr3; simpl; rewrite Hr1; by destruct verbose |].
  split; [rewrite Hd3; simpl; rewrite Hd1; by destruct verbose |].
  split; [rewrite Hw3; simpl; rewrite Hw1; by destruct verbose |].
  exists (ev3 ++ EvMemset bufsize :: EvLseek fd true ::
            (if verbose then [EvStderr (MsgFinalZero path)] else [])).
  split; [| split].
  - rewrite Hev3. simpl. rewrite Htr1, vlog_trace. by rewrite <- !app_assoc.
  - apply Forall_app. split.
    { eapply Forall_impl; [exact Hall3 |]. intros e He.
      destruct e as [| | | | | | | | | | | | | | | |[]]; done. }
    constructor; [done |]. constructor; [done |]. destruct verbose; by repeat constructor.
  - rewrite !count_app, Hn3. destruct verbose; simpl; lia.
Qed.

Lemma succeeds_hd k w : succeeds k w -> hd true (plan w k) = true.
Proof. unfold succeeds. destruct (plan w k); [done |]. by inversion 1. Qed.

(** X2. On a zero-length regular file, with [N >= 1] passes, if the
    file opens, the buffer is allocated and the seeks succeed, then
    [overwrite_file] succeeds; it performs no write and asks for no
    random byte (none of the scripted answers of [getrandom], [read] or
    [write] is consumed, no such event is logged), and it issues exactly
    [N] durability checkpoints, plus one with the final zero pass. *)
Theorem overwrite_empty_file path passes final_zero verbose w rp :
  resolve MAXSYMLINKS (fs w) path = Some (rp, NReg []) ->
  1 <= passes ->
  succeeds SOpen w -> succeeds SMalloc w -> succeeds SLseek w -> 0 <= next_fd w ->
  exists w', overwrite_file path passes final_zero verbose w = (Return 0, w') /\
    rnd_tape w' = rnd_tape w /\ dev_tape w' = dev_tape w /\ wr_tape w' = wr_tape w /\
    fs w' = fs w /\
    exists evs, trace w' = evs ++ trace w /\
      Forall (fun e => empty_file_event e = true) evs /\
      Z.of_nat (count is_fdatasync evs) = passes + (if final_zero then 1 else 0).
Proof.
  intros Hres Hn Hopen Hmalloc Hseek Hfd.
  unfold overwrite_file, OS.stat. rewrite Hres.
  change (node_stat (NReg [])) with (Some (Stat S_IFREG 0)). cbn [st_mode st_size S_ISREG negb].
  unfold OS.open_wronly, OS.alloc_fd, pop. cbn [fst snd].
  cbn [fs log set_plan]. rewrite Hres.
  cbn [plan log]. rewrite (succeeds_hd _ _ Hopen). cbn [next_fd log set_plan fdt].
  destruct (next_fd w <? 0) eqn:Efd; [lia |].
  change (bufsize_of 0) with CHUNK.
  unfold alloc_buf, OS.malloc, pop. cbn [fst snd]. simpl plan.
  rewrite (succeeds_hd _ _ Hmalloc).
  match goal with |- context [pass_loop ?n ?p ?ps ?pa ?v ?f 0 ?bs ?b ?w0] =>
    destruct (pass_loop_empty n p ps pa v f bs b w0 rp 0)
      as (w4 & -> & (pos4 & Hfd4) & Hok4 & Hfs4 & Hr4 & Hd4 & Hw4 & evs_r & Hev4 & Hall4 & Hn4)
  end.
  { simpl. by rewrite lookup_insert_eq. }
  { unfold succeeds in *. simpl. done. }
  simpl in Hfs4, Hr4, Hd4, Hw4, Hev4.
  assert (Hfinish : forall w5 evs_z,
    fs w5 = fs w -> rnd_tape w5 = rnd_tape w -> dev_tape w5 = dev_tape w ->
    wr_tape w5 = wr_tape w -> trace w5 = evs_z ++ trace w4 ->
    Forall (fun e => empty_file_event e = true) evs_z ->
    exists w', (let '(r, w6) := OS.close (next_fd w) w5 in
                (Return 0, if negb (r =? 0) then vlog verbose (MsgPerror "close") w6 else w6))
               = (Return 0, w') /\
      rnd_tape w' = rnd_tape w /\ dev_tape w' = dev_tape w /\ wr_tape w' = wr_tape w /\
      fs w' = fs w /\
      exists evs, trace w' = evs ++ trace w /\
        Forall (fun e => empty_file_event e = true) evs /\
        count is_fdatasync evs = (count is_fdatasync evs_z + Z.to_nat passes)%nat).
  { intros w5 evs_z Hfs5 Hr5 Hd5 Hw5 Hev5 Hall5.
    unfold OS.close, pop. cbn [fst snd].
    set (tail := evs_z ++ evs_r ++
           [EvMalloc CHUNK true; EvOpen path (next_fd w); EvStat path true]).
    assert (Htail : trace w5 = tail ++ trace w).
    { unfold tail. rewrite Hev5, Hev4. by rewrite <- !app_assoc. }
    assert (Hall : Forall (fun e => empty_file_event e = true) tail).
    { unfold tail. apply Forall_app. split; [done |]. apply Forall_app. split; [done |].
      by repeat constructor. }
    assert (Hcnt : count is_fdatasync tail = (count is_fdatasync evs_z + Z.to_nat passes)%nat).
    { unfold tail. rewrite !count_app, Hn4. simpl. lia. }
    destruct (hd true (plan w5 SClose)); simpl.
    - eexists. split; [done |]. simpl. repeat split; try done.
      exists (EvClose (next_fd w) :: tail). simpl. rewrite Htail.
      split; [done |]. split; [by constructor | done].
    - destruct verbose; simpl.
      + eexists. split; [done |]. simpl. repeat split; try done.
        exists (EvStderr (MsgPerror "close") :: EvClose (next_fd w) :: tail). simpl. rewrite Htail.
        split; [done |]. split; [by repeat constructor | done].
      + eexists. split; [done |]. simpl. repeat split; try done.
        exists (EvClose (next_fd w) :: tail). simpl. rewrite Htail.
        split; [done |]. split; [by constructor | done]. }
  destruct final_zero.
  - destruct (zero_pass_empty path verbose (next_fd w) CHUNK
                (replicate (Z.to_nat CHUNK) Junk) w4 rp pos4)
      as (buf5 & w5 & -> & Hfs5 & Hr5 & Hd5 & Hw5 & evs_z & Hev5 & Hall5 & Hn5); [done | done |].
    destruct (Hfinish w5 evs_z) as (w' & -> & ? & ? & ? & ? & evs & ? & ? & Hc); try congruence.
    exists w'. repeat split; try done. exists evs. repeat split; try done. lia.
  - destruct (Hfinish w4 []) as (w' & -> & ? & ? & ? & ? & evs & ? & ? & Hc); try done.
    exists w'. repeat split; try done. exists evs. repeat split; try done. simpl in Hc. lia.
Qed.

Definition world_C9 : world :=
  set_plan (fun k => match k with SFdatasync => [false; true] | SFsync => [false] | _ => [] end)
    (world0 [("/tmp"%string, NDir);
                ("/tmp/empty"%string, NReg [])]).

Lemma overwrite_empty_file_witness :
  exists w', overwrite_file "/tmp/empty" 2 true true world_C9 = (Return 0, w') /\
    rnd_tape w' = rnd_tape world_C9 /\ dev_tape w' = dev_tape world_C9 /\
    wr_tape w' = wr_tape world_C9 /\ fs w' = fs world_C9 /\
    exists evs, trace w' = evs ++ trace world_C9 /\
      Forall (fun e => empty_file_event e = true) evs /\
      Z.of_nat (count is_fdatasync evs) = 2 + (if true then 1 else 0).
Proof.
  apply (overwrite_empty_file "/tmp/empty" 2 true true world_C9 "/tmp/empty").
  - vm_compute. reflexivity.
  - lia.
  - constructor.
  - constructor.
  - constructor.
  - simpl. lia.
Defined.

(** ** Renaming and unlinking *)

(** Events of [random_filename_in_dir]. *)
Definition name_event (e : event) : bool :=
  random_event e || match e with EvMalloc _ _ => true | _ => false end.

Lemma random_filename_frame path w :
  fs (random_filename_in_dir path w).2 = fs w /\
  extends name_event (trace w) (trace (random_filename_in_dir path w).2).
Proof.
  unfold random_filename_in_dir, OS.malloc, pop. cbn [fst snd].
  destruct (hd true (plan w SMalloc)); cbn [negb].
  2: { simpl. split; [done |]. by apply extends_cons; [| apply extends_refl]. }
  match goal with |- context [fill_random ?b ?l ?w0] =>
    destruct (fill_random b l w0) as [[r rnd] w1] eqn:E1 end.
  apply fill_random_frame in E1 as (_ & Hfs1 & _ & _ & _ & _ & Hext1);
    [| rewrite length_replicate; lia | done].
  simpl in Hfs1, Hext1.
  assert (Hext : extends name_event (trace w) (trace w1)).
  { eapply extends_step; [| eapply extends_weaken; [| exact Hext1]]; [done |].
    intros e He. unfold name_event. by rewrite He. }
  destruct (negb (r =? to_ssize_t 16)); [done |].
  destruct (hd true (plan w1 SMalloc)); simpl; (split; [done |]); by apply extends_cons.
Qed.

Lemma name_event_not_unlink e p ok : name_event e = true -> e <> EvUnlink p ok.
Proof. by destruct e. Qed.

Lemma name_event_not_rename e a b ok : name_event e = true -> e <> EvRename a b ok.
Proof. by destruct e. Qed.

(** The fallback of [main]: [unlink] of the original path. *)
Lemma unlink_original_spec path verbose st w :
  exists ok msgs,
    trace (unlink_original path verbose st w).2 = msgs ++ EvUnlink path ok :: trace w /\
    Forall (fun e => match e with EvStderr _ => true | _ => false end = true) msgs /\
    (unlink_original path verbose st w).1 = (if ok then st else 2) /\
    fs (unlink_original path verbose st w).2 = (if ok then delete path (fs w) else fs w).
Proof.
  unfold unlink_original, OS.unlink, pop. cbn [fst snd].
  destruct (hd true (plan w SUnlink)); cbn [fs set_plan].
  - destruct (fs w !! path) as [[]|]; simpl; destruct verbose; simpl;
      first [ by (exists true; eexists [_]; repeat split; repeat constructor)
            | by (exists true, []; repeat split)
            | by (exists false; eexists [_]; repeat split; repeat constructor)
            | by (exists false, []; repeat split) ].
  - simpl. destruct verbose; simpl;
      first [ by (exists false; eexists [_]; repeat split; repeat constructor)
            | by (exists false, []; repeat split) ].
Qed.

(** Events of [sync_dir]. *)
Definition dir_event (e : event) : bool :=
  match e with
  | EvMalloc _ _ | EvOpenDir _ _ | EvFsync _ _ | EvClose _ | EvStderr (MsgPerror _) => true
  | _ => false
  end.

Lemma sync_dir_frame newname verbose w :
  fs (sync_dir newname verbose w) = fs w /\
  plan (sync_dir newname verbose w) SUnlink = plan w SUnlink /\
  extends dir_event (trace w) (trace (sync_dir newname verbose w)).
Proof.
  unfold sync_dir, OS.malloc, OS.open_dir, OS.alloc_fd, OS.fsync, OS.close, pop.
  cbn [fst snd].
  repeat (case_match; simplify_eq; cbn [fst snd] in *); destruct verbose; simpl;
    (split; [done |]; split; [done |]; ext_steps).
Qed.

Lemma rename_spec old new w r w1 :
  OS.rename old new w = (r, w1) ->
  plan w1 SUnlink = plan w SUnlink /\
  (r = 0 /\ trace w1 = EvRename old new true :: trace w /\
     exists n, fs w !! old = Some n /\ fs w1 = <[new := n]> (delete old (fs w))) \/
  (r = -1 /\ trace w1 = EvRename old new false :: trace w /\ fs w1 = fs w).
Proof.
  unfold OS.rename, pop. cbn [fst snd].
  destruct (hd true (plan w SRename)); cbn [fs set_plan].
  - destruct (fs w !! old) as [n|] eqn:E; intros [= <- <-]; simpl.
    + left. split; [done |]. repeat split. by exists n.
    + by right.
  - destruct (fs w !! old); intros [= <- <-]; by right.
Qed.

Lemma unlink_spec path w r w1 :
  OS.unlink path w = (r, w1) ->
  (r = 0 /\ trace w1 = EvUnlink path true :: trace w /\ fs w1 = delete path (fs w)) \/
  (r = -1 /\ trace w1 = EvUnlink path false :: trace w /\ fs w1 = fs w).
Proof.
  unfold OS.unlink, pop. cbn [fst snd].
  destruct (hd true (plan w SUnlink)); cbn [fs set_plan].
  - destruct (fs w !! path) as [[]|]; intros [= <- <-]; simpl; (by left) || (by right).
  - destruct (fs w !! path) as [[]|]; intros [= <- <-]; by right.
Qed.




(** ** The exit status *)

(** The two events after which [main] sets [exit_status = 2]. *)
Definition failure_event (e : event) : bool :=
  match e with
  | EvStderr (MsgFailedOverwrite _) | EvUnlink _ false => true
  | _ => false
  end.

Lemma file_event_not_failure e : file_event e = true -> failure_event e = false.
Proof. by destruct e as [| | | | | | | | | | | | | | | |[]]. Qed.

Lemma name_event_not_failure e : name_event e = true -> failure_event e = false.
Proof. by destruct e as [| | | | | | | | | | | | | | | |[]]. Qed.

Lemma dir_event_not_failure e : dir_event e = true -> failure_event e = false.
Proof. by destruct e as [| | | | | | | | | | | | | | | |[]]. Qed.

Lemma unlink_original_status path verbose st w :
  exists evs, trace (unlink_original path verbose st w).2 = evs ++ trace w /\
    ((unlink_original path verbose st w).1 = st /\ count failure_event evs = 0%nat \/
     (unlink_original path verbose st w).1 = 2 /\ count failure_event evs = 1%nat).
Proof.
  destruct (OS.unlink path w) as [r w1] eqn:E.
  unfold unlink_original. rewrite E.
  apply unlink_spec in E as [(-> & Htr & _) | (-> & Htr & _)].
  - change (negb (0 =? 0)) with false. cbv iota. cbn [fst snd].
    exists ((if verbose then [EvStderr (MsgUnlinked path)] else []) ++ [EvUnlink path true]).
    split; [rewrite vlog_trace, Htr; by rewrite <- app_assoc |].
    left. split; [done |]. by destruct verbose.
  - change (negb (-1 =? 0)) with true. cbv iota. cbn [fst snd].
    exists ((if verbose then [EvStderr (MsgPerror "unlink")] else []) ++ [EvUnlink path false]).
    split; [rewrite vlog_trace, Htr; by rewrite <- app_assoc |].
    right. split; [done |]. by destruct verbose.
Qed.

(** [obfuscate_and_remove] keeps the exit status when it logs no
    failure, and makes it 2 otherwise. *)
Lemma obfuscate_and_remove_status path verbose st w :
  exists evs, trace (obfuscate_and_remove path verbose st w).2 = evs ++ trace w /\
    ((obfuscate_and_remove path verbose st w).1 = st /\ count failure_event evs = 0%nat \/
     (obfuscate_and_remove path verbose st w).1 = 2 /\ count failure_event evs <> 0%nat).
Proof.
  unfold obfuscate_and_remove.
  destruct (random_filename_frame path w) as (_ & ev1 & Hev1 & Hall1).
  destruct (random_filename_in_dir path w) as [newname w1]. cbn [snd] in *.
  assert (Hc1 : count failure_event ev1 = 0%nat).
  { apply (count_none _ _ _ Hall1), name_event_not_failure. }
  assert (Hfallback : forall w2 ev2,
    trace w2 = ev2 ++ trace w1 -> count failure_event ev2 = 0%nat ->
    exists evs, trace (unlink_original path verbose st w2).2 = evs ++ trace w /\
      ((unlink_original path verbose st w2).1 = st /\ count failure_event evs = 0%nat \/
       (unlink_original path verbose st w2).1 = 2 /\ count failure_event evs <> 0%nat)).
  { intros w2 ev2 Hev2 Hc2.
    destruct (unlink_original_status path verbose st w2) as (ev3 & Hev3 & Hst).
    exists (ev3 ++ ev2 ++ ev1). split; [rewrite Hev3, Hev2, Hev1; by rewrite <- !app_assoc |].
    rewrite !count_app, Hc2, Hc1. destruct Hst as [[-> ->] | [-> ->]]; [by left | right].
    split; [done | lia]. }
  destruct newname as [newname|]; [| by apply (Hfallback w1 [])].
  destruct (OS.rename path newname w1) as [r w2] eqn:Eren.
  apply rename_spec in Eren as [(_ & -> & Htr2 & _) | (-> & Htr2 & _)].
  2: { change (negb (-1 =? 0)) with true. cbv iota.
       apply (Hfallback _ ((if verbose then [EvStderr (MsgPerror "rename")] else []) ++
                           [EvRename path newname false])).
       - rewrite vlog_trace, Htr2. by rewrite <- app_assoc.
       - by destruct verbose. }
  change (negb (0 =? 0)) with false. cbv iota.
  set (w3 := vlog verbose (MsgRenamed path newname) w2).
  destruct (sync_dir_frame newname verbose w3) as (_ & _ & ev4 & Hev4 & Hall4).
  assert (Hc4 : count failure_event ev4 = 0%nat).
  { apply (count_none _ _ _ Hall4), dir_event_not_failure. }
  assert (Htr4 : trace (sync_dir newname verbose w3)
                 = (ev4 ++ (if verbose then [EvStderr (MsgRenamed path newname)] else []) ++
                    [EvRename path newname true] ++ ev1) ++ trace w).
  { rewrite Hev4. unfold w3. rewrite vlog_trace, Htr2, Hev1. by rewrite <- !app_assoc. }
  assert (Hc : count failure_event
                 (ev4 ++ (if verbose then [EvStderr (MsgRenamed path newname)] else []) ++
                  [EvRename path newname true] ++ ev1) = 0%nat).
  { rewrite !count_app, Hc4, Hc1. by destruct verbose. }
  destruct (OS.unlink newname (sync_dir newname verbose w3)) as [r w5] eqn:Eun.
  apply unlink_spec in Eun as [(-> & Htr5 & _) | (-> & Htr5 & _)].
  - change (negb (0 =? 0)) with false. cbv iota. cbn [fst snd].
    exists ((if verbose then [EvStderr (MsgUnlinked newname)] else []) ++
            EvUnlink newname true ::
              (ev4 ++ (if verbose then [EvStderr (MsgRenamed path newname)] else []) ++
               [EvRename path newname true] ++ ev1)).
    split; [rewrite vlog_trace, Htr5, Htr4; exact (app_assoc _ (_ :: _) _) |].
    left. split; [done |]. rewrite count_app. cbn [count]. rewrite Hc. by destruct verbose.
  - change (negb (-1 =? 0)) with true. cbv iota. cbn [fst snd].
    exists ((if verbose then [EvStderr (MsgPerror "unlink")] else []) ++
            EvUnlink newname false ::
              (ev4 ++ (if verbose then [EvStderr (MsgRenamed path newname)] else []) ++
               [EvRename path newname true] ++ ev1)).
    split; [rewrite vlog_trace, Htr5, Htr4; exact (app_assoc _ (_ :: _) _) |].
    right. split; [done |]. rewrite count_app. cbn [count]. rewrite Hc.
    destruct verbose; simpl; lia.
Qed.

(** [overwrite_file] returns 0 or -1, or the process exits with status 2
    after a failed allocation. *)
Lemma overwrite_file_outcome path passes final_zero verbose w :
  match (overwrite_file path passes final_zero verbose w).1 with
  | Return r => r = 0 \/ r = -1
  | Exit status =>
      status = 2 /\
      exists size evs,
        trace (overwrite_file path passes final_zero verbose w).2
        = EvStderr (MsgMallocFailed size) :: EvMalloc size false :: evs ++ trace w
  end.
Proof.
  unfold overwrite_file.
  destruct (OS.stat path w) as [st w1] eqn:Estat.
  apply stat_spec in Estat as [-> _].
  destruct st as [st|]; [| by right].
  destruct (negb (S_ISREG (st_mode st))); [by right |].
  destruct (OS.open_wronly path _) as [fd w2] eqn:Eopen.
  apply open_wronly_spec in Eopen as (Htr2 & _ & _).
  destruct (fd <? 0); [by right |].
  destruct (alloc_buf _ w2) as [[buf|status] w3] eqn:Ealloc.
  - destruct (pass_loop _ _ _ _ _ _ _ _ _ w3) as [[buf1|] w4]; [| by right].
    destruct final_zero.
    + destruct (zero_pass _ _ _ _ _ _ w4) as [[buf2|] w5]; [| by right].
      destruct (OS.close fd w5). by left.
    + destruct (OS.close fd w4). by left.
  - apply alloc_buf_spec in Ealloc as (_ & _ & _ & -> & Htr3). cbn [fst snd].
    split; [done |]. eexists _, [_; _]. rewrite Htr3, Htr2. done.
Qed.

Lemma main_loop_spec files passes final_zero verbose : forall st w,
  exists evs, trace (main_loop files passes final_zero verbose st w).2 = evs ++ trace w /\
    match (main_loop files passes final_zero verbose st w).1 with
    | Return st' =>
        st' = (if Nat.eqb (count failure_event evs) 0 then st else 2) /\
        forall p, p ∈ files -> exists ok, EvStat p ok ∈ evs
    | Exit status => status = 2 /\ exists size, EvMalloc size false ∈ evs
    end.
Proof.
  induction files as [|path rest IH]; intros st w; cbn [main_loop].
  - exists []. split; [done |]. cbn [fst]. split; [done |].
    intros p Hp. by apply elem_of_nil in Hp.
  - set (w0 := vlog verbose (MsgProcessing path) w).
    pose proof (overwrite_file_trace path passes final_zero verbose w0)
      as (head & tail & Htr1 & Htail & Hhead & (ok & Hstat) & _).
    pose proof (overwrite_file_outcome path passes final_zero verbose w0) as Hout.
    destruct (overwrite_file path passes final_zero verbose w0) as [[r|status] w1];
      cbn [fst snd] in *.
    2: { destruct Hout as (-> & size & evs & Hevs).
         exists (EvStderr (MsgMallocFailed size) :: EvMalloc size false :: evs ++
                 (if verbose then [EvStderr (MsgProcessing path)] else [])).
         split.
         - rewrite Hevs. unfold w0. rewrite vlog_trace. simpl. by rewrite <- app_assoc.
         - split; [done |]. exists size. in_list. }
    assert (Hc1 : count failure_event (tail ++ head) = 0%nat).
    { rewrite count_app.
      rewrite (count_none _ _ _ Htail (fun e He => file_event_not_failure e (loop_event_file e He))).
      rewrite (count_none _ _ _ Hhead (fun e He => file_event_not_failure e (head_event_file e He))).
      done. }
    assert (Htr1' : trace w1 = (tail ++ head ++
              (if verbose then [EvStderr (MsgProcessing path)] else [])) ++ trace w).
    { rewrite Htr1. unfold w0. rewrite vlog_trace. by rewrite <- !app_assoc. }
    assert (Hc1' : count failure_event (tail ++ head ++
              (if verbose then [EvStderr (MsgProcessing path)] else [])) = 0%nat).
    { rewrite app_assoc, count_app, Hc1. by destruct verbose. }
    assert (Hstat' : exists ok, EvStat path ok ∈ tail ++ head ++
              (if verbose then [EvStderr (MsgProcessing path)] else [])).
    { exists ok. rewrite !elem_of_app. right. by left. }
    clear Htr1 Hc1 Hstat. revert Htr1' Hc1' Hstat'.
    generalize (tail ++ head ++ (if verbose then [EvStderr (MsgProcessing path)] else [])).
    intros ev1 Htr1 Hc1 (ok1 & Hstat).
    destruct (negb (r =? 0)).
    + destruct (IH 2 (log (EvStderr (MsgFailedOverwrite path)) w1)) as (evs & Hevs & Hres).
      exists (evs ++ EvStderr (MsgFailedOverwrite path) :: ev1).
      split; [rewrite Hevs; simpl; rewrite Htr1; by rewrite <- app_assoc |].
      destruct (main_loop rest passes final_zero verbose 2 _).1 as [st'|status].
      * destruct Hres as (-> & Hall). split.
        -- rewrite count_app.
           change (count failure_event (EvStderr (MsgFailedOverwrite path) :: ev1))
             with (S (count failure_event ev1)).
           destruct (Nat.eqb (count failure_event evs) 0);
             destruct (Nat.eqb _ 0) eqn:E; try done; apply Nat.eqb_eq in E; lia.
        -- intros p [-> | Hp]%elem_of_cons.
           ++ exists ok1. apply elem_of_app. right. by right.
           ++ destruct (Hall p Hp) as (ok' & Hin). exists ok'. apply elem_of_app. by left.
      * destruct Hres as (-> & size & Hin). split; [done |]. exists size.
        apply elem_of_app. by left.
    + pose proof (obfuscate_and_remove_status path verbose st w1) as (ev2 & Hev2 & Hst2).
      destruct (obfuscate_and_remove path verbose st w1) as [st1 w2]. cbn [fst snd] in *.
      destruct (IH st1 w2) as (evs & Hevs & Hres).
      exists (evs ++ ev2 ++ ev1).
      split; [rewrite Hevs, Hev2, Htr1; by rewrite <- !app_assoc |].
      destruct (main_loop rest passes final_zero verbose st1 w2).1 as [st'|status].
      * destruct Hres as (-> & Hall). split.
        -- rewrite !count_app, Hc1, Nat.add_0_r.
           destruct Hst2 as [[-> ->] | [-> Hne]].
           ++ by rewrite Nat.add_0_r.
           ++ assert (Hn : Nat.eqb (count failure_event evs + count failure_event ev2) 0 = false)
                by (apply Nat.eqb_neq; lia).
              rewrite Hn. by case_match.
        -- intros p [-> | Hp]%elem_of_cons.
           ++ exists ok1. rewrite !elem_of_app. right. by right.
           ++ destruct (Hall p Hp) as (ok' & Hin). exists ok'. apply elem_of_app. by left.
      * destruct Hres as (-> & size & Hin). split; [done |]. exists size.
        apply elem_of_app. by left.
Qed.

(** X3. The exit status of [main] once its options are parsed: if the
    loop over the files returns, the status is 0 exactly when no
    failure was logged (no "Failed to securely overwrite" message and no
    failed [unlink]) and 2 otherwise, and every file has been attempted
    ([stat] was called on it); if instead the process exits inside
    [alloc_buf], the status is 2 as well and a [malloc] has failed. *)
Theorem main_exit_status files passes final_zero verbose w :
  exists evs, trace (main_files files passes final_zero verbose w).2 = evs ++ trace w /\
    match (main_files files passes final_zero verbose w).1 with
    | Return st =>
        (st = 0 <-> count failure_event evs = 0%nat) /\ (st = 0 \/ st = 2) /\
        forall p, p ∈ files -> exists ok, EvStat p ok ∈ evs
    | Exit status => status = 2 /\ exists size, EvMalloc size false ∈ evs
    end.
Proof.
  unfold main_files.
  destruct (main_loop_spec files passes final_zero verbose 0 w) as (evs & Hevs & Hres).
  exists evs. split; [done |].
  destruct (main_loop files passes final_zero verbose 0 w).1 as [st|status]; [| done].
  destruct Hres as (-> & Hall).
  destruct (Nat.eqb (count failure_event evs) 0) eqn:E.
  - apply Nat.eqb_eq in E. split; [done |]. split; [by left | done].
  - apply Nat.eqb_neq in E. split; [done |]. split; [by right | done].
Qed.

(** ** Checkpoint failures do not matter *)

(** Events that tell how a checkpoint went. *)
Definition sync_event (e : event) : bool :=
  match e with
  | EvFdatasync _ _ | EvFsync _ _ => true
  | EvStderr (MsgPerror s) => String.eqb s "sync" || String.eqb s "fsync(dir)"
  | _ => false
  end.

(** A trace without them. *)
Fixpoint unsync (t : list event) : list event :=
  match t with
  | [] => []
  | e :: t' => if sync_event e then unsync t' else e :: unsync t'
  end.

(** Two worlds that differ at most in the outcomes of [fdatasync] and
    [fsync], those to come and those logged. *)
Definition same_but_sync (w1 w2 : world) : Prop :=
  fs w1 = fs w2 /\ fdt w1 = fdt w2 /\ next_fd w1 = next_fd w2 /\
  rnd_tape w1 = rnd_tape w2 /\ dev_tape w1 = dev_tape w2 /\ wr_tape w1 = wr_tape w2 /\
  (forall k, k <> SFdatasync -> k <> SFsync -> plan w1 k = plan w2 k) /\
  unsync (trace w1) = unsync (trace w2).

Ltac sim_intro :=
  let Hfs := fresh "Hfs" in let Hfdt := fresh "Hfdt" in let Hnf := fresh "Hnf" in
  let Hrt := fresh "Hrt" in let Hdt := fresh "Hdt" in let Hwt := fresh "Hwt" in
  let Hpl := fresh "Hpl" in let Htr := fresh "Htr" in
  intros (Hfs & Hfdt & Hnf & Hrt & Hdt & Hwt & Hpl & Htr).

(** Closes [same_but_sync] between two worlds built alike from related
    worlds. *)
Ltac sim_close :=
  unfold same_but_sync; simpl;
  repeat match goal with |- _ /\ _ => split end;
  try congruence;
  try (intros ? ? ?; repeat case_decide; subst; try done;
       match goal with H : context [plan _ _ = plan _ _] |- _ =>
         rewrite ?H by done end; done).

Lemma log_sim e w1 w2 :
  sync_event e = false -> same_but_sync w1 w2 -> same_but_sync (log e w1) (log e w2).
Proof. intros He. sim_intro. sim_close. rewrite He. congruence. Qed.

Lemma vlog_sim v m w1 w2 :
  sync_event (EvStderr m) = false ->
  same_but_sync w1 w2 -> same_but_sync (vlog v m w1) (vlog v m w2).
Proof. intros He H. destruct v; [by apply log_sim | done]. Qed.

Lemma pop_sim k w1 w2 :
  k <> SFdatasync -> k <> SFsync -> same_but_sync w1 w2 ->
  (pop k w1).1 = (pop k w2).1 /\ same_but_sync (pop k w1).2 (pop k w2).2.
Proof.
  intros H1 H2. sim_intro. unfold pop. cbn [fst snd]. rewrite (Hpl k) by done.
  split; [done |]. sim_close.
Qed.

Lemma close_sim fd w1 w2 :
  same_but_sync w1 w2 ->
  (OS.close fd w1).1 = (OS.close fd w2).1 /\
  same_but_sync (OS.close fd w1).2 (OS.close fd w2).2.
Proof.
  sim_intro. unfold OS.close, pop. cbn [fst snd]. rewrite (Hpl SClose) by done.
  split; [done |]. sim_close.
Qed.

Lemma bail_sim fd w1 w2 :
  same_but_sync w1 w2 -> same_but_sync (bail fd w1) (bail fd w2).
Proof. intros H. by apply close_sim. Qed.

Lemma set_rnd_tape_sim t w1 w2 :
  same_but_sync w1 w2 -> same_but_sync (set_rnd_tape t w1) (set_rnd_tape t w2).
Proof. sim_intro. sim_close. Qed.

Lemma set_dev_tape_sim t w1 w2 :
  same_but_sync w1 w2 -> same_but_sync (set_dev_tape t w1) (set_dev_tape t w2).
Proof. sim_intro. sim_close. Qed.

Lemma set_wr_tape_sim t w1 w2 :
  same_but_sync w1 w2 -> same_but_sync (set_wr_tape t w1) (set_wr_tape t w2).
Proof. sim_intro. sim_close. Qed.

Lemma getrandom_loop_sim tape : forall buf p left w1 w2,
  same_but_sync w1 w2 ->
  (getrandom_loop tape buf p left w1).1 = (getrandom_loop tape buf p left w2).1 /\
  same_but_sync (getrandom_loop tape buf p left w1).2 (getrandom_loop tape buf p left w2).2.
Proof.
  induction tape as [|r tape IH]; intros buf p left w1 w2 H; cbn [getrandom_loop];
    destruct (left =? 0); cbn [fst snd]; try done.
  - split; [done |]. by apply log_sim.
  - destruct r; cbn [fst snd].
    + apply IH. apply log_sim; [done |]. by apply set_rnd_tape_sim.
    + apply IH. apply log_sim; [done |]. by apply set_rnd_tape_sim.
    + split; [done |]. apply log_sim; [done |]. by apply set_rnd_tape_sim.
Qed.

Lemma urandom_loop_sim tape : forall fd buf len total w1 w2,
  same_but_sync w1 w2 ->
  (urandom_loop tape fd buf len total w1).1 = (urandom_loop tape fd buf len total w2).1 /\
  same_but_sync (urandom_loop tape fd buf len total w1).2
                (urandom_loop tape fd buf len total w2).2.
Proof.
  induction tape as [|r tape IH]; intros fd buf len total w1 w2 H; cbn [urandom_loop];
    destruct (total <? to_ssize_t len); cbn [fst snd]; try done.
  - split; [done |]. by apply log_sim.
  - destruct r; cbn [fst snd].
    + destruct (_ =? 0); cbn [fst snd].
      * split; [done |]. apply log_sim; [done |]. by apply set_dev_tape_sim.
      * apply IH. apply log_sim; [done |]. by apply set_dev_tape_sim.
    + apply IH. apply log_sim; [done |]. by apply set_dev_tape_sim.
    + split; [done |]. apply log_sim; [done |]. by apply set_dev_tape_sim.
Qed.

Lemma open_urandom_sim w1 w2 :
  same_but_sync w1 w2 ->
  (OS.open_urandom w1).1 = (OS.open_urandom w2).1 /\
  same_but_sync (OS.open_urandom w1).2 (OS.open_urandom w2).2.
Proof.
  sim_intro. unfold OS.open_urandom, OS.alloc_fd, pop. cbn [fst snd].
  rewrite (Hpl SOpenUrandom) by done.
  destruct (hd true (plan w2 SOpenUrandom)); simpl; rewrite ?Hnf; (split; [done |]); sim_close.
Qed.

(** Use a simulation lemma on the call in the goal: both calls get the
    same result [r] and related worlds [wa], [wb]. *)
Tactic Notation "sim_step" constr(L) "as" ident(r) ident(wa) ident(wb) ident(Hs) :=
  let Heq := fresh "Heq" in
  destruct L as [Heq Hs];
  match type of Heq with
  | ?a.1 = ?b.1 =>
      let r' := fresh "r" in
      destruct a as [r wa]; destruct b as [r' wb]; cbn [fst snd] in Heq, Hs; subst r'
  end.

Lemma fill_random_sim buf len w1 w2 :
  same_but_sync w1 w2 ->
  (fill_random buf len w1).1 = (fill_random buf len w2).1 /\
  same_but_sync (fill_random buf len w1).2 (fill_random buf len w2).2.
Proof.
  intros H. unfold fill_random.
  assert (Hrt : rnd_tape w1 = rnd_tape w2) by apply H. rewrite Hrt.
  sim_step (getrandom_loop_sim (rnd_tape w2) buf 0 len w1 w2 H) as r1 wa1 wb1 H1.
  destruct r1 as [left1 buf1].
  destruct (left1 =? 0); [done |].
  sim_step (open_urandom_sim wa1 wb1 H1) as fd wa2 wb2 H2.
  destruct (fd <? 0); [done |].
  assert (Hdt : dev_tape wa2 = dev_tape wb2) by apply H2. rewrite Hdt.
  sim_step (urandom_loop_sim (dev_tape wb2) fd buf1 len 0 wa2 wb2 H2) as r3 wa3 wb3 H3.
  destruct r3 as [total buf2].
  sim_step (close_sim fd wa3 wb3 H3) as r4 wa4 wb4 H4. done.
Qed.

Lemma os_write_sim resp fd buf n w1 w2 :
  same_but_sync w1 w2 ->
  (os_write resp fd buf n w1).1 = (os_write resp fd buf n w2).1 /\
  same_but_sync (os_write resp fd buf n w1).2 (os_write resp fd buf n w2).2.
Proof.
  intros H. destruct resp as [k| |]; cbn [os_write fst snd].
  - pose proof H as Hcopy. revert Hcopy. sim_intro.
    unfold OS.write_n. rewrite Hfdt, Hfs.
    destruct (fdt w2 !! fd) as [[p pos| |]|]; cbn [fst snd];
      try (split; [done |]; by apply log_sim).
    destruct (fs w2 !! p) as [[]|]; cbn [fst snd];
      try (split; [done |]; by apply log_sim).
    split; [done |]. sim_close.
  - split; [done |]. by apply log_sim.
  - split; [done |]. by apply log_sim.
Qed.

Lemma random_write_loop_sim tape : forall verbose fd size bufsize buf wt w1 w2,
  same_but_sync w1 w2 ->
  (random_write_loop tape verbose fd size bufsize buf wt w1).1
  = (random_write_loop tape verbose fd size bufsize buf wt w2).1 /\
  same_but_sync (random_write_loop tape verbose fd size bufsize buf wt w1).2
                (random_write_loop tape verbose fd size bufsize buf wt w2).2.
Proof.
  induction tape as [|resp tape IH]; intros verbose fd size bufsize buf wt w1 w2 H;
    cbn [random_write_loop]; destruct (wt <? size); try done.
  - sim_step (fill_random_sim buf (chunk_len bufsize size wt) w1 w2 H) as r1 wa1 wb1 H1.
    destruct r1 as [r buf1]. destruct (negb _); cbn [fst snd].
    + split; [done |]. apply bail_sim. by apply vlog_sim.
    + sim_step (os_write_sim WrErr fd buf1 (chunk_len bufsize size wt) wa1 wb1 H1)
        as r2 wa2 wb2 H2.
      cbn [fst snd]. split; [done |]. apply bail_sim. by apply vlog_sim.
  - sim_step (fill_random_sim buf (chunk_len bufsize size wt) w1 w2 H) as r1 wa1 wb1 H1.
    destruct r1 as [r buf1]. destruct (negb _); cbn [fst snd].
    + split; [done |]. apply bail_sim. by apply vlog_sim.
    + sim_step (os_write_sim resp fd buf1 (chunk_len bufsize size wt) _ _
                  (set_wr_tape_sim tape wa1 wb1 H1)) as r2 wa2 wb2 H2.
      destruct r2; [by apply IH | by apply IH |].
      cbn [fst snd]. split; [done |]. apply bail_sim. by apply vlog_sim.
Qed.

Lemma zero_write_loop_sim tape : forall verbose fd size bufsize buf wt w1 w2,
  same_but_sync w1 w2 ->
  (zero_write_loop tape verbose fd size bufsize buf wt w1).1
  = (zero_write_loop tape verbose fd size bufsize buf wt w2).1 /\
  same_but_sync (zero_write_loop tape verbose fd size bufsize buf wt w1).2
                (zero_write_loop tape verbose fd size bufsize buf wt w2).2.
Proof.
  induction tape as [|resp tape IH]; intros verbose fd size bufsize buf wt w1 w2 H;
    cbn [zero_write_loop]; destruct (wt <? size); try done.
  - sim_step (os_write_sim WrErr fd buf (chunk_len bufsize size wt) w1 w2 H)
      as r2 wa2 wb2 H2.
    cbn [fst snd]. split; [done |]. apply bail_sim. by apply vlog_sim.
  - sim_step (os_write_sim resp fd buf (chunk_len bufsize size wt) _ _
                (set_wr_tape_sim tape w1 w2 H)) as r2 wa2 wb2 H2.
    destruct r2; [by apply IH | by apply IH |].
    cbn [fst snd]. split; [done |]. apply bail_sim. by apply vlog_sim.
Qed.

Lemma lseek0_sim fd w1 w2 :
  same_but_sync w1 w2 ->
  (OS.lseek0 fd w1).1 = (OS.lseek0 fd w2).1 /\
  same_but_sync (OS.lseek0 fd w1).2 (OS.lseek0 fd w2).2.
Proof.
  sim_intro. unfold OS.lseek0, pop. cbn [fst snd]. rewrite (Hpl SLseek) by done.
  cbn [fdt set_plan]. rewrite Hfdt.
  destruct (hd true (plan w2 SLseek)); [| split; [done |]; sim_close].
  destruct (fdt w2 !! fd) as [[p pos| |]|]; cbn [fst snd]; (split; [done |]); sim_close.
Qed.

(** The checkpoint itself: whatever [fdatasync] and [fsync] answer, the
    worlds stay related. *)
Lemma checkpoint_sim verbose fd w1 w2 :
  same_but_sync w1 w2 ->
  same_but_sync (checkpoint verbose fd w1) (checkpoint verbose fd w2).
Proof.
  sim_intro. unfold checkpoint, sync_and_check, OS.fdatasync, OS.fsync, pop. cbn [fst snd].
  destruct (hd true (plan w1 SFdatasync)), (hd true (plan w2 SFdatasync)); simpl;
    repeat match goal with |- context [hd true ?l] => destruct (hd true l); simpl end;
    destruct verbose; simpl; sim_close.
Qed.

Lemma pass_loop_sim n : forall pass passes path verbose fd size bufsize buf w1 w2,
  same_but_sync w1 w2 ->
  (pass_loop n pass passes path verbose fd size bufsize buf w1).1
  = (pass_loop n pass passes path verbose fd size bufsize buf w2).1 /\
  same_but_sync (pass_loop n pass passes path verbose fd size bufsize buf w1).2
                (pass_loop n pass passes path verbose fd size bufsize buf w2).2.
Proof.
  induction n as [|n IH]; intros pass passes path verbose fd size bufsize buf w1 w2 H;
    cbn [pass_loop]; [done |].
  sim_step (lseek0_sim fd _ _ (vlog_sim verbose (MsgPass pass passes path) w1 w2 eq_refl H))
    as r1 wa1 wb1 H1.
  destruct (r1 =? -1); cbn [fst snd].
  - split; [done |]. apply bail_sim. by apply vlog_sim.
  - assert (Hwt : wr_tape wa1 = wr_tape wb1) by apply H1. rewrite Hwt.
    sim_step (random_write_loop_sim (wr_tape wb1) verbose fd size bufsize buf 0 wa1 wb1 H1)
      as r2 wa2 wb2 H2.
    destruct r2 as [buf1|]; [| done].
    apply IH. by apply checkpoint_sim.
Qed.

Lemma zero_pass_sim path verbose fd size bufsize buf w1 w2 :
  same_but_sync w1 w2 ->
  (zero_pass path verbose fd size bufsize buf w1).1
  = (zero_pass path verbose fd size bufsize buf w2).1 /\
  same_but_sync (zero_pass path verbose fd size bufsize buf w1).2
                (zero_pass path verbose fd size bufsize buf w2).2.
Proof.
  intros H. unfold zero_pass.
  sim_step (lseek0_sim fd _ _ (vlog_sim verbose (MsgFinalZero path) w1 w2 eq_refl H))
    as r1 wa1 wb1 H1.
  destruct (r1 =? -1); cbn [fst snd].
  - split; [done |]. apply bail_sim. by apply vlog_sim.
  - assert (Hwt : wr_tape (log (EvMemset bufsize) wa1) = wr_tape (log (EvMemset bufsize) wb1))
      by apply H1. rewrite Hwt.
    sim_step (zero_write_loop_sim (wr_tape (log (EvMemset bufsize) wb1)) verbose fd size bufsize
                (blit 0 (replicate (Z.to_nat bufsize) Zero) buf) 0 _ _
                (log_sim (EvMemset bufsize) wa1 wb1 eq_refl H1))
      as r2 wa2 wb2 H2.
    destruct r2 as [buf1|]; cbn [fst snd]; [| done].
    split; [done |]. by apply checkpoint_sim.
Qed.

Lemma stat_sim path w1 w2 :
  same_but_sync w1 w2 ->
  (OS.stat path w1).1 = (OS.stat path w2).1 /\
  same_but_sync (OS.stat path w1).2 (OS.stat path w2).2.
Proof.
  intros H. assert (Hfs : fs w1 = fs w2) by apply H. unfold OS.stat. rewrite Hfs.
  destruct (resolve MAXSYMLINKS (fs w2) path) as [[rp nd]|]; cbn [fst snd].
  - destruct (node_stat nd); cbn [fst snd]; (split; [done |]); by apply log_sim.
  - split; [done |]. by apply log_sim.
Qed.

Lemma open_wronly_sim path w1 w2 :
  same_but_sync w1 w2 ->
  (OS.open_wronly path w1).1 = (OS.open_wronly path w2).1 /\
  same_but_sync (OS.open_wronly path w1).2 (OS.open_wronly path w2).2.
Proof.
  sim_intro. unfold OS.open_wronly, OS.alloc_fd, pop. cbn [fst snd].
  rewrite (Hpl SOpen) by done. cbn [fs set_plan]. rewrite Hfs.
  destruct (hd true (plan w2 SOpen)).
  - destruct (resolve MAXSYMLINKS (fs w2) path) as [[rp []]|]; cbn [fst snd];
      rewrite ?Hnf; (split; [done |]); sim_close.
  - destruct (resolve MAXSYMLINKS (fs w2) path) as [[rp []]|]; cbn [fst snd];
      (split; [done |]); sim_close.
Qed.

Lemma malloc_sim size w1 w2 :
  same_but_sync w1 w2 ->
  (OS.malloc size w1).1 = (OS.malloc size w2).1 /\
  same_but_sync (OS.malloc size w1).2 (OS.malloc size w2).2.
Proof.
  sim_intro. unfold OS.malloc, pop. cbn [fst snd]. rewrite (Hpl SMalloc) by done.
  split; [done |]. sim_close.
Qed.

Lemma alloc_buf_sim size w1 w2 :
  same_but_sync w1 w2 ->
  (alloc_buf size w1).1 = (alloc_buf size w2).1 /\
  same_but_sync (alloc_buf size w1).2 (alloc_buf size w2).2.
Proof.
  intros H. unfold alloc_buf.
  sim_step (malloc_sim size w1 w2 H) as ok wa wb H1.
  destruct ok; cbn [fst snd]; [done |]. split; [done |]. by apply log_sim.
Qed.

(** [overwrite_file] in two worlds that differ at most in how
    [fdatasync] and [fsync] answer. *)
Lemma overwrite_file_sim path passes final_zero verbose w1 w2 :
  same_but_sync w1 w2 ->
  (overwrite_file path passes final_zero verbose w1).1
  = (overwrite_file path passes final_zero verbose w2).1 /\
  same_but_sync (overwrite_file path passes final_zero verbose w1).2
                (overwrite_file path passes final_zero verbose w2).2.
Proof.
  intros H. unfold overwrite_file.
  sim_step (stat_sim path w1 w2 H) as st wa1 wb1 H1.
  destruct st as [st|]; cbn [fst snd]; [| split; [done |]; by apply vlog_sim].
  destruct (negb (S_ISREG (st_mode st))); cbn [fst snd];
    [split; [done |]; by apply vlog_sim |].
  sim_step (open_wronly_sim path wa1 wb1 H1) as fd wa2 wb2 H2.
  destruct (fd <? 0); cbn [fst snd]; [split; [done |]; by apply vlog_sim |].
  sim_step (alloc_buf_sim (bufsize_of (st_size st)) wa2 wb2 H2) as o wa3 wb3 H3.
  destruct o as [buf|status]; [| done].
  sim_step (pass_loop_sim (Z.to_nat passes) 1 passes path verbose fd (st_size st)
              (bufsize_of (st_size st)) buf wa3 wb3 H3) as r4 wa4 wb4 H4.
  destruct r4 as [buf1|]; [| done].
  assert (Hfinish : forall wa wb, same_but_sync wa wb ->
    (let '(r, w) := OS.close fd wa in
      (Return 0, if negb (r =? 0) then vlog verbose (MsgPerror "close") w else w)).1
    = (let '(r, w) := OS.close fd wb in
      (Return 0, if negb (r =? 0) then vlog verbose (MsgPerror "close") w else w)).1 /\
    same_but_sync
      (let '(r, w) := OS.close fd wa in
        (Return (A:=Z) 0, if negb (r =? 0) then vlog verbose (MsgPerror "close") w else w)).2
      (let '(r, w) := OS.close fd wb in
        (Return (A:=Z) 0, if negb (r =? 0) then vlog verbose (MsgPerror "close") w else w)).2).
  { intros wa wb Hab. sim_step (close_sim fd wa wb Hab) as r5 wa5 wb5 H5.
    cbn [fst snd]. split; [done |]. destruct (negb (r5 =? 0)); [by apply vlog_sim | done]. }
  destruct final_zero.
  - sim_step (zero_pass_sim path verbose fd (st_size st) (bufsize_of (st_size st)) buf1
                wa4 wb4 H4) as r5 wa5 wb5 H5.
    destruct r5 as [buf2|]; [| done]. by apply Hfinish.
  - by apply Hfinish.
Qed.

(** X4. A failing durability checkpoint never changes what
    [overwrite_file] does: started in two worlds that differ at most in
    how [fdatasync] and [fsync] answer, it gives the same outcome (same
    return value or exit), leaves the same files, descriptors and
    unread scripts, and logs the same events apart from the checkpoint
    results and the "sync" warning. *)
Theorem overwrite_file_ignores_sync_failures path passes final_zero verbose w1 w2 :
  same_but_sync w1 w2 ->
  (overwrite_file path passes final_zero verbose w1).1
  = (overwrite_file path passes final_zero verbose w2).1 /\
  same_but_sync (overwrite_file path passes final_zero verbose w1).2
                (overwrite_file path passes final_zero verbose w2).2.
Proof. apply overwrite_file_sim. Qed.

Definition world_X4 (sync_ok : bool) : world :=
  set_plan (fun k => match k with
                     | SFdatasync | SFsync => replicate 4 sync_ok
                     | _ => []
                     end) world_C4.

Lemma overwrite_file_ignores_sync_failures_witness :
  (overwrite_file "/tmp/a" 2 true true (world_X4 false)).1
  = (overwrite_file "/tmp/a" 2 true true (world_X4 true)).1 /\
  same_but_sync (overwrite_file "/tmp/a" 2 true true (world_X4 false)).2
                (overwrite_file "/tmp/a" 2 true true (world_X4 true)).2.
Proof.
  apply (overwrite_file_ignores_sync_failures "/tmp/a" 2 true true
           (world_X4 false) (world_X4 true)).
  unfold same_but_sync. simpl.
  repeat match goal with |- _ /\ _ => split end; try reflexivity.
  intros k H1 H2. by destruct k.
Defined.

Lemma random_filename_in_dir_sim path w1 w2 :
  same_but_sync w1 w2 ->
  (random_filename_in_dir path w1).1 = (random_filename_in_dir path w2).1 /\
  same_but_sync (random_filename_in_dir path w1).2 (random_filename_in_dir path w2).2.
Proof.
  intros H. unfold random_filename_in_dir.
  sim_step (malloc_sim (strlen path + 1) w1 w2 H) as ok wa1 wb1 H1.
  destruct (negb ok); [done |].
  sim_step (fill_random_sim (replicate 16 Junk) 16 wa1 wb1 H1) as r2 wa2 wb2 H2.
  destruct r2 as [r rnd]. destruct (negb (r =? to_ssize_t 16)); [done |].
  match goal with |- context [OS.malloc ?n wa2] =>
    sim_step (malloc_sim n wa2 wb2 H2) as ok3 wa3 wb3 H3 end.
  by destruct (negb ok3).
Qed.

Lemma rename_sim old new w1 w2 :
  same_but_sync w1 w2 ->
  (OS.rename old new w1).1 = (OS.rename old new w2).1 /\
  same_but_sync (OS.rename old new w1).2 (OS.rename old new w2).2.
Proof.
  sim_intro. unfold OS.rename, pop. cbn [fst snd]. rewrite (Hpl SRename) by done.
  cbn [fs set_plan]. rewrite Hfs.
  destruct (hd true (plan w2 SRename)); destruct (fs w2 !! old); cbn [fst snd];
    (split; [done |]); sim_close.
Qed.

Lemma unlink_sim path w1 w2 :
  same_but_sync w1 w2 ->
  (OS.unlink path w1).1 = (OS.unlink path w2).1 /\
  same_but_sync (OS.unlink path w1).2 (OS.unlink path w2).2.
Proof.
  sim_intro. unfold OS.unlink, pop. cbn [fst snd]. rewrite (Hpl SUnlink) by done.
  cbn [fs set_plan]. rewrite Hfs.
  destruct (hd true (plan w2 SUnlink)); destruct (fs w2 !! path) as [[]|]; cbn [fst snd];
    (split; [done |]); sim_close.
Qed.

Lemma open_dir_sim path w1 w2 :
  same_but_sync w1 w2 ->
  (OS.open_dir path w1).1 = (OS.open_dir path w2).1 /\
  same_but_sync (OS.open_dir path w1).2 (OS.open_dir path w2).2.
Proof.
  sim_intro. unfold OS.open_dir, OS.alloc_fd. rewrite Hfs.
  destruct (resolve MAXSYMLINKS (fs w2) path) as [[rp []]|]; cbn [fst snd];
    rewrite ?Hnf; (split; [done |]); sim_close.
Qed.

(** [fsync], whose answer may differ between the two worlds. *)
Lemma fsync_sim fd w1 w2 :
  same_but_sync w1 w2 -> same_but_sync (OS.fsync fd w1).2 (OS.fsync fd w2).2.
Proof. sim_intro. unfold OS.fsync, pop. cbn [fst snd]. sim_close. Qed.

Lemma sync_dir_sim newname verbose w1 w2 :
  same_but_sync w1 w2 ->
  same_but_sync (sync_dir newname verbose w1) (sync_dir newname verbose w2).
Proof.
  intros H. unfold sync_dir.
  sim_step (malloc_sim (strlen newname + 1) w1 w2 H) as ok wa1 wb1 H1.
  sim_step (open_dir_sim (if ok then dirname newname else "."%string) wa1 wb1 H1)
    as dfd wa2 wb2 H2.
  destruct (0 <=? dfd); [| done].
  pose proof (fsync_sim dfd wa2 wb2 H2) as H3.
  destruct (OS.fsync dfd wa2) as [ra wa3], (OS.fsync dfd wb2) as [rb wb3]. cbn [snd] in H3.
  apply close_sim.
  destruct (negb (ra =? 0)), (negb (rb =? 0)), verbose; try done;
    revert H3; sim_intro; sim_close.
Qed.

Lemma unlink_original_sim path verbose st w1 w2 :
  same_but_sync w1 w2 ->
  (unlink_original path verbose st w1).1 = (unlink_original path verbose st w2).1 /\
  same_but_sync (unlink_original path verbose st w1).2 (unlink_original path verbose st w2).2.
Proof.
  intros H. unfold unlink_original.
  sim_step (unlink_sim path w1 w2 H) as r1 wa wb H1.
  destruct (negb (r1 =? 0)); cbn [fst snd]; (split; [done |]); by apply vlog_sim.
Qed.

Lemma obfuscate_and_remove_sim path verbose st w1 w2 :
  same_but_sync w1 w2 ->
  (obfuscate_and_remove path verbose st w1).1 = (obfuscate_and_remove path verbose st w2).1 /\
  same_but_sync (obfuscate_and_remove path verbose st w1).2
                (obfuscate_and_remove path verbose st w2).2.
Proof.
  intros H. unfold obfuscate_and_remove.
  sim_step (random_filename_in_dir_sim path w1 w2 H) as newname wa1 wb1 H1.
  destruct newname as [newname|]; [| by apply unlink_original_sim].
  sim_step (rename_sim path newname wa1 wb1 H1) as r2 wa2 wb2 H2.
  destruct (negb (r2 =? 0)).
  - apply unlink_original_sim. by apply vlog_sim.
  - sim_step (unlink_sim newname _ _
                (sync_dir_sim newname verbose _ _
                   (vlog_sim verbose (MsgRenamed path newname) wa2 wb2 eq_refl H2)))
      as r3 wa3 wb3 H3.
    destruct (negb (r3 =? 0)); cbn [fst snd]; (split; [done |]); by apply vlog_sim.
Qed.

Lemma main_loop_sim files passes final_zero verbose : forall st w1 w2,
  same_but_sync w1 w2 ->
  (main_loop files passes final_zero verbose st w1).1
  = (main_loop files passes final_zero verbose st w2).1 /\
  same_but_sync (main_loop files passes final_zero verbose st w1).2
                (main_loop files passes final_zero verbose st w2).2.
Proof.
  induction files as [|path rest IH]; intros st w1 w2 H; cbn [main_loop]; [done |].
  sim_step (overwrite_file_sim path passes final_zero verbose _ _
              (vlog_sim verbose (MsgProcessing path) w1 w2 eq_refl H)) as o wa1 wb1 H1.
  destruct o as [r1|status]; [| done].
  destruct (negb (r1 =? 0)).
  - apply IH. by apply log_sim.
  - sim_step (obfuscate_and_remove_sim path verbose st wa1 wb1 H1) as st1 wa2 wb2 H2.
    by apply IH.
Qed.

(** X5. The exit status of [main] does not depend on how any
    [fdatasync] or [fsync] call answers, be it a checkpoint of a pass or
    the [fsync] of the directory after the rename: in two worlds that
    differ at most in these answers, the loop over the files ends the
    same way, with the same files left, and logs the same events apart
    from the sync results and their warnings. *)
Theorem main_ignores_sync_failures files passes final_zero verbose w1 w2 :
  same_but_sync w1 w2 ->
  (main_files files passes final_zero verbose w1).1
  = (main_files files passes final_zero verbose w2).1 /\
  same_but_sync (main_files files passes final_zero verbose w1).2
                (main_files files passes final_zero verbose w2).2.
Proof. apply main_loop_sim. Qed.

Lemma main_ignores_sync_failures_witness :
  (main_files ["/tmp/a"%string; "/nope"%string] 2 true true (world_X4 false)).1
  = (main_files ["/tmp/a"%string; "/nope"%string] 2 true true (world_X4 true)).1 /\
  same_but_sync (main_files ["/tmp/a"%string; "/nope"%string] 2 true true (world_X4 false)).2
                (main_files ["/tmp/a"%string; "/nope"%string] 2 true true (world_X4 true)).2.
Proof.
  apply (main_ignores_sync_failures ["/tmp/a"%string; "/nope"%string] 2 true true
           (world_X4 false) (world_X4 true)).
  unfold same_but_sync. simpl.
  repeat match goal with |- _ /\ _ => split end; try reflexivity.
  intros k H1 H2. by destruct k.
Defined.

(** ** Interrupted calls *)

Definition gr_eintr (r : gr_resp) : bool := match r with GrEintr => true | _ => false end.
Definition rd_eintr (r : rd_resp) : bool := match r with RdEintr => true | _ => false end.

(** A script without its interruptions. *)
Fixpoint without_gr_eintr (t : list gr_resp) : list gr_resp :=
  match t with
  | [] => []
  | r :: t' => if gr_eintr r then without_gr_eintr t' else r :: without_gr_eintr t'
  end.

Fixpoint without_rd_eintr (t : list rd_resp) : list rd_resp :=
  match t with
  | [] => []
  | r :: t' => if rd_eintr r then without_rd_eintr t' else r :: without_rd_eintr t'
  end.

Definition without_eintr (w : world) : world :=
  set_dev_tape (without_rd_eintr (dev_tape w))
    (set_rnd_tape (without_gr_eintr (rnd_tape w)) w).

Lemma getrandom_loop_eintr tape : forall buf p left w1 w2,
  (getrandom_loop (without_gr_eintr tape) buf p left w1).1
  = (getrandom_loop tape buf p left w2).1.
Proof.
  induction tape as [|r tape IH]; intros buf p left w1 w2.
  - cbn [without_gr_eintr getrandom_loop]. by destruct (left =? 0).
  - destruct r as [bs| |]; cbn [without_gr_eintr gr_eintr].
    + cbn [getrandom_loop]. destruct (left =? 0); [done |]. apply IH.
    + cbn [getrandom_loop]. destruct (left =? 0) eqn:E; [| apply IH].
      destruct (without_gr_eintr tape); cbn [getrandom_loop]; by rewrite E.
    + cbn [getrandom_loop]. by destruct (left =? 0).
Qed.

Lemma urandom_loop_eintr tape : forall fd buf len total w1 w2,
  (urandom_loop (without_rd_eintr tape) fd buf len total w1).1
  = (urandom_loop tape fd buf len total w2).1.
Proof.
  induction tape as [|r tape IH]; intros fd buf len total w1 w2.
  - cbn [without_rd_eintr urandom_loop]. by destruct (total <? to_ssize_t len).
  - destruct r as [bs| |]; cbn [without_rd_eintr rd_eintr].
    + cbn [urandom_loop]. destruct (total <? to_ssize_t len); [| done].
      destruct (_ =? 0); [done |]. apply IH.
    + cbn [urandom_loop]. destruct (total <? to_ssize_t len) eqn:E; [apply IH |].
      destruct (without_rd_eintr tape); cbn [urandom_loop]; by rewrite E.
    + cbn [urandom_loop]. by destruct (total <? to_ssize_t len).
Qed.

(** X6. [fill_random] retries interrupted calls transparently: with
    every [EINTR] answer of [getrandom] and of [read] taken out of the
    scripts, it returns the same value and leaves the same bytes in the
    buffer. *)
Theorem fill_random_retries_eintr buf len w :
  0 <= len <= Z.of_nat (length buf) -> len < 2 ^ 63 ->
  (fill_random buf len (without_eintr w)).1 = (fill_random buf len w).1.
Proof.
  intros Hlen Hmax. unfold fill_random.
  pose proof (getrandom_loop_eintr (rnd_tape w) buf 0 len (without_eintr w) w) as H1.
  change (rnd_tape (without_eintr w)) with (without_gr_eintr (rnd_tape w)).
  destruct (getrandom_loop (without_gr_eintr (rnd_tape w)) buf 0 len (without_eintr w))
    as [[left1 buf1] wa1] eqn:Ea.
  destruct (getrandom_loop (rnd_tape w) buf 0 len w) as [[left2 buf2] wb1] eqn:Eb.
  cbn [fst] in H1. injection H1 as -> ->.
  apply getrandom_loop_spec in Ea as (_ & _ & _ & _ & _ & _ & Hnfa & Hpla & Hdta & _); try lia.
  apply getrandom_loop_spec in Eb as (db & Hdb & _ & Hbuf & _ & _ & Hnfb & Hplb & Hdtb & _);
    try lia.
  destruct (left2 =? 0); [done |].
  unfold OS.open_urandom, OS.alloc_fd, pop. cbn [fst snd].
  rewrite Hpla, Hplb. cbn [plan without_eintr set_dev_tape set_rnd_tape].
  destruct (hd true (plan w SOpenUrandom)); cbn [fst snd next_fd set_plan]; [| done].
  rewrite Hnfa, Hnfb. cbn [next_fd without_eintr set_dev_tape set_rnd_tape].
  destruct (next_fd w <? 0); [done |].
  cbn [dev_tape log set_next_fd set_fdt set_plan]. rewrite Hdta, Hdtb.
  cbn [dev_tape without_eintr set_dev_tape set_rnd_tape].
  match goal with
  | |- context [urandom_loop (without_rd_eintr ?t) ?fd ?b ?l ?tot ?wa] =>
      match goal with
      | |- context [urandom_loop t fd b l tot ?wb] =>
          pose proof (urandom_loop_eintr t fd b l tot wa wb) as H2;
          destruct (urandom_loop (without_rd_eintr t) fd b l tot wa) as [[ta ba] wa2];
          destruct (urandom_loop t fd b l tot wb) as [[tb bb] wb2]
      end
  end.
  cbn [fst] in H2. injection H2 as -> ->.
  destruct (OS.close _ wa2), (OS.close _ wb2). done.
Qed.

Definition world_X6 : world :=
  set_dev_tape [RdEintr; RdBytes (take 3 bytes_seq); RdEintr; RdEintr; RdBytes (drop 3 bytes_seq)]
    (set_rnd_tape [GrEintr; GrBytes (take 2 bytes_seq); GrEintr; GrErr] (world0 [])).

Lemma fill_random_retries_eintr_witness :
  (fill_random (replicate 4 Junk) 4 (without_eintr world_X6)).1
  = (fill_random (replicate 4 Junk) 4 world_X6).1.
Proof.
  apply (fill_random_retries_eintr (replicate 4 Junk) 4 world_X6).
  - simpl. lia.
  - reflexivity.
Defined.

(** ** What [overwrite_file] never does *)

(** What can be told of an entry without reading a file: its kind, the
    target of a link, the length of a file. *)
Definition shape (n : node) : node :=
  match n with
  | NReg data => NReg (replicate (length data) Zero)
  | _ => n
  end.

(** From [w] to [w'] no name appears or disappears, and no entry changes
    its kind, no link its target and no file its length; [rp] is a
    regular file of [size] bytes. *)
Definition kept (w w' : world) (rp : string) (size : Z) : Prop :=
  (exists data, fs w' !! rp = Some (NReg data) /\ Z.of_nat (length data) = size) /\
  forall p, shape <$> fs w' !! p = shape <$> fs w !! p.

Lemma kept_refl w fd rp pos size : file_open w fd rp pos size -> kept w w rp size.
Proof. intros (_ & _ & Hdata). by split. Qed.

Lemma kept_trans w1 w2 w3 rp size : kept w1 w2 rp size -> kept w2 w3 rp size -> kept w1 w3 rp size.
Proof.
  intros [_ H12] [Hd H23]. split; [done |]. intros p. by rewrite H23, H12.
Qed.

Lemma kept_same_fs w1 w2 w3 rp size : fs w3 = fs w2 -> kept w1 w2 rp size -> kept w1 w3 rp size.
Proof. intros Hfs [Hd H12]. unfold kept. by rewrite Hfs. Qed.

(** A write event that stays inside the first [size] bytes of [rp] and
    carries only random cells, or only zero cells. *)
Definition safe_event (rp : string) (size : Z) (e : event) : bool :=
  match e with
  | EvWrite _ f pos data =>
      bool_decide (f = rp) && (0 <=? pos) && (pos + Z.of_nat (length data) <=? size)
      && (forallb is_rnd data || forallb is_zero data)
  | _ => true
  end.

Lemma chunk_event_safe P rnd rp size e :
  (P = is_rnd \/ P = is_zero) ->
  chunk_event P rnd rp size e = true -> safe_event rp size e = true.
Proof.
  intros HP. destruct e; try done. simpl.
  intros [-> HPd]%andb_true_iff. simpl.
  destruct HP as [-> | ->]; rewrite HPd; [done | apply orb_true_r].
Qed.

Lemma os_write_kept resp fd buf count_ w rp pos size :
  0 <= count_ -> pos + count_ <= size -> 0 <= pos ->
  file_open w fd rp pos size ->
  kept w (os_write resp fd buf count_ w).2 rp size.
Proof.
  intros Hc Hfit Hpos Hopen.
  destruct (os_write resp fd buf count_ w) as [wr w1] eqn:E. cbn [snd].
  pose proof E as E'.
  apply (os_write_spec _ _ _ _ _ _ _ rp pos size) in E'; try done.
  destruct Hopen as (Hfd & _ & data & Hdata & Hlen).
  destruct resp as [n| |]; cbn [os_write] in E.
  - unfold OS.write_n in E. rewrite Hfd, Hdata in E.
    assert (Hl : length (OS.file_write pos (take (Nat.min n (Z.to_nat count_)) buf) data)
                 = length data).
    { rewrite file_write_length; [done | lia | rewrite length_take; lia]. }
    destruct (_ <? 0); injection E as <- <-;
      (split; [simpl; rewrite lookup_insert_eq; eexists; split; [done |]; by rewrite Hl
              | intros p; simpl; destruct (decide (p = rp)) as [-> | Hp];
                [rewrite lookup_insert_eq, Hdata; simpl; by rewrite Hl
                | by rewrite lookup_insert_ne]]).
  - injection E as <- <-. split; [by exists data | done].
  - injection E as <- <-. split; [by exists data | done].
Qed.

Lemma bail_fs fd w : fs (bail fd w) = fs w.
Proof. done. Qed.

Lemma vlog_fs v m w : fs (vlog v m w) = fs w.
Proof. by destruct v. Qed.

Lemma extends_safe_cons rp size e t t' :
  safe_event rp size e = true -> extends (safe_event rp size) t t' ->
  extends (safe_event rp size) t (e :: t').
Proof. apply extends_cons. Qed.

Lemma random_event_safe rp size e : random_event e = true -> safe_event rp size e = true.
Proof. by destruct e. Qed.

Lemma loop_fail_safe rp size verbose fd m w0 w1 :
  extends (safe_event rp size) (trace w0) (trace w1) ->
  extends (safe_event rp size) (trace w0) (trace (bail fd (vlog verbose m w1))).
Proof.
  intros H. unfold bail, OS.close, pop. cbn [fst snd]. simpl.
  apply extends_cons; [done |]. destruct verbose; simpl; [by apply extends_cons | done].
Qed.

(** Whatever its outcome, the write loop of a random pass keeps the
    file's length and the other entries, and its writes are safe. *)
Lemma random_write_loop_safe tape : forall verbose fd size bufsize buf wt w rp,
  0 <= wt <= size -> size <= OFF_MAX -> 0 < bufsize <= CHUNK ->
  bufsize <= Z.of_nat (length buf) ->
  file_open w fd rp wt size ->
  kept w (random_write_loop tape verbose fd size bufsize buf wt w).2 rp size /\
  extends (safe_event rp size) (trace w)
    (trace (random_write_loop tape verbose fd size bufsize buf wt w).2).
Proof.
  induction tape as [|resp tape IH];
    intros verbose fd size bufsize buf wt w rp Hwt Hsize Hbs Hbuf Hopen;
    cbn [random_write_loop]; destruct (wt <? size) eqn:Elt;
    try (split; [by eapply kept_refl | apply extends_refl]).
  all: rewrite chunk_len_spec by lia;
       remember (Z.min bufsize (size - wt)) as towrite eqn:Htw0;
       assert (Htw : 0 < towrite <= bufsize /\ towrite <= size - wt) by lia;
       pose proof CHUNK_val as HC;
       destruct (fill_random buf towrite w) as [[r buf1] w1] eqn:Efill;
       rewrite to_ssize_t_id by (pose proof (chunk_lt_2_63 towrite); lia);
       pose proof Efill as Efill';
       apply fill_random_frame in Efill' as (Hlen1 & Hframe1); [| lia | apply chunk_lt_2_63; lia];
       pose proof (file_open_random_frame _ _ _ _ _ _ Hframe1 Hopen) as Hopen1;
       destruct Hframe1 as (Hfs1 & _ & _ & _ & _ & Hext1);
       apply (extends_weaken _ (safe_event rp size)) in Hext1; [| apply random_event_safe];
       assert (Hk1 : kept w w1 rp size)
         by (apply (kept_same_fs w w); [done | by eapply kept_refl]);
       destruct (r =? towrite) eqn:Er; cbn [negb snd];
       try (split; [apply (kept_same_fs w w1); [by rewrite bail_fs, vlog_fs | done]
                   | by apply loop_fail_safe]).
  - apply Z.eqb_eq in Er as ->. cbn [os_write]. cbn [snd]. split.
    + apply (kept_same_fs w w1); [by rewrite bail_fs, vlog_fs | done].
    + apply loop_fail_safe. by apply extends_cons.
  - apply Z.eqb_eq in Er as ->.
    pose proof (os_write_kept resp fd buf1 towrite (set_wr_tape tape w1) rp wt size
                  ltac:(lia) ltac:(lia) ltac:(lia) Hopen1) as Hk2.
    destruct (os_write resp fd buf1 towrite (set_wr_tape tape w1)) as [wr w2] eqn:Ew.
    cbn [snd] in Hk2.
    assert (Hk12 : kept w w2 rp size) by (eapply kept_trans; [exact Hk1 | exact Hk2]).
    pose proof Ew as Ew'.
    apply (os_write_spec _ _ _ _ _ _ _ rp wt size) in Ew'; [| lia | lia | lia | exact Hopen1].
    apply fill_random_ok in Efill as (_ & Hrnd1 & _); [| lia | apply chunk_lt_2_63; lia].
    destruct wr as [k| |].
    + destruct Ew' as (Hk & Hopen2 & Htr2 & Hkb).
      destruct (IH verbose fd size bufsize buf1 (wt + k) w2 rp) as [Hk3 Hext3];
        [lia | done | done | lia | done |].
      split; [by eapply kept_trans |].
      eapply extends_trans; [| exact Hext3]. rewrite Htr2. apply extends_cons; [| done].
      simpl. rewrite length_take, bool_decide_eq_true_2 by done.
      rewrite (forallb_take_take is_rnd _ (Z.to_nat towrite)); [| lia | done].
      simpl. rewrite andb_true_r. apply andb_true_intro. split; apply Z.leb_le; lia.
    + destruct Ew' as (Hopen2 & Htr2).
      destruct (IH verbose fd size bufsize buf1 wt w2 rp) as [Hk3 Hext3];
        [lia | done | done | lia | done |].
      split; [by eapply kept_trans |].
      eapply extends_trans; [| exact Hext3]. rewrite Htr2. by apply extends_cons.
    + cbn [snd]. split; [apply (kept_same_fs w w2); [by rewrite bail_fs, vlog_fs | done] |].
      apply loop_fail_safe. rewrite Ew'. by apply extends_cons.
Qed.

Lemma zero_write_loop_safe tape : forall verbose fd size bufsize buf wt w rp,
  0 <= wt <= size -> size <= OFF_MAX -> 0 < bufsize <= CHUNK ->
  bufsize <= Z.of_nat (length buf) ->
  Forall (fun c => is_zero c = true) (take (Z.to_nat bufsize) buf) ->
  file_open w fd rp wt size ->
  kept w (zero_write_loop tape verbose fd size bufsize buf wt w).2 rp size /\
  extends (safe_event rp size) (trace w)
    (trace (zero_write_loop tape verbose fd size bufsize buf wt w).2).
Proof.
  induction tape as [|resp tape IH];
    intros verbose fd size bufsize buf wt w rp Hwt Hsize Hbs Hbuf Hzero Hopen;
    cbn [zero_write_loop]; destruct (wt <? size) eqn:Elt;
    try (split; [by eapply kept_refl | apply extends_refl]).
  all: rewrite chunk_len_spec by lia;
       remember (Z.min bufsize (size - wt)) as towrite eqn:Htw0;
       assert (Htw : 0 < towrite <= bufsize /\ towrite <= size - wt) by lia.
  - cbn [os_write snd]. split.
    + apply (kept_same_fs w w); [by rewrite bail_fs, vlog_fs | by eapply kept_refl].
    + apply loop_fail_safe. apply extends_cons; [done | apply extends_refl].
  - pose proof (os_write_kept resp fd buf towrite (set_wr_tape tape w) rp wt size
                  ltac:(lia) ltac:(lia) ltac:(lia) Hopen) as Hk2.
    destruct (os_write resp fd buf towrite (set_wr_tape tape w)) as [wr w2] eqn:Ew.
    cbn [snd] in Hk2.
    assert (Hk12 : kept w w2 rp size) by (by destruct Hk2).
    pose proof Ew as Ew'.
    apply (os_write_spec _ _ _ _ _ _ _ rp wt size) in Ew'; [| lia | lia | lia | exact Hopen].
    destruct wr as [k| |].
    + destruct Ew' as (Hk & Hopen2 & Htr2 & Hkb).
      destruct (IH verbose fd size bufsize buf (wt + k) w2 rp) as [Hk3 Hext3];
        [lia | done | done | lia | done | done |].
      split; [by eapply kept_trans |].
      eapply extends_trans; [| exact Hext3]. rewrite Htr2.
      apply extends_cons; [| apply extends_refl].
      simpl. rewrite length_take, bool_decide_eq_true_2 by done.
      rewrite (forallb_take_take is_zero _ (Z.to_nat bufsize)); [| lia | done].
      rewrite orb_true_r, andb_true_r. simpl. apply andb_true_intro.
      split; apply Z.leb_le; lia.
    + destruct Ew' as (Hopen2 & Htr2).
      destruct (IH verbose fd size bufsize buf wt w2 rp) as [Hk3 Hext3];
        [lia | done | done | lia | done | done |].
      split; [by eapply kept_trans |].
      eapply extends_trans; [| exact Hext3]. rewrite Htr2.
      apply extends_cons; [done | apply extends_refl].
    + cbn [snd]. split; [apply (kept_same_fs w w2); [by rewrite bail_fs, vlog_fs | done] |].
      apply loop_fail_safe. rewrite Ew'. apply extends_cons; [done | apply extends_refl].
Qed.

Lemma checkpoint_safe rp size v fd w :
  extends (safe_event rp size) (trace w) (trace (checkpoint v fd w)).
Proof.
  destruct (checkpoint_spec v fd w) as (evs & Hevs & _ & Hall & _).
  exists evs. split; [done |]. eapply Forall_impl; [exact Hall |]. intros e He. by destruct e.
Qed.

Lemma lseek0_fs fd w : fs (OS.lseek0 fd w).2 = fs w.
Proof. unfold OS.lseek0, pop. cbn [fst snd]. by repeat case_match. Qed.

Lemma lseek0_safe rp size fd w :
  extends (safe_event rp size) (trace w) (trace (OS.lseek0 fd w).2).
Proof.
  unfold OS.lseek0, pop. cbn [fst snd].
  repeat case_match; simpl; (apply extends_cons; [done | apply extends_refl]).
Qed.

Lemma pass_loop_safe n : forall pass passes path verbose fd size bufsize buf w rp pos,
  0 <= size <= OFF_MAX -> 0 < bufsize <= CHUNK ->
  bufsize <= Z.of_nat (length buf) ->
  file_open w fd rp pos size ->
  kept w (pass_loop n pass passes path verbose fd size bufsize buf w).2 rp size /\
  extends (safe_event rp size) (trace w)
    (trace (pass_loop n pass passes path verbose fd size bufsize buf w).2).
Proof.
  induction n as [|n IH];
    intros pass passes path verbose fd size bufsize buf w rp pos Hsize Hbs Hbuf Hopen;
    cbn [pass_loop]; [split; [by eapply kept_refl | apply extends_refl] |].
  set (w0 := vlog verbose (MsgPass pass passes path) w).
  assert (Hopen0 : file_open w0 fd rp pos size) by (by apply file_open_vlog).
  assert (Hext0 : extends (safe_event rp size) (trace w) (trace w0)) by (by apply vlog_events).
  pose proof (lseek0_fs fd w0) as Hfs1. pose proof (lseek0_safe rp size fd w0) as Hext1.
  destruct (OS.lseek0 fd w0) as [r w1] eqn:Eseek. cbn [snd] in *.
  assert (Hk1 : kept w w1 rp size).
  { apply (kept_same_fs w w); [| by eapply kept_refl]. rewrite Hfs1. apply vlog_fs. }
  assert (Hext01 : extends (safe_event rp size) (trace w) (trace w1)) by (by eapply extends_trans).
  apply (lseek0_spec _ _ _ _ rp pos size) in Eseek; [| done].
  destruct Eseek as [(-> & Hopen1 & _) | (-> & _)].
  2: { change (-1 =? -1) with true. cbv iota. cbn [snd]. split.
       - apply (kept_same_fs w w1); [by rewrite bail_fs, vlog_fs | done].
       - by apply loop_fail_safe. }
  change (0 =? -1) with false. cbv iota.
  destruct (random_write_loop_safe (wr_tape w1) verbose fd size bufsize buf 0 w1 rp)
    as [Hk2 Hext2]; [lia | lia | done | done | done |].
  destruct (random_write_loop (wr_tape w1) verbose fd size bufsize buf 0 w1)
    as [[buf1|] w2] eqn:Eloop; cbn [snd] in *.
  2: { split; [by eapply kept_trans | by eapply extends_trans]. }
  apply (random_write_loop_ok _ _ _ _ _ _ _ _ _ _ rp) in Eloop
    as (Hlen1 & Hopen2 & _); [| lia | lia | done | done | done].
  pose proof (file_open_checkpoint verbose fd _ _ _ _ _ Hopen2) as Hopen3.
  destruct (checkpoint_spec verbose fd w2) as (_ & _ & _ & _ & Hfs3 & _).
  destruct (IH (pass + 1) passes path verbose fd size bufsize buf1 (checkpoint verbose fd w2)
              rp size) as [Hk4 Hext4]; [done | done | lia | done |].
  split.
  - eapply kept_trans; [| exact Hk4]. apply (kept_same_fs w w2); [done |].
    by eapply kept_trans.
  - eapply extends_trans; [| exact Hext4].
    eapply extends_trans; [| apply checkpoint_safe]. by eapply extends_trans.
Qed.

Lemma zero_pass_safe path verbose fd size bufsize buf w rp pos :
  0 <= size <= OFF_MAX -> 0 < bufsize <= CHUNK ->
  bufsize <= Z.of_nat (length buf) ->
  file_open w fd rp pos size ->
  kept w (zero_pass path verbose fd size bufsize buf w).2 rp size /\
  extends (safe_event rp size) (trace w)
    (trace (zero_pass path verbose fd size bufsize buf w).2).
Proof.
  intros Hsize Hbs Hbuf Hopen. unfold zero_pass.
  set (w0 := vlog verbose (MsgFinalZero path) w).
  assert (Hopen0 : file_open w0 fd rp pos size) by (by apply file_open_vlog).
  assert (Hext0 : extends (safe_event rp size) (trace w) (trace w0)) by (by apply vlog_events).
  pose proof (lseek0_fs fd w0) as Hfs1. pose proof (lseek0_safe rp size fd w0) as Hext1.
  destruct (OS.lseek0 fd w0) as [r w1] eqn:Eseek. cbn [snd] in *.
  assert (Hk1 : kept w w1 rp size).
  { apply (kept_same_fs w w); [| by eapply kept_refl]. rewrite Hfs1. apply vlog_fs. }
  assert (Hext01 : extends (safe_event rp size) (trace w) (trace w1)) by (by eapply extends_trans).
  apply (lseek0_spec _ _ _ _ rp pos size) in Eseek; [| done].
  destruct Eseek as [(-> & Hopen1 & _) | (-> & _)].
  2: { change (-1 =? -1) with true. cbv iota. cbn [snd]. split.
       - apply (kept_same_fs w w1); [by rewrite bail_fs, vlog_fs | done].
       - by apply loop_fail_safe. }
  change (0 =? -1) with false. cbv iota.
  set (zbuf := blit 0 (replicate (Z.to_nat bufsize) Zero) buf).
  assert (Hz : Forall (fun c => is_zero c = true) (take (Z.to_nat bufsize) zbuf)).
  { unfold zbuf. rewrite blit_take by (by rewrite length_replicate).
    by apply Forall_replicate. }
  assert (Hzl : length zbuf = length buf).
  { unfold zbuf. apply blit_length; [lia |]. rewrite length_replicate. lia. }
  set (w1' := log (EvMemset bufsize) w1).
  assert (Hopen1' : file_open w1' fd rp 0 size) by done.
  destruct (zero_write_loop_safe (wr_tape w1') verbose fd size bufsize zbuf 0 w1' rp)
    as [Hk2 Hext2]; [lia | lia | done | lia | done | done |].
  assert (Hk12 : kept w (zero_write_loop (wr_tape w1') verbose fd size bufsize zbuf 0 w1').2
                   rp size).
  { eapply kept_trans; [| exact Hk2]. by apply (kept_same_fs w w1). }
  assert (Hext12 : extends (safe_event rp size) (trace w)
            (trace (zero_write_loop (wr_tape w1') verbose fd size bufsize zbuf 0 w1').2)).
  { eapply extends_trans; [| exact Hext2]. by apply extends_cons. }
  destruct (zero_write_loop (wr_tape w1') verbose fd size bufsize zbuf 0 w1')
    as [[buf1|] w2]; cbn [snd] in *; [| done].
  destruct (checkpoint_spec verbose fd w2) as (_ & _ & _ & _ & Hfs3 & _).
  split.
  - by apply (kept_same_fs w w2).
  - eapply extends_trans; [| apply checkpoint_safe]. done.
Qed.

Definition is_write (e : event) : bool :=
  match e with EvWrite _ _ _ _ => true | _ => false end.

Lemma close_fs fd w : fs (OS.close fd w).2 = fs w.
Proof. unfold OS.close, pop. cbn [fst snd]. by repeat case_match. Qed.

Lemma close_safe P fd w :
  (forall e, is_write e = false -> P e = true) ->
  extends P (trace w) (trace (OS.close fd w).2).
Proof.
  intros HP. unfold OS.close, pop. cbn [fst snd].
  repeat case_match; simpl; (apply extends_cons; [by apply HP | apply extends_refl]).
Qed.

Lemma finish_safe rp size (verbose : bool) fd w w0 :
  kept w0 w rp size ->
  extends (safe_event rp size) (trace w0) (trace w) ->
  let w' := (let '(r, w) := OS.close fd w in
             (Return 0, if negb (r =? 0) then vlog verbose (MsgPerror "close") w else w)).2 in
  kept w0 w' rp size /\ extends (safe_event rp size) (trace w0) (trace w').
Proof.
  intros Hk Hext. pose proof (close_fs fd w) as Hfs.
  pose proof (close_safe (safe_event rp size) fd w ltac:(by intros []))  as Hc.
  destruct (OS.close fd w) as [r w1]. cbn [snd] in *.
  destruct (negb (r =? 0)); cbn zeta.
  - split; [apply (kept_same_fs w0 w); [by rewrite vlog_fs | done] |].
    eapply extends_trans; [exact Hext |]. eapply extends_trans; [exact Hc |].
    by apply vlog_events.
  - split; [by apply (kept_same_fs w0 w) |]. by eapply extends_trans.
Qed.

Lemma overwrite_file_regular path passes final_zero verbose w rp data :
  resolve MAXSYMLINKS (fs w) path = Some (rp, NReg data) ->
  let w' := (overwrite_file path passes final_zero verbose w).2 in
  kept w w' rp (Z.of_nat (length data)) /\
  extends (safe_event rp (Z.of_nat (length data))) (trace w) (trace w').
Proof.
  intros Eres. cbn zeta. set (size := Z.of_nat (length data)).
  assert (Hk0 : kept w w rp size).
  { split; [| done]. exists data. split; [| done]. by eapply resolve_lookup. }
  unfold overwrite_file.
  destruct (OS.stat path w) as [st w1] eqn:Estat.
  apply stat_spec in Estat as [-> Hst].
  set (w1 := log _ w).
  assert (Hext1 : extends (safe_event rp size) (trace w) (trace w1)).
  { apply extends_cons; [done | apply extends_refl]. }
  destruct st as [st|].
  2: { cbn [snd]. split; [apply (kept_same_fs w w); [by rewrite vlog_fs | done] |].
       eapply extends_trans; [exact Hext1 |]. by apply vlog_events. }
  destruct Hst as (rp' & nd' & Eres' & Hns). rewrite Eres in Eres'.
  injection Eres' as <- <-.
  destruct (negb (S_ISREG (st_mode st))) eqn:Ereg.
  { cbn [snd]. split; [apply (kept_same_fs w w); [by rewrite vlog_fs | done] |].
    eapply extends_trans; [exact Hext1 |]. by apply vlog_events. }
  apply negb_false_iff in Ereg.
  destruct (node_stat_reg _ _ Hns Ereg) as (data' & [= <-] & Hsz & Hmax).
  rewrite Hsz. fold size.
  destruct (OS.open_wronly path w1) as [fd w2] eqn:Eopen.
  apply open_wronly_spec in Eopen as (Htr2 & Hfs2 & Hopen2).
  assert (Hext2 : extends (safe_event rp size) (trace w) (trace w2)).
  { rewrite Htr2. by apply extends_cons. }
  assert (Hk2 : kept w w2 rp size) by (by apply (kept_same_fs w w)).
  destruct (fd <? 0) eqn:Efd.
  { cbn [snd]. split; [apply (kept_same_fs w w2); [by rewrite vlog_fs | done] |].
    eapply extends_trans; [exact Hext2 |]. by apply vlog_events. }
  destruct (Hopen2 eq_refl) as (rp' & data' & Eres' & Hopen).
  change (fs w1) with (fs w) in Eres'. rewrite Eres in Eres'.
  injection Eres' as <- <-. fold size in Hopen.
  assert (Hsize : 0 <= size <= OFF_MAX) by (unfold size; lia).
  pose proof (bufsize_of_pos size Hsize) as Hbs.
  destruct (alloc_buf (bufsize_of size) w2) as [o w3] eqn:Ealloc.
  apply alloc_buf_spec in Ealloc as (Hfs3 & Hfdt3 & Hnf3 & Ho).
  assert (Hk3 : kept w w3 rp size) by (by apply (kept_same_fs w w2)).
  destruct o as [buf | status].
  2: { destruct Ho as [_ Htr3]. cbn [snd]. split; [done |].
       eapply extends_trans; [exact Hext2 |]. rewrite Htr3.
       apply extends_cons; [done |]. apply extends_cons; [done | apply extends_refl]. }
  destruct Ho as [-> Htr3].
  assert (Hext3 : extends (safe_event rp size) (trace w) (trace w3)).
  { rewrite Htr3. by apply extends_cons. }
  pose proof (file_open_frame _ _ _ _ _ _ Hfs3 Hfdt3 Hnf3 Hopen) as Hopen3.
  set (buf := replicate (Z.to_nat (bufsize_of size)) Junk).
  assert (Hbuf : bufsize_of size <= Z.of_nat (length buf)).
  { unfold buf. rewrite length_replicate. lia. }
  destruct (pass_loop_safe (Z.to_nat passes) 1 passes path verbose fd size
              (bufsize_of size) buf w3 rp 0 Hsize Hbs Hbuf Hopen3) as [Hk4 Hext4].
  destruct (pass_loop (Z.to_nat passes) 1 passes path verbose fd size
              (bufsize_of size) buf w3) as [[buf4|] w4] eqn:Epass; cbn [snd] in Hk4, Hext4.
  2: { cbn [snd]. split; [by eapply kept_trans | by eapply extends_trans]. }
  assert (Hk04 : kept w w4 rp size) by (by eapply kept_trans).
  assert (Hext04 : extends (safe_event rp size) (trace w) (trace w4))
    by (by eapply extends_trans).
  destruct final_zero; [| by apply finish_safe].
  apply (pass_loop_ok _ _ _ _ _ _ _ _ _ _ _ _ rp 0) in Epass
    as (Hlen4 & [pos4 Hopen4] & _); [| done | done | done | done].
  destruct (zero_pass_safe path verbose fd size (bufsize_of size) buf4 w4 rp pos4
              Hsize Hbs ltac:(lia) Hopen4) as [Hk5 Hext5].
  destruct (zero_pass path verbose fd size (bufsize_of size) buf4 w4) as [[buf5|] w5];
    cbn [snd] in Hk5, Hext5.
  2: { cbn [snd]. split; [by eapply kept_trans | by eapply extends_trans]. }
  apply finish_safe; [by eapply kept_trans | by eapply extends_trans].
Qed.

Lemma overwrite_file_other path passes final_zero verbose w :
  (forall rp data, resolve MAXSYMLINKS (fs w) path <> Some (rp, NReg data)) ->
  let w' := (overwrite_file path passes final_zero verbose w).2 in
  fs w' = fs w /\ extends (fun e => negb (is_write e)) (trace w) (trace w').
Proof.
  intros Hres. cbn zeta. unfold overwrite_file.
  destruct (OS.stat path w) as [st w1] eqn:Estat.
  apply stat_spec in Estat as [-> Hst].
  set (w1 := log _ w).
  assert (Hext1 : extends (fun e => negb (is_write e)) (trace w) (trace w1)).
  { apply extends_cons; [done | apply extends_refl]. }
  destruct st as [st|].
  2: { cbn [snd]. split; [by rewrite vlog_fs |].
       eapply extends_trans; [exact Hext1 |]. by apply vlog_events. }
  destruct Hst as (rp & nd & Eres & Hns).
  destruct (negb (S_ISREG (st_mode st))) eqn:Ereg.
  { cbn [snd]. split; [by rewrite vlog_fs |].
    eapply extends_trans; [exact Hext1 |]. by apply vlog_events. }
  apply negb_false_iff in Ereg.
  destruct (node_stat_reg _ _ Hns Ereg) as (data & -> & _). by destruct (Hres rp data).
Qed.

(** X7.  Whatever its outcome, [overwrite_file] leaves the directory as
    it is and writes nowhere but into its target.  No name appears or
    disappears, and no entry changes its kind, no link its target and no
    file its length.  If [path] leads (through symbolic links) to a
    regular file, every [write] issued goes to that file, lies within
    its length, and carries only bytes that the random source delivered
    or only zero bytes, never uninitialised memory or file content.  If
    [path] leads to anything else, or nowhere, the file system is
    unchanged and no [write] is issued at all. *)
Theorem overwrite_file_confined path passes final_zero verbose w :
  let w' := (overwrite_file path passes final_zero verbose w).2 in
  (forall p, shape <$> fs w' !! p = shape <$> fs w !! p) /\
  exists evs, trace w' = evs ++ trace w /\
    match resolve MAXSYMLINKS (fs w) path with
    | Some (rp, NReg data) =>
        Forall (fun e => safe_event rp (Z.of_nat (length data)) e = true) evs
    | _ => fs w' = fs w /\ Forall (fun e => is_write e = false) evs
    end.
Proof.
  cbn zeta.
  assert (Hother : (forall rp data, resolve MAXSYMLINKS (fs w) path <> Some (rp, NReg data)) ->
    (forall p, shape <$> fs (overwrite_file path passes final_zero verbose w).2 !! p
               = shape <$> fs w !! p) /\
    exists evs, trace (overwrite_file path passes final_zero verbose w).2 = evs ++ trace w /\
      fs (overwrite_file path passes final_zero verbose w).2 = fs w /\
      Forall (fun e => is_write e = false) evs).
  { intros Hno.
    destruct (overwrite_file_other path passes final_zero verbose w Hno)
      as [Hfs (evs & Hevs & Hall)].
    split; [intros p; by rewrite Hfs |]. exists evs. split; [done |]. split; [done |].
    eapply Forall_impl; [exact Hall |]. intros e He. by apply negb_true_iff. }
  destruct (resolve MAXSYMLINKS (fs w) path) as [[rp nd]|] eqn:Eres.
  - destruct nd as [data| | | | | |]; try (apply Hother; by intros rp' data' [=]).
    destruct (overwrite_file_regular path passes final_zero verbose w rp data Eres)
      as [[_ Hk] (evs & Hevs & Hall)].
    split; [done |]. by exists evs.
  - apply Hother. by intros rp' data' [=].
Qed.

(** ** Descriptors *)

(** Descriptors are not negative, and every open one is below the next
    one to be handed out. *)
Definition fd_bound (w : world) : Prop :=
  0 <= next_fd w /\ forall fd o, fdt w !! fd = Some o -> fd < next_fd w.

(** From [w] to [w'] only the entry of [fd] may have changed in the
    descriptor table. *)
Definition fd_step (fd : Z) (w w' : world) : Prop :=
  delete fd (fdt w') = delete fd (fdt w) /\ next_fd w <= next_fd w'.

Lemma fd_step_refl fd w : fd_step fd w w.
Proof. split; [done | lia]. Qed.

Lemma fd_step_trans fd w1 w2 w3 : fd_step fd w1 w2 -> fd_step fd w2 w3 -> fd_step fd w1 w3.
Proof. intros [H1 L1] [H2 L2]. split; [by rewrite H2 | lia]. Qed.

Lemma fd_step_same fd w w' : fdt w' = fdt w -> next_fd w <= next_fd w' -> fd_step fd w w'.
Proof. intros H L. split; [by rewrite H | done]. Qed.

Lemma fd_bound_step fd w w' :
  fd_bound w -> fd < next_fd w -> fd_step fd w w' -> fd_bound w'.
Proof.
  intros [H0 Hb] Hfd [Hd Hn]. split; [lia |]. intros fd' o Hfd'.
  destruct (decide (fd' = fd)) as [-> | Hne]; [lia |].
  assert (H : delete fd (fdt w') !! fd' = Some o) by (by rewrite lookup_delete_ne).
  rewrite Hd, lookup_delete_ne in H by done. apply Hb in H. lia.
Qed.

Lemma fd_bound_same w w' :
  fd_bound w -> fdt w' = fdt w -> next_fd w <= next_fd w' -> fd_bound w'.
Proof.
  intros [H0 Hb] Hfdt Hn. split; [lia |]. intros fd o H. rewrite Hfdt in H.
  apply Hb in H. lia.
Qed.

Lemma fd_bound_fresh w : fd_bound w -> fdt w !! next_fd w = None.
Proof.
  intros [_ Hb]. destruct (fdt w !! next_fd w) as [o|] eqn:E; [| done].
  apply Hb in E. lia.
Qed.

(** [fill_random] closes the device it opened. *)
Lemma fill_random_fdt buf len w r buf' w' :
  0 <= len <= Z.of_nat (length buf) -> len < 2 ^ 63 -> fd_bound w ->
  fill_random buf len w = (r, buf', w') ->
  fdt w' = fdt w /\ next_fd w <= next_fd w'.
Proof.
  intros Hlen Hmax Hb. unfold fill_random.
  destruct (getrandom_loop (rnd_tape w) buf 0 len w) as [[left_ buf1] w1] eqn:Eg.
  apply getrandom_loop_spec in Eg
    as (d1 & Hd1 & Hl & -> & _ & Hfdt1 & Hnf1 & _); [| lia | lia | lia].
  destruct (left_ =? 0); [intros [= <- <- <-]; split; [done | lia] |].
  unfold OS.open_urandom, OS.alloc_fd, pop. cbn [fst snd].
  destruct (hd true (plan w1 SOpenUrandom)); cbn [next_fd set_plan set_fdt set_next_fd log].
  2: { change (-1 <? 0) with true. cbv iota. intros [= <- <- <-]. simpl. split; [done | lia]. }
  assert (Hnf : (next_fd w1 <? 0) = false) by (destruct Hb; lia).
  rewrite Hnf.
  match goal with |- context [urandom_loop ?t ?fd ?b ?l ?tot ?w0] =>
    destruct (urandom_loop t fd b l tot w0) as [[total buf2] w2] eqn:Eu end.
  apply urandom_loop_spec in Eu
    as (d2 & _ & _ & _ & _ & Hfdt2 & Hnf2 & _); [| lia | | lia].
  2: { rewrite blit_length; [lia | lia | rewrite length_fmap; lia]. }
  unfold OS.close, pop. cbn [fst snd]. intros [= <- <- <-]. simpl.
  rewrite Hfdt2. simpl. rewrite Hnf2. simpl.
  split; [| lia]. rewrite <- Hfdt1. apply delete_insert_id.
  rewrite Hnf1, Hfdt1. by apply fd_bound_fresh.
Qed.

Lemma os_write_fdt resp fd buf count_ w : fd_step fd w (os_write resp fd buf count_ w).2.
Proof.
  destruct resp as [n| |]; cbn [os_write]; try apply fd_step_refl.
  unfold OS.write_n. repeat case_match; simplify_eq; cbn [snd]; try apply fd_step_refl.
  all: split; simpl; [by rewrite ?delete_insert_eq | lia].
Qed.

Lemma lseek0_fdt fd w : fd_step fd w (OS.lseek0 fd w).2.
Proof.
  unfold OS.lseek0, pop. cbn [fst snd].
  repeat case_match; simplify_eq; cbn [snd]; split; simpl;
    try done; try lia; by rewrite ?delete_insert_eq.
Qed.

Lemma vlog_fdt v m w : fdt (vlog v m w) = fdt w /\ next_fd (vlog v m w) = next_fd w.
Proof. by destruct v. Qed.

Lemma close_fdt fd w :
  fdt (OS.close fd w).2 = delete fd (fdt w) /\ next_fd (OS.close fd w).2 = next_fd w.
Proof. done. Qed.

(** What a loop of [overwrite_file] does to the descriptor table: only
    the entry of [fd] changes, and it is gone when the loop gives up. *)
Definition fd_result {A} (fd : Z) (w : world) (res : option A * world) : Prop :=
  fd_step fd w res.2 /\ (res.1 = None -> fdt res.2 !! fd = None).

Lemma bail_result {A} fd v m w w1 :
  fd_step fd w w1 -> fd_result (A := A) fd w (None, bail fd (vlog v m w1)).
Proof.
  intros [Hd Hn]. destruct (vlog_fdt v m w1) as [Hf Hnf].
  split; cbn [fst snd]; unfold bail.
  - split; simpl; [| by rewrite Hnf].
    rewrite Hf. by rewrite delete_delete_eq.
  - intros _. simpl. by rewrite lookup_delete_eq.
Qed.

Lemma fd_result_trans {A} fd w w1 (res : option A * world) :
  fd_step fd w w1 -> fd_result fd w1 res -> fd_result fd w res.
Proof. intros H1 [H2 H3]. split; [by eapply fd_step_trans | done]. Qed.

Lemma random_write_loop_fdt tape : forall verbose fd size bufsize buf wt w rp,
  0 <= wt <= size -> size <= OFF_MAX -> 0 < bufsize <= CHUNK ->
  bufsize <= Z.of_nat (length buf) ->
  fd_bound w -> file_open w fd rp wt size ->
  fd_result fd w (random_write_loop tape verbose fd size bufsize buf wt w).
Proof.
  induction tape as [|resp tape IH];
    intros verbose fd size bufsize buf wt w rp Hwt Hsize Hbs Hbuf Hb Hopen;
    cbn [random_write_loop]; destruct (wt <? size) eqn:Elt;
    try (split; [apply fd_step_refl | done]).
  all: rewrite chunk_len_spec by lia;
       remember (Z.min bufsize (size - wt)) as towrite eqn:Htw0;
       assert (Htw : 0 < towrite <= bufsize /\ towrite <= size - wt) by lia;
       pose proof CHUNK_val as HC;
       destruct (fill_random buf towrite w) as [[r buf1] w1] eqn:Efill;
       rewrite to_ssize_t_id by (pose proof (chunk_lt_2_63 towrite); lia);
       pose proof Efill as Efill';
       apply fill_random_frame in Efill' as (Hlen1 & Hframe1); [| lia | apply chunk_lt_2_63; lia];
       pose proof (file_open_random_frame _ _ _ _ _ _ Hframe1 Hopen) as Hopen1;
       apply fill_random_fdt in Efill as [Hfdt1 Hnf1]; [| lia | apply chunk_lt_2_63; lia | done];
       assert (Hs1 : fd_step fd w w1) by (by apply fd_step_same);
       assert (Hb1 : fd_bound w1) by (by eapply fd_bound_same);
       destruct (r =? towrite) eqn:Er; cbn [negb];
       try (by apply bail_result).
  apply Z.eqb_eq in Er as ->.
  pose proof (os_write_fdt resp fd buf1 towrite (set_wr_tape tape w1)) as Hs2.
  destruct (os_write resp fd buf1 towrite (set_wr_tape tape w1)) as [wr w2] eqn:Ew.
  cbn [snd] in Hs2.
  assert (Hs12 : fd_step fd w w2) by (eapply fd_step_trans; [exact Hs1 | exact Hs2]).
  assert (Hb2 : fd_bound w2).
  { eapply (fd_bound_step fd w); [done | by destruct Hopen as (_ & ? & _) | done]. }
  apply (os_write_spec _ _ _ _ _ _ _ rp wt size) in Ew; [| lia | lia | lia | exact Hopen1].
  destruct wr as [k| |].
  - destruct Ew as (Hk & Hopen2 & _).
    eapply fd_result_trans; [exact Hs12 |].
    apply (IH verbose fd size bufsize buf1 (wt + k) w2 rp); try done; lia.
  - destruct Ew as (Hopen2 & _).
    eapply fd_result_trans; [exact Hs12 |].
    apply (IH verbose fd size bufsize buf1 wt w2 rp); try done; lia.
  - by apply bail_result.
Qed.

Lemma zero_write_loop_fdt tape : forall verbose fd size bufsize buf wt w rp,
  0 <= wt <= size -> size <= OFF_MAX -> 0 < bufsize <= CHUNK ->
  bufsize <= Z.of_nat (length buf) ->
  file_open w fd rp wt size ->
  fd_result fd w (zero_write_loop tape verbose fd size bufsize buf wt w).
Proof.
  induction tape as [|resp tape IH];
    intros verbose fd size bufsize buf wt w rp Hwt Hsize Hbs Hbuf Hopen;
    cbn [zero_write_loop]; destruct (wt <? size) eqn:Elt;
    try (split; [apply fd_step_refl | done]).
  all: rewrite chunk_len_spec by lia;
       remember (Z.min bufsize (size - wt)) as towrite eqn:Htw0;
       assert (Htw : 0 < towrite <= bufsize /\ towrite <= size - wt) by lia.
  - cbn [os_write]. apply bail_result. by apply fd_step_same.
  - pose proof (os_write_fdt resp fd buf towrite (set_wr_tape tape w)) as Hs2.
    destruct (os_write resp fd buf towrite (set_wr_tape tape w)) as [wr w2] eqn:Ew.
    cbn [snd] in Hs2.
    apply (os_write_spec _ _ _ _ _ _ _ rp wt size) in Ew; [| lia | lia | lia | exact Hopen].
    destruct wr as [k| |].
    + destruct Ew as (Hk & Hopen2 & _).
      eapply fd_result_trans; [exact Hs2 |].
      apply (IH verbose fd size bufsize buf (wt + k) w2 rp); try done; lia.
    + destruct Ew as (Hopen2 & _).
      eapply fd_result_trans; [exact Hs2 |].
      apply (IH verbose fd size bufsize buf wt w2 rp); try done; lia.
    + by apply bail_result.
Qed.

Lemma checkpoint_fdt v fd w : fd_step fd w (checkpoint v fd w).
Proof.
  destruct (checkpoint_spec v fd w) as (_ & _ & _ & _ & _ & Hfdt & Hnf).
  apply fd_step_same; [done | lia].
Qed.

Lemma pass_loop_fdt n : forall pass passes path verbose fd size bufsize buf w rp pos,
  0 <= size <= OFF_MAX -> 0 < bufsize <= CHUNK ->
  bufsize <= Z.of_nat (length buf) ->
  fd_bound w -> file_open w fd rp pos size ->
  fd_result fd w (pass_loop n pass passes path verbose fd size bufsize buf w).
Proof.
  induction n as [|n IH];
    intros pass passes path verbose fd size bufsize buf w rp pos Hsize Hbs Hbuf Hb Hopen;
    cbn [pass_loop]; [split; [apply fd_step_refl | done] |].
  assert (Hfd : fd < next_fd w) by (by destruct Hopen as (_ & ? & _)).
  set (w0 := vlog verbose (MsgPass pass passes path) w).
  assert (Hopen0 : file_open w0 fd rp pos size) by (by apply file_open_vlog).
  destruct (vlog_fdt verbose (MsgPass pass passes path) w) as [Hfdt0 Hnf0]. fold w0 in Hfdt0, Hnf0.
  pose proof (lseek0_fdt fd w0) as Hs1.
  destruct (OS.lseek0 fd w0) as [r w1] eqn:Eseek. cbn [snd] in Hs1.
  assert (Hs01 : fd_step fd w w1).
  { eapply fd_step_trans; [| exact Hs1]. apply fd_step_same; [done | lia]. }
  apply (lseek0_spec _ _ _ _ rp pos size) in Eseek; [| done].
  destruct Eseek as [(-> & Hopen1 & _) | (-> & _)].
  2: { change (-1 =? -1) with true. cbv iota. by apply bail_result. }
  change (0 =? -1) with false. cbv iota.
  assert (Hb1 : fd_bound w1) by (by eapply (fd_bound_step fd w)).
  pose proof (random_write_loop_fdt (wr_tape w1) verbose fd size bufsize buf 0 w1 rp
                ltac:(lia) ltac:(lia) Hbs Hbuf Hb1 Hopen1) as [Hs2 Hnone2].
  destruct (random_write_loop (wr_tape w1) verbose fd size bufsize buf 0 w1)
    as [[buf1|] w2] eqn:Eloop; cbn [fst snd] in *.
  2: { split; [by eapply fd_step_trans | done]. }
  apply (random_write_loop_ok _ _ _ _ _ _ _ _ _ _ rp) in Eloop
    as (Hlen1 & Hopen2 & _); [| lia | lia | done | done | done].
  pose proof (file_open_checkpoint verbose fd _ _ _ _ _ Hopen2) as Hopen3.
  pose proof (checkpoint_fdt verbose fd w2) as Hs3.
  assert (Hs03 : fd_step fd w (checkpoint verbose fd w2)).
  { eapply fd_step_trans; [exact Hs01 |]. by eapply fd_step_trans. }
  eapply fd_result_trans; [exact Hs03 |].
  apply (IH (pass + 1) passes path verbose fd size bufsize buf1 _ rp size);
    [done | done | lia | by eapply (fd_bound_step fd w) | done].
Qed.

Lemma zero_pass_fdt path verbose fd size bufsize buf w rp pos :
  0 <= size <= OFF_MAX -> 0 < bufsize <= CHUNK ->
  bufsize <= Z.of_nat (length buf) ->
  file_open w fd rp pos size ->
  fd_result fd w (zero_pass path verbose fd size bufsize buf w).
Proof.
  intros Hsize Hbs Hbuf Hopen. unfold zero_pass.
  set (w0 := vlog verbose (MsgFinalZero path) w).
  assert (Hopen0 : file_open w0 fd rp pos size) by (by apply file_open_vlog).
  destruct (vlog_fdt verbose (MsgFinalZero path) w) as [Hfdt0 Hnf0]. fold w0 in Hfdt0, Hnf0.
  pose proof (lseek0_fdt fd w0) as Hs1.
  destruct (OS.lseek0 fd w0) as [r w1] eqn:Eseek. cbn [snd] in Hs1.
  assert (Hs01 : fd_step fd w w1).
  { eapply fd_step_trans; [| exact Hs1]. apply fd_step_same; [done | lia]. }
  apply (lseek0_spec _ _ _ _ rp pos size) in Eseek; [| done].
  destruct Eseek as [(-> & Hopen1 & _) | (-> & _)].
  2: { change (-1 =? -1) with true. cbv iota. by apply bail_result. }
  change (0 =? -1) with false. cbv iota.
  set (zbuf := blit 0 (replicate (Z.to_nat bufsize) Zero) buf).
  assert (Hzl : length zbuf = length buf).
  { unfold zbuf. apply blit_length; [lia |]. rewrite length_replicate. lia. }
  set (w1' := log (EvMemset bufsize) w1).
  assert (Hopen1' : file_open w1' fd rp 0 size) by done.
  pose proof (zero_write_loop_fdt (wr_tape w1') verbose fd size bufsize zbuf 0 w1' rp
                ltac:(lia) ltac:(lia) Hbs ltac:(lia) Hopen1') as [Hs2 Hnone2].
  destruct (zero_write_loop (wr_tape w1') verbose fd size bufsize zbuf 0 w1')
    as [[buf1|] w2]; cbn [fst snd] in *.
  2: { split; [eapply fd_step_trans; [exact Hs01 | exact Hs2] | done]. }
  split; [| done]. cbn [snd].
  eapply fd_step_trans; [exact Hs01 |]. eapply fd_step_trans; [exact Hs2 |].
  apply checkpoint_fdt.
Qed.

Lemma vlog_unchanged v m w0 w :
  fdt w0 = fdt w -> next_fd w <= next_fd w0 ->
  fdt (vlog v m w0) = fdt w /\ next_fd w <= next_fd (vlog v m w0).
Proof. by destruct v. Qed.

(** [overwrite_file] returns with the descriptor table as it found it:
    the file descriptor, and the random device [fill_random] may have
    opened, are closed on every path that returns. *)
Lemma overwrite_file_fdt path passes final_zero verbose w r w' :
  fd_bound w ->
  overwrite_file path passes final_zero verbose w = (Return r, w') ->
  fdt w' = fdt w /\ next_fd w <= next_fd w'.
Proof.
  intros Hb. unfold overwrite_file.
  destruct (OS.stat path w) as [st w1] eqn:Estat.
  apply stat_spec in Estat as [-> Hst].
  set (w1 := log _ w).
  destruct st as [st|].
  2: { intros [= <- <-]. by apply vlog_unchanged. }
  destruct Hst as (rp & nd & Eres & Hns).
  destruct (negb (S_ISREG (st_mode st))) eqn:Ereg.
  { intros [= <- <-]. by apply vlog_unchanged. }
  apply negb_false_iff in Ereg.
  destruct (node_stat_reg _ _ Hns Ereg) as (data & -> & Hsz & Hmax).
  rewrite Hsz. set (size := Z.of_nat (length data)).
  assert (Hopen : forall fd w2, OS.open_wronly path w1 = (fd, w2) ->
            fd = -1 /\ fdt w2 = fdt w /\ next_fd w2 = next_fd w \/
            fd = next_fd w /\ fdt w2 = <[fd := OFile rp 0]> (fdt w) /\
            next_fd w2 = next_fd w + 1 /\ file_open w2 fd rp 0 size).
  { intros fd w2 E. pose proof E as E'.
    apply open_wronly_spec in E' as (_ & _ & Hop). revert E Hop.
    unfold OS.open_wronly, OS.alloc_fd, pop. cbn [fst snd].
    destruct (hd true (plan w1 SOpen)); cbn [fs set_plan]; change (fs w1) with (fs w);
      rewrite Eres; intros [= <- <-] Hop; [right | by left].
    simpl. split; [done |]. split; [done |]. split; [done |].
    destruct Hop as (rp' & data' & [= <- <-] & Hop); [destruct Hb; lia | done]. }
  destruct (OS.open_wronly path w1) as [fd w2] eqn:Eopen.
  destruct (Hopen fd w2 eq_refl) as [(-> & Hfdt2 & Hnf2) | (-> & Hfdt2 & Hnf2 & Hopen2)];
    clear Hopen.
  { change (-1 <? 0) with true. cbv iota. intros [= <- <-].
    apply vlog_unchanged; [done | lia]. }
  assert (Hnf : (next_fd w <? 0) = false) by (destruct Hb; lia). rewrite Hnf.
  set (fd := next_fd w) in *.
  assert (Hclosed : forall w3, fd_step fd w2 w3 -> fdt w3 !! fd = None ->
            fdt w3 = fdt w /\ next_fd w <= next_fd w3).
  { intros w3 [Hd Hn] Hnone. split; [| lia].
    rewrite <- (delete_id (fdt w3) fd Hnone), Hd, Hfdt2.
    apply delete_insert_id. by apply fd_bound_fresh. }
  assert (Hb2 : fd_bound w2).
  { destruct Hb as [H0 Hb]. split; [lia |]. intros fd' o. rewrite Hfdt2.
    destruct (decide (fd' = fd)) as [-> | Hne]; [lia |].
    rewrite lookup_insert_ne by done. intros H%Hb. lia. }
  assert (Hsize : 0 <= size <= OFF_MAX) by (unfold size; lia).
  pose proof (bufsize_of_pos size Hsize) as Hbs.
  destruct (alloc_buf (bufsize_of size) w2) as [o w3] eqn:Ealloc.
  apply alloc_buf_spec in Ealloc as (Hfs3 & Hfdt3 & Hnf3 & Ho).
  destruct o as [buf | status]; [| done].
  destruct Ho as [-> _].
  pose proof (file_open_frame _ _ _ _ _ _ Hfs3 Hfdt3 Hnf3 Hopen2) as Hopen3.
  assert (Hs3 : fd_step fd w2 w3) by (apply fd_step_same; [done | lia]).
  assert (Hb3 : fd_bound w3) by (eapply fd_bound_same; [exact Hb2 | done | lia]).
  set (buf := replicate (Z.to_nat (bufsize_of size)) Junk).
  assert (Hbuf : bufsize_of size <= Z.of_nat (length buf)).
  { unfold buf. rewrite length_replicate. lia. }
  assert (Hfinish : forall w4 r w', fd_step fd w2 w4 ->
            (let '(r, w) := OS.close fd w4 in
             (Return 0, if negb (r =? 0) then vlog verbose (MsgPerror "close") w else w))
            = (Return r, w') -> fdt w' = fdt w /\ next_fd w <= next_fd w').
  { intros w4 r0 w0 Hs4. destruct (close_fdt fd w4) as [Hcf Hcn].
    destruct (OS.close fd w4) as [rc w5]. cbn [snd] in Hcf, Hcn.
    intros [= <- <-]. apply Hclosed.
    - destruct Hs4 as [Hd Hn]. unfold fd_step.
      destruct (negb (rc =? 0)); [destruct (vlog_fdt verbose (MsgPerror "close") w5) as [-> ->] |];
        (split; [by rewrite Hcf, delete_delete_eq | lia]).
    - destruct (negb (rc =? 0)); [destruct (vlog_fdt verbose (MsgPerror "close") w5) as [-> _] |];
        by rewrite Hcf, lookup_delete_eq. }
  pose proof (pass_loop_fdt (Z.to_nat passes) 1 passes path verbose fd size
                (bufsize_of size) buf w3 rp 0 Hsize Hbs Hbuf Hb3 Hopen3) as [Hs4 Hnone4].
  destruct (pass_loop (Z.to_nat passes) 1 passes path verbose fd size
              (bufsize_of size) buf w3) as [[buf4|] w4] eqn:Epass; cbn [fst snd] in Hs4, Hnone4.
  2: { intros [= <- <-]. apply Hclosed; [by eapply fd_step_trans | by apply Hnone4]. }
  assert (Hs24 : fd_step fd w2 w4) by (by eapply fd_step_trans).
  destruct final_zero; [| by apply Hfinish].
  apply (pass_loop_ok _ _ _ _ _ _ _ _ _ _ _ _ rp 0) in Epass
    as (Hlen4 & [pos4 Hopen4] & _); [| done | done | done | done].
  pose proof (zero_pass_fdt path verbose fd size (bufsize_of size) buf4 w4 rp pos4
              Hsize Hbs ltac:(lia) Hopen4) as [Hs5 Hnone5].
  destruct (zero_pass path verbose fd size (bufsize_of size) buf4 w4) as [[buf5|] w5];
    cbn [fst snd] in Hs5, Hnone5.
  2: { intros [= <- <-]. apply Hclosed; [by eapply fd_step_trans | by apply Hnone5]. }
  apply Hfinish. by eapply fd_step_trans.
Qed.

Lemma malloc_fdt size w :
  fdt (OS.malloc size w).2 = fdt w /\ next_fd (OS.malloc size w).2 = next_fd w.
Proof. done. Qed.

Lemma random_filename_fdt path w :
  fd_bound w ->
  fdt (random_filename_in_dir path w).2 = fdt w /\
  next_fd w <= next_fd (random_filename_in_dir path w).2.
Proof.
  intros Hb. unfold random_filename_in_dir.
  destruct (malloc_fdt (strlen path + 1) w) as [Hf1 Hn1].
  destruct (OS.malloc (strlen path + 1) w) as [ok w1]. cbn [snd] in Hf1, Hn1.
  destruct ok; cbn [negb]; [| split; [done | simpl; lia]].
  destruct (fill_random (replicate 16 Junk) 16 w1) as [[r buf] w2] eqn:Efill.
  apply fill_random_fdt in Efill as [Hf2 Hn2];
    [| done | done | eapply fd_bound_same; [exact Hb | done | lia]].
  destruct (negb (r =? to_ssize_t 16)); [split; cbn [snd]; [congruence | lia] |].
  match goal with |- context [OS.malloc ?n w2] =>
    destruct (malloc_fdt n w2) as [Hf3 Hn3]; destruct (OS.malloc n w2) as [ok3 w3] end.
  cbn [snd] in Hf3, Hn3.
  destruct ok3; cbn [negb snd]; (split; [congruence | lia]).
Qed.

Lemma sync_dir_fdt newname verbose w :
  fd_bound w ->
  fdt (sync_dir newname verbose w) = fdt w /\ next_fd w <= next_fd (sync_dir newname verbose w).
Proof.
  intros Hb. unfold sync_dir.
  destruct (malloc_fdt (strlen newname + 1) w) as [Hf1 Hn1].
  destruct (OS.malloc (strlen newname + 1) w) as [ok w1]. cbn [snd] in Hf1, Hn1.
  assert (Hb1 : fd_bound w1) by (eapply fd_bound_same; [exact Hb | done | lia]).
  unfold OS.open_dir, OS.alloc_fd.
  destruct (resolve MAXSYMLINKS (fs w1) (if ok then dirname newname else "."%string))
    as [[rp []]|]; try (change (0 <=? -1) with false; cbv iota; simpl; split; [done | lia]).
  assert (Hnf : (0 <=? next_fd w1) = true) by (destruct Hb1; lia). rewrite Hnf.
  unfold OS.fsync, OS.close, pop. cbn [fst snd].
  match goal with |- context [negb ?c] => destruct (negb c) end;
    [destruct verbose |];
    simpl; (split; [| lia]); rewrite <- Hf1; apply delete_insert_id; by apply fd_bound_fresh.
Qed.

(** The descriptor table is as before, and descriptor numbers only grow. *)
Definition fd_kept (w w' : world) : Prop :=
  fdt w' = fdt w /\ next_fd w <= next_fd w'.

Lemma fd_kept_trans w1 w2 w3 : fd_kept w1 w2 -> fd_kept w2 w3 -> fd_kept w1 w3.
Proof. intros [H1 L1] [H2 L2]. split; [congruence | lia]. Qed.

Lemma fd_kept_bound w w' : fd_bound w -> fd_kept w w' -> fd_bound w'.
Proof. intros Hb [H L]. by eapply fd_bound_same. Qed.

Lemma fd_kept_vlog v m w : fd_kept w (vlog v m w).
Proof. destruct v; split; simpl; done || lia. Qed.

Lemma rename_fdt old new w : fd_kept w (OS.rename old new w).2.
Proof.
  unfold OS.rename, pop. cbn [fst snd].
  repeat case_match; simplify_eq; split; simpl; done || lia.
Qed.

Lemma unlink_fdt path w : fd_kept w (OS.unlink path w).2.
Proof.
  unfold OS.unlink, pop. cbn [fst snd].
  repeat case_match; simplify_eq; split; simpl; done || lia.
Qed.

Lemma unlink_original_fdt path verbose st w :
  fd_kept w (unlink_original path verbose st w).2.
Proof.
  unfold unlink_original. pose proof (unlink_fdt path w) as H.
  destruct (OS.unlink path w) as [r w1]. cbn [snd] in H.
  destruct (negb (r =? 0)); cbn [snd]; (eapply fd_kept_trans; [exact H | apply fd_kept_vlog]).
Qed.

Lemma obfuscate_and_remove_fdt path verbose st w :
  fd_bound w -> fd_kept w (obfuscate_and_remove path verbose st w).2.
Proof.
  intros Hb. unfold obfuscate_and_remove.
  pose proof (random_filename_fdt path w Hb) as H1.
  destruct (random_filename_in_dir path w) as [[newname|] w1]; cbn [snd] in H1.
  2: { eapply fd_kept_trans; [exact H1 | apply unlink_original_fdt]. }
  pose proof (rename_fdt path newname w1) as H2.
  destruct (OS.rename path newname w1) as [r w2]. cbn [snd] in H2.
  assert (H12 : fd_kept w w2) by (by eapply fd_kept_trans).
  destruct (negb (r =? 0)).
  { eapply fd_kept_trans; [exact H12 |].
    eapply fd_kept_trans; [apply fd_kept_vlog | apply unlink_original_fdt]. }
  set (w3 := vlog verbose (MsgRenamed path newname) w2).
  assert (H13 : fd_kept w w3) by (eapply fd_kept_trans; [exact H12 | apply fd_kept_vlog]).
  pose proof (sync_dir_fdt newname verbose w3 (fd_kept_bound _ _ Hb H13)) as H4.
  pose proof (unlink_fdt newname (sync_dir newname verbose w3)) as H5.
  destruct (OS.unlink newname (sync_dir newname verbose w3)) as [r5 w5]. cbn [snd] in H5.
  assert (H15 : fd_kept w w5).
  { eapply fd_kept_trans; [exact H13 |]. by eapply fd_kept_trans. }
  destruct (negb (r5 =? 0)); cbn [snd]; (eapply fd_kept_trans; [exact H15 | apply fd_kept_vlog]).
Qed.

Lemma main_loop_fdt files : forall passes final_zero verbose st w r w',
  fd_bound w ->
  main_loop files passes final_zero verbose st w = (Return r, w') ->
  fd_kept w w'.
Proof.
  induction files as [|path rest IH]; intros passes final_zero verbose st w r w' Hb;
    cbn [main_loop].
  - intros [= <- <-]. split; [done | lia].
  - set (w0 := vlog verbose (MsgProcessing path) w).
    assert (H0 : fd_kept w w0) by apply fd_kept_vlog.
    destruct (overwrite_file path passes final_zero verbose w0) as [[r1|status] w1] eqn:Eov;
      [| done].
    apply overwrite_file_fdt in Eov; [| by eapply fd_kept_bound].
    assert (H1 : fd_kept w w1) by (by eapply fd_kept_trans).
    destruct (negb (r1 =? 0)).
    + intros Hrun. apply IH in Hrun.
      * eapply fd_kept_trans; [exact H1 |]. eapply fd_kept_trans; [| exact Hrun]. by split.
      * eapply fd_kept_bound; [exact Hb |]. eapply fd_kept_trans; [exact H1 |]. by split.
    + pose proof (obfuscate_and_remove_fdt path verbose st w1 (fd_kept_bound _ _ Hb H1)) as H2.
      destruct (obfuscate_and_remove path verbose st w1) as [st2 w2]. cbn [snd] in H2.
      intros Hrun. apply IH in Hrun.
      * eapply fd_kept_trans; [exact H1 |]. by eapply fd_kept_trans.
      * eapply fd_kept_bound; [exact Hb |]. by eapply fd_kept_trans.
Qed.

(** X8.  [overwrite_file] leaks no descriptor: whenever it returns, with
    [0] or with [-1], the descriptor table is exactly as it was before the
    call.  The descriptor of the file and the one [fill_random] may open
    on [/dev/urandom] are closed again on every path; only the
    [exit(2)] of a failed allocation leaves the file open. *)
Theorem overwrite_file_closes_descriptors path passes final_zero verbose w r w' :
  fd_bound w ->
  overwrite_file path passes final_zero verbose w = (Return r, w') ->
  fdt w' = fdt w.
Proof. intros Hb Hrun. by destruct (overwrite_file_fdt _ _ _ _ _ _ _ Hb Hrun). Qed.

(** X9.  The loop of [main] over its file arguments leaks no descriptor
    either: when it runs to the end, whatever happened to the single
    files, every descriptor opened meanwhile (files, the random device,
    the directories synced after a rename) has been closed. *)
Theorem main_closes_descriptors files passes final_zero verbose w r w' :
  fd_bound w ->
  main_files files passes final_zero verbose w = (Return r, w') ->
  fdt w' = fdt w.
Proof. intros Hb Hrun. by destruct (main_loop_fdt _ _ _ _ _ _ _ _ Hb Hrun). Qed.

Lemma run_eq {A} (res : A * world) (a : A) : res.1 = a -> res = (a, res.2).
Proof. destruct res. simpl. by intros ->. Qed.

(** [getrandom] fails, the device delivers, the second [write] fails. *)
Definition world_X8 : world :=
  set_wr_tape [WrN 2; WrErr]
    (set_dev_tape [RdBytes bytes_seq; RdBytes bytes_seq]
       (set_rnd_tape [GrErr; GrErr]
          (world0 [("/tmp"%string, NDir);
                ("/tmp/a"%string, NReg [Orig Byte.xaa; Orig Byte.xaa; Orig Byte.xaa])]))).

Lemma overwrite_file_closes_descriptors_witness :
  fdt (overwrite_file "/tmp/a" 1 false false world_X8).2 = fdt world_X8.
Proof.
  apply (overwrite_file_closes_descriptors "/tmp/a" 1 false false world_X8 (-1)).
  - split; [simpl; lia |].
    intros fd o H. exact (False_ind _ (lookup_empty_Some (M := gmap Z) fd o H)).
  - apply run_eq. vm_compute. reflexivity.
Defined.

(** One file is shredded and removed through its directory, one is missing. *)
Definition world_X9 : world :=
  set_wr_tape [WrN 3]
    (set_rnd_tape [GrBytes bytes_seq; GrBytes bytes_seq]
       (world0 [("/tmp"%string, NDir);
                ("/tmp/a"%string, NReg [Orig Byte.xaa; Orig Byte.xaa; Orig Byte.xaa])])).

Lemma main_closes_descriptors_witness :
  fdt (main_files ["/tmp/a"; "/tmp/b"]%string 1 false false world_X9).2 = fdt world_X9.
Proof.
  apply (main_closes_descriptors ["/tmp/a"; "/tmp/b"]%string 1 false false world_X9 2).
  - split; [simpl; lia |].
    intros fd o H. exact (False_ind _ (lookup_empty_Some (M := gmap Z) fd o H)).
  - apply run_eq. vm_compute. reflexivity.
Defined.

(** ** The directory and the digits of the random name *)

Lemma list_of_append s t :
  String.list_ascii_of_string (s +:+ t)
  = String.list_ascii_of_string s ++ String.list_ascii_of_string t.
Proof.
  induction s as [|c s IH]; [done |].
  rewrite str_append_cons. simpl. by rewrite IH.
Qed.

Lemma list_of_inj s t :
  String.list_ascii_of_string s = String.list_ascii_of_string t -> s = t.
Proof.
  intros H. rewrite <- (String.string_of_list_ascii_of_string s),
    <- (String.string_of_list_ascii_of_string t). by rewrite H.
Qed.

Lemma list_of_length s : length (String.list_ascii_of_string s) = String.length s.
Proof. induction s as [|c s IH]; simpl; [done | by rewrite IH]. Qed.

(** What [random_filename_in_dir] returns, in terms of the bytes drawn. *)
Lemma random_filename_out path w out w' :
  random_filename_in_dir path w = (Some out, w') ->
  exists rnd w1,
    fill_random (replicate 16 Junk) 16 (snd (OS.malloc (strlen path + 1) w))
      = (16, rnd, w1) /\
    length rnd = 16%nat /\
    out = dirname path +:+ "/" +:+ hex_of (take 8 rnd).
Proof.
  unfold random_filename_in_dir.
  destruct (OS.malloc (strlen path + 1) w) as [ok w0] eqn:E0. cbn [snd].
  destruct ok; cbn [negb]; [| done].
  destruct (fill_random (replicate 16 Junk) 16 w0) as [[r rnd] w1] eqn:E1.
  change (to_ssize_t 16) with 16.
  destruct (r =? 16) eqn:Er; cbn [negb]; [| done].
  apply Z.eqb_eq in Er as ->.
  destruct (fill_random_frame (replicate 16 Junk) 16 w0 16 rnd w1) as [Hlen _];
    [rewrite length_replicate; lia | done | done |].
  rewrite length_replicate in Hlen.
  change (Z.to_nat (16 / 2)) with 8%nat.
  pose proof (name_loop_spec 8 0 rnd EmptyString ltac:(lia) eq_refl) as Hname.
  change (Z.of_nat 0) with 0 in Hname. rewrite Hname, drop_0, str_append_nil.
  assert (Hl : String.length (hex_of (take 8 rnd)) = 16%nat).
  { rewrite hex_of_length, length_take. lia. }
  change (Z.to_nat 16) with 16%nat. rewrite (str_take_all 16) by lia.
  destruct (OS.malloc _ w1) as [ok2 w2] eqn:E2.
  destruct ok2; cbn [negb]; [| done].
  intros [= <- <-]. exists rnd, w1.
  split; [done |]. split; [done |].
  unfold snprintf. apply str_take_all.
  unfold strlen. rewrite !str_length_append. simpl. lia.
Qed.

(** *** The directory *)





(** [dirname] at work. *)
Lemma dirname_sample :
  dirname <$> ["/tmp/a"; "a"; "a/b/"; "a//b"; "/a"; "/"; "//a"; "//"; "///a"; ""]%string
  = ["/tmp"; "."; "a"; "a"; "/"; "/"; "//"; "//"; "/"; "."]%string.
Proof. vm_compute. reflexivity. Qed.











(** *** The digits *)

Lemma hex_digit_inj i j :
  0 <= i < 16 -> 0 <= j < 16 -> hex_digit i = hex_digit j -> i = j.
Proof.
  intros Hi Hj Heq.
  assert (Hall : forallb (fun a => forallb (fun b =>
             implb (Ascii.eqb (hex_digit (Z.of_nat a)) (hex_digit (Z.of_nat b)))
                   (Nat.eqb a b)) (seq 0 16)) (seq 0 16) = true)
    by (vm_compute; reflexivity).
  rewrite forallb_forall in Hall.
  specialize (Hall (Z.to_nat i) ltac:(apply in_seq; lia)).
  rewrite forallb_forall in Hall.
  specialize (Hall (Z.to_nat j) ltac:(apply in_seq; lia)).
  rewrite !Z2Nat.id in Hall by lia.
  rewrite Heq, Ascii.eqb_refl in Hall. simpl in Hall.
  apply Nat.eqb_eq in Hall. lia.
Qed.

Lemma sprintf_02x_inj u v :
  0 <= u < 256 -> 0 <= v < 256 -> sprintf_02x u = sprintf_02x v -> u = v.
Proof.
  intros Hu Hv [= H1 H2].
  assert (Hq : forall x, 0 <= x < 256 -> 0 <= x / 16 < 16).
  { intros x Hx. split; [apply Z.div_pos; lia | apply Z.div_lt_upper_bound; lia]. }
  assert (Hr : forall x, 0 <= x mod 16 < 16) by (intros x; apply Z.mod_pos_bound; lia).
  apply hex_digit_inj in H1; [| by apply Hq | by apply Hq].
  apply hex_digit_inj in H2; [| apply Hr | apply Hr].
  rewrite (Z.div_mod u 16), (Z.div_mod v 16) by lia. by rewrite H1, H2.
Qed.

Lemma hex_of_cons c cs :
  hex_of (c :: cs)
  = String (hex_digit (cell_value c / 16))
      (String (hex_digit (cell_value c mod 16)) (hex_of cs)).
Proof.
  change (hex_of (c :: cs)) with (sprintf_02x (cell_value c) +:+ hex_of cs).
  unfold sprintf_02x. by rewrite !str_append_cons, str_append_nil.
Qed.

(** The digits determine the bytes. *)
Lemma hex_of_inj cs : forall ds,
  length cs = length ds -> hex_of cs = hex_of ds ->
  cell_value <$> cs = cell_value <$> ds.
Proof.
  induction cs as [|c cs IH]; intros [|d ds] Hlen; try done.
  rewrite !hex_of_cons. intros [= H1 H2 H3]. simpl.
  pose proof (cell_value_range c). pose proof (cell_value_range d).
  f_equal; [| apply IH; [by injection Hlen | done]].
  apply sprintf_02x_inj; [done | done |]. unfold sprintf_02x. by rewrite H1, H2.
Qed.

(** X11.  The random name is an injective rendering of the bytes it is
    made of: if two calls of [random_filename_in_dir] return the same
    name, the first 8 random bytes they drew are the same.  Two calls
    that draw different values there never collide. *)
Theorem random_filename_injective pa wa wa' pb wb wb' out ra wa1 rb wb1 :
  random_filename_in_dir pa wa = (Some out, wa') ->
  random_filename_in_dir pb wb = (Some out, wb') ->
  fill_random (replicate 16 Junk) 16 (snd (OS.malloc (strlen pa + 1) wa)) = (16, ra, wa1) ->
  fill_random (replicate 16 Junk) 16 (snd (OS.malloc (strlen pb + 1) wb)) = (16, rb, wb1) ->
  cell_value <$> take 8 ra = cell_value <$> take 8 rb.
Proof.
  intros (ra' & wa1' & Ea & Hla & ->)%random_filename_out
         (rb' & wb1' & Eb & Hlb & Hout)%random_filename_out Fa Fb.
  rewrite Fa in Ea. rewrite Fb in Eb. injection Ea as <- <-. injection Eb as <- <-.
  apply hex_of_inj; [rewrite !length_take; lia |].
  apply (f_equal String.list_ascii_of_string) in Hout.
  rewrite !list_of_append in Hout.
  rewrite !app_assoc in Hout. apply app_inj_2 in Hout as [_ Hout]; [by apply list_of_inj |].
  rewrite !list_of_length, !hex_of_length, !length_take. lia.
Qed.

(** The same first 8 bytes, different bytes after them. *)
Definition world_X11 : world :=
  set_rnd_tape [GrBytes (take 8 bytes_seq ++ bytes_AA 8)]
    (world0 [("/tmp"%string, NDir);
                ("/tmp/b"%string, NReg [Orig Byte.xaa])]).

Lemma random_filename_injective_witness :
  cell_value <$> take 8 (fill_random (replicate 16 Junk) 16
                           (snd (OS.malloc (strlen "/tmp/a" + 1) world_C1))).1.2
  = cell_value <$> take 8 (fill_random (replicate 16 Junk) 16
                             (snd (OS.malloc (strlen "/tmp/b" + 1) world_X11))).1.2.
Proof.
  apply (random_filename_injective
           "/tmp/a" world_C1 (random_filename_in_dir "/tmp/a" world_C1).2
           "/tmp/b" world_X11 (random_filename_in_dir "/tmp/b" world_X11).2
           "/tmp/00017f80abcdefff"
           _ (fill_random (replicate 16 Junk) 16
                (snd (OS.malloc (strlen "/tmp/a" + 1) world_C1))).2
           _ (fill_random (replicate 16 Junk) 16
                (snd (OS.malloc (strlen "/tmp/b" + 1) world_X11))).2).
  - apply run_eq. vm_compute. reflexivity.
  - apply run_eq. vm_compute. reflexivity.
  - apply run_eq. vm_compute. reflexivity.
  - apply run_eq. vm_compute. reflexivity.
Defined.

(** ** One attempt per file *)

Definition is_unlink (e : event) : bool :=
  match e with EvUnlink _ _ => true | _ => false end.
Definition is_removal (e : event) : bool :=
  match e with EvRename _ _ _ | EvUnlink _ _ => true | _ => false end.
Definition is_failed_msg (e : event) : bool :=
  match e with EvStderr (MsgFailedOverwrite _) => true | _ => false end.

(** The part of the log that belongs to one file argument: the file was
    looked at, and then either the failure message was printed and
    nothing was renamed or unlinked, or no failure message was printed
    and exactly one [unlink] was issued. *)
Definition handled (path : string) (seg : list event) : Prop :=
  (exists ok, EvStat path ok ∈ seg) /\
  (EvStderr (MsgFailedOverwrite path) ∈ seg /\ count is_removal seg = 0%nat \/
   count is_failed_msg seg = 0%nat /\ count is_unlink seg = 1%nat).

Lemma file_event_quiet e :
  file_event e = true -> is_removal e = false /\ is_failed_msg e = false.
Proof. by destruct e as [| | | | | | | | | | | | | | | |[]]. Qed.

Lemma name_event_quiet e :
  name_event e = true -> is_unlink e = false /\ is_failed_msg e = false.
Proof. by destruct e as [| | | | | | | | | | | | | | | |[]]. Qed.

Lemma dir_event_quiet e :
  dir_event e = true -> is_unlink e = false /\ is_failed_msg e = false.
Proof. by destruct e as [| | | | | | | | | | | | | | | |[]]. Qed.

Lemma unlink_original_once path verbose st w :
  exists evs, trace (unlink_original path verbose st w).2 = evs ++ trace w /\
    count is_unlink evs = 1%nat /\ count is_failed_msg evs = 0%nat.
Proof.
  destruct (unlink_original_spec path verbose st w) as (ok & msgs & Htr & _).
  revert Htr. unfold unlink_original.
  destruct (OS.unlink path w) as [r w1] eqn:E.
  apply unlink_spec in E as [(-> & Htr1 & _) | (-> & Htr1 & _)]; intros _.
  - change (negb (0 =? 0)) with false. cbv iota. cbn [snd].
    exists ((if verbose then [EvStderr (MsgUnlinked path)] else []) ++ [EvUnlink path true]).
    split; [rewrite vlog_trace, Htr1; by rewrite <- app_assoc |]. by destruct verbose.
  - change (negb (-1 =? 0)) with true. cbv iota. cbn [snd].
    exists ((if verbose then [EvStderr (MsgPerror "unlink")] else []) ++ [EvUnlink path false]).
    split; [rewrite vlog_trace, Htr1; by rewrite <- app_assoc |]. by destruct verbose.
Qed.

Lemma obfuscate_and_remove_once path verbose st w :
  exists evs, trace (obfuscate_and_remove path verbose st w).2 = evs ++ trace w /\
    count is_unlink evs = 1%nat /\ count is_failed_msg evs = 0%nat.
Proof.
  unfold obfuscate_and_remove.
  destruct (random_filename_frame path w) as (_ & ev1 & Hev1 & Hall1).
  destruct (random_filename_in_dir path w) as [newname w1]. cbn [snd] in *.
  assert (Hu1 : count is_unlink ev1 = 0%nat)
    by (apply (count_none _ _ _ Hall1); intros e He; by apply name_event_quiet).
  assert (Hf1 : count is_failed_msg ev1 = 0%nat)
    by (apply (count_none _ _ _ Hall1); intros e He; by apply name_event_quiet).
  assert (Hfallback : forall w2 ev2,
    trace w2 = ev2 ++ trace w1 ->
    count is_unlink ev2 = 0%nat -> count is_failed_msg ev2 = 0%nat ->
    exists evs, trace (unlink_original path verbose st w2).2 = evs ++ trace w /\
      count is_unlink evs = 1%nat /\ count is_failed_msg evs = 0%nat).
  { intros w2 ev2 Hev2 Hu2 Hf2.
    destruct (unlink_original_once path verbose st w2) as (ev3 & Hev3 & Hu3 & Hf3).
    exists (ev3 ++ ev2 ++ ev1). split; [rewrite Hev3, Hev2, Hev1; by rewrite <- !app_assoc |].
    rewrite !count_app, Hu1, Hu2, Hu3, Hf1, Hf2, Hf3. done. }
  destruct newname as [newname|]; [| by apply (Hfallback w1 [])].
  destruct (OS.rename path newname w1) as [r w2] eqn:Eren.
  apply rename_spec in Eren as [(_ & -> & Htr2 & _) | (-> & Htr2 & _)].
  2: { change (negb (-1 =? 0)) with true. cbv iota.
       apply (Hfallback _ ((if verbose then [EvStderr (MsgPerror "rename")] else []) ++
                           [EvRename path newname false])).
       - rewrite vlog_trace, Htr2. by rewrite <- app_assoc.
       - by destruct verbose.
       - by destruct verbose. }
  change (negb (0 =? 0)) with false. cbv iota.
  set (w3 := vlog verbose (MsgRenamed path newname) w2).
  destruct (sync_dir_frame newname verbose w3) as (_ & _ & ev4 & Hev4 & Hall4).
  assert (Hu4 : count is_unlink ev4 = 0%nat)
    by (apply (count_none _ _ _ Hall4); intros e He; by apply dir_event_quiet).
  assert (Hf4 : count is_failed_msg ev4 = 0%nat)
    by (apply (count_none _ _ _ Hall4); intros e He; by apply dir_event_quiet).
  assert (Htr4 : trace (sync_dir newname verbose w3)
                 = (ev4 ++ (if verbose then [EvStderr (MsgRenamed path newname)] else []) ++
                    [EvRename path newname true] ++ ev1) ++ trace w).
  { rewrite Hev4. unfold w3. rewrite vlog_trace, Htr2, Hev1. by rewrite <- !app_assoc. }
  revert Htr4.
  assert (Hu : count is_unlink
                 (ev4 ++ (if verbose then [EvStderr (MsgRenamed path newname)] else []) ++
                  [EvRename path newname true] ++ ev1) = 0%nat)
    by (rewrite !count_app, Hu4, Hu1; by destruct verbose).
  assert (Hf : count is_failed_msg
                 (ev4 ++ (if verbose then [EvStderr (MsgRenamed path newname)] else []) ++
                  [EvRename path newname true] ++ ev1) = 0%nat)
    by (rewrite !count_app, Hf4, Hf1; by destruct verbose).
  revert Hu Hf.
  generalize (ev4 ++ (if verbose then [EvStderr (MsgRenamed path newname)] else []) ++
              [EvRename path newname true] ++ ev1).
  intros ev5 Hu Hf Htr4.
  destruct (OS.unlink newname (sync_dir newname verbose w3)) as [r w5] eqn:Eun.
  apply unlink_spec in Eun as [(-> & Htr5 & _) | (-> & Htr5 & _)].
  - change (negb (0 =? 0)) with false. cbv iota. cbn [fst snd].
    exists ((if verbose then [EvStderr (MsgUnlinked newname)] else []) ++
            EvUnlink newname true :: ev5).
    split; [rewrite vlog_trace, Htr5, Htr4; exact (app_assoc _ (_ :: _) _) |].
    rewrite !count_app. cbn [count]. rewrite Hu, Hf. by destruct verbose.
  - change (negb (-1 =? 0)) with true. cbv iota. cbn [fst snd].
    exists ((if verbose then [EvStderr (MsgPerror "unlink")] else []) ++
            EvUnlink newname false :: ev5).
    split; [rewrite vlog_trace, Htr5, Htr4; exact (app_assoc _ (_ :: _) _) |].
    rewrite !count_app. cbn [count]. rewrite Hu, Hf. by destruct verbose.
Qed.

Lemma main_loop_handled files passes final_zero verbose : forall st w st' w',
  main_loop files passes final_zero verbose st w = (Return st', w') ->
  exists segs, Forall2 handled files segs /\
    trace w' = concat (reverse segs) ++ trace w.
Proof.
  induction files as [|path rest IH]; intros st w st' w'; cbn [main_loop].
  - intros [= <- <-]. exists []. split; [constructor | done].
  - set (w0 := vlog verbose (MsgProcessing path) w).
    pose proof (overwrite_file_trace path passes final_zero verbose w0)
      as (head & tail & Htr1 & Htail & Hhead & (ok & Hstat) & _).
    destruct (overwrite_file path passes final_zero verbose w0) as [[r|status] w1];
      cbn [fst snd] in *; [| done].
    assert (Hquiet : forall P, (forall e, file_event e = true -> P e = false) ->
              P (EvStderr (MsgProcessing path)) = false ->
              count P (tail ++ head ++
                (if verbose then [EvStderr (MsgProcessing path)] else [])) = 0%nat).
    { intros P HP Hmsg. rewrite !count_app.
      rewrite (count_none _ _ _ Htail (fun e He => HP e (loop_event_file e He))).
      rewrite (count_none _ _ _ Hhead (fun e He => HP e (head_event_file e He))).
      destruct verbose; simpl; [by rewrite Hmsg | done]. }
    pose proof (Hquiet is_removal (fun e He => proj1 (file_event_quiet e He)) eq_refl) as Hr1.
    pose proof (Hquiet is_failed_msg (fun e He => proj2 (file_event_quiet e He)) eq_refl) as Hf1.
    assert (Hu1 : count is_unlink (tail ++ head ++
                (if verbose then [EvStderr (MsgProcessing path)] else [])) = 0%nat).
    { apply Hquiet; [| done]. intros e He.
      destruct (file_event_quiet e He) as [H _]. by destruct e. }
    assert (Htr1' : trace w1 = (tail ++ head ++
              (if verbose then [EvStderr (MsgProcessing path)] else [])) ++ trace w).
    { rewrite Htr1. unfold w0. rewrite vlog_trace. by rewrite <- !app_assoc. }
    assert (Hstat' : exists ok, EvStat path ok ∈ tail ++ head ++
              (if verbose then [EvStderr (MsgProcessing path)] else [])).
    { exists ok. rewrite !elem_of_app. right. by left. }
    clear Htr1 Hstat Htail Hhead Hquiet. revert Htr1' Hr1 Hf1 Hu1 Hstat'.
    generalize (tail ++ head ++ (if verbose then [EvStderr (MsgProcessing path)] else [])).
    intros ev1 Htr1 Hr1 Hf1 Hu1 (ok1 & Hstat).
    assert (Hjoin : forall seg segs w2,
      handled path seg -> trace w2 = seg ++ trace w ->
      Forall2 handled rest segs -> trace w' = concat (reverse segs) ++ trace w2 ->
      exists segs', Forall2 handled (path :: rest) segs' /\
        trace w' = concat (reverse segs') ++ trace w).
    { intros seg segs w2 Hseg Htr2 Hsegs Htr'. exists (seg :: segs).
      split; [by constructor |].
      rewrite Htr', Htr2, reverse_cons, concat_app. simpl.
      by rewrite app_nil_r, <- app_assoc. }
    destruct (negb (r =? 0)).
    + intros Hrun. apply IH in Hrun as (segs & Hsegs & Htr').
      apply (Hjoin (EvStderr (MsgFailedOverwrite path) :: ev1) segs
               (log (EvStderr (MsgFailedOverwrite path)) w1)); try done.
      * split; [exists ok1; by apply elem_of_cons; right |].
        left. split; [apply elem_of_cons; by left | done].
      * simpl. by rewrite Htr1.
    + pose proof (obfuscate_and_remove_once path verbose st w1) as (ev2 & Hev2 & Hu2 & Hf2).
      destruct (obfuscate_and_remove path verbose st w1) as [st1 w2]. cbn [fst snd] in *.
      intros Hrun. apply IH in Hrun as (segs & Hsegs & Htr').
      apply (Hjoin (ev2 ++ ev1) segs w2); try done.
      * split; [exists ok1; apply elem_of_app; by right |].
        right. rewrite !count_app, Hu1, Hu2, Hf1, Hf2. done.
      * rewrite Hev2, Htr1. by rewrite <- app_assoc.
Qed.

(** X12.  [main] handles every file argument exactly once and never
    removes a file it failed to overwrite.  When the loop over the files
    returns, its log splits into one part per argument, in order; in each
    part the file was looked at with [stat], and either the message
    "Failed to securely overwrite" was printed for it and no [rename] or
    [unlink] was issued at all, or no such message was printed and
    exactly one [unlink] was issued. *)
Theorem main_handles_each_file_once files passes final_zero verbose w st w' :
  main_files files passes final_zero verbose w = (Return st, w') ->
  exists segs, Forall2 handled files segs /\
    trace w' = concat (reverse segs) ++ trace w.
Proof. apply main_loop_handled. Qed.

Lemma main_handles_each_file_once_witness :
  exists segs, Forall2 handled ["/tmp/a"; "/tmp/b"]%string segs /\
    trace (main_files ["/tmp/a"; "/tmp/b"]%string 1 false false world_X9).2
    = concat (reverse segs) ++ trace world_X9.
Proof.
  apply (main_handles_each_file_once ["/tmp/a"; "/tmp/b"]%string 1 false false world_X9 2).
  apply run_eq. vm_compute. reflexivity.
Defined.

(** ** The bounds of [fill_random] *)

Lemma blit_drop (n : nat) src dst :
  (length src <= n)%nat -> drop n (blit 0 src dst) = drop n dst.
Proof.
  intros H. apply list_eq. intros i. rewrite !lookup_drop.
  apply blit_lookup_ge. lia.
Qed.

Lemma pair_eq {A B} (p : A * B) (a : A) : p.1 = a -> p = (a, p.2).
Proof. destruct p. simpl. by intros ->. Qed.

(** X13.  [fill_random] stays inside the range it was given: the buffer
    keeps its length and every cell from [len] on is untouched, whatever
    the result.  A result that is not negative counts random bytes: the
    first [r] cells of the buffer are random then, also when [r] is a
    short count after an early end of [/dev/urandom]. *)
Theorem fill_random_in_bounds buf len w r buf' w' :
  0 <= len <= Z.of_nat (length buf) -> len < 2 ^ 63 ->
  fill_random buf len w = (r, buf', w') ->
  length buf' = length buf /\
  drop (Z.to_nat len) buf' = drop (Z.to_nat len) buf /\
  (0 <= r -> r <= len /\ Forall (fun c => is_rnd c = true) (take (Z.to_nat r) buf')).
Proof.
  intros Hlen Hmax Hrun. pose proof Hrun as Hspec.
  apply fill_random_spec in Hspec as (d1 & d2 & Hbuf & H1 & H2 & Hr & _); try done.
  split; [subst buf'; apply blit2_length; lia |].
  split.
  { subst buf'. rewrite !blit_drop; [done | |]; rewrite length_fmap; lia. }
  intros Hr0.
  destruct Hr as [[-> _] | (Hne & Hd1 & Hd2 & [-> | ->])]; [| lia |].
  - split; [lia |]. by destruct (fill_random_ok buf len w buf' w' Hlen Hmax Hrun) as (_ & ? & _).
  - split; [lia |]. subst buf'. rewrite Nat2Z.id.
    rewrite blit_take by (by rewrite length_fmap).
    apply Forall_fmap. by apply Forall_true.
Qed.

(** [getrandom] gives 2 bytes and fails, the device gives 3 and ends. *)
Definition world_X13 : world :=
  set_dev_tape [RdEintr; RdBytes (take 3 bytes_seq)]
    (set_rnd_tape [GrBytes (take 2 bytes_seq); GrErr] (world0 [])).

Lemma fill_random_in_bounds_witness :
  let res := fill_random (replicate 6 Junk) 4 world_X13 in
  length res.1.2 = length (replicate 6 Junk) /\
  drop (Z.to_nat 4) res.1.2 = drop (Z.to_nat 4) (replicate 6 Junk) /\
  (0 <= 3 -> 3 <= 4 /\ Forall (fun c => is_rnd c = true) (take (Z.to_nat 3) res.1.2)).
Proof.
  intros res.
  apply (fill_random_in_bounds (replicate 6 Junk) 4 world_X13 3 res.1.2 res.2).
  - simpl. lia.
  - reflexivity.
  - unfold res. apply run_eq. apply pair_eq. vm_compute. reflexivity.
Defined.

(** ** No pass at all *)

Definition idle_event (e : event) : bool :=
  match e with
  | EvStat _ _ | EvOpen _ _ | EvMalloc _ _ | EvClose _ | EvStderr _ => true
  | _ => false
  end.

(** X14.  With a pass count of 0 or less and no zero pass,
    [overwrite_file] writes nothing and draws no random byte, and the file
    system is unchanged; still it returns 0, as after a completed
    overwrite, exactly when the file could be opened.  ([main] never
    calls it so: it raises the pass count to 1.) *)
Theorem overwrite_file_without_pass path passes verbose w r w' :
  passes <= 0 ->
  overwrite_file path passes false verbose w = (Return r, w') ->
  fs w' = fs w /\
  exists evs, trace w' = evs ++ trace w /\
    Forall (fun e => idle_event e = true) evs /\
    (r = 0 <-> exists fd, 0 <= fd /\ EvOpen path fd ∈ evs).
Proof.
  intros Hp. unfold overwrite_file.
  replace (Z.to_nat passes) with 0%nat by lia. cbn [pass_loop].
  destruct (OS.stat path w) as [st w1] eqn:Estat.
  apply stat_spec in Estat as [-> _].
  set (ok := bool_decide (is_Some st)). clearbody ok.
  assert (Hno : forall m evs, evs = (if verbose then [EvStderr m] else []) ++ [EvStat path ok] ->
            Forall (fun e => idle_event e = true) evs /\
            (-1 = 0 <-> exists fd, 0 <= fd /\ EvOpen path fd ∈ evs)).
  { intros m evs ->. split; [destruct verbose; by repeat constructor |].
    split; [done |]. intros (fd & Hfd & Hin). destruct verbose; in_cases Hin; done. }
  destruct st as [st|].
  2: { intros [= <- <-]. split; [by rewrite vlog_fs |].
       eexists. split; [rewrite vlog_trace; exact (app_assoc _ [_] _) |]. by eapply Hno. }
  destruct (negb (S_ISREG (st_mode st))).
  { intros [= <- <-]. split; [by rewrite vlog_fs |].
    eexists. split; [rewrite vlog_trace; exact (app_assoc _ [_] _) |]. by eapply Hno. }
  clear Hno.
  destruct (OS.open_wronly path (log (EvStat path ok) w)) as [fd w2] eqn:Eopen.
  apply open_wronly_spec in Eopen as (Htr2 & Hfs2 & _).
  destruct (fd <? 0) eqn:Efd.
  { intros [= <- <-]. split; [by rewrite vlog_fs |].
    exists ((if verbose then [EvStderr (MsgPerror "open")] else []) ++
            [EvOpen path fd; EvStat path ok]).
    split; [rewrite vlog_trace, Htr2; by rewrite <- app_assoc |].
    split; [destruct verbose; by repeat constructor |].
    split; [done |]. intros (fd' & Hfd' & Hin).
    destruct verbose; in_cases Hin; simplify_eq; lia. }
  destruct (alloc_buf (bufsize_of (st_size st)) w2) as [o w3] eqn:Ealloc.
  apply alloc_buf_spec in Ealloc as (Hfs3 & _ & _ & Ho).
  destruct o as [buf|status]; [| done]. destruct Ho as [_ Htr3].
  unfold OS.close, pop. cbn [fst snd].
  intros [= <- <-].
  split.
  { destruct (negb _); [rewrite vlog_fs |]; simpl; by rewrite Hfs3, Hfs2. }
  exists ((if negb ((if hd true (plan w3 SClose) then 0 else -1) =? 0)
           then (if verbose then [EvStderr (MsgPerror "close")] else []) else []) ++
          [EvClose fd; EvMalloc (bufsize_of (st_size st)) true; EvOpen path fd; EvStat path ok]).
  split.
  { destruct (negb _); [rewrite vlog_trace |]; simpl; rewrite Htr3, Htr2;
      [by rewrite <- app_assoc | done]. }
  split; [destruct (negb _); [destruct verbose |]; by repeat constructor |].
  split; [| done]. intros _. exists fd. split; [lia |].
  apply elem_of_app. right. in_list.
Qed.

Lemma overwrite_file_without_pass_witness :
  fs (overwrite_file "/tmp/a" 0 false true world_C8).2 = fs world_C8 /\
  exists evs,
    trace (overwrite_file "/tmp/a" 0 false true world_C8).2 = evs ++ trace world_C8 /\
    Forall (fun e => idle_event e = true) evs /\
    (0 = 0 <-> exists fd, 0 <= fd /\ EvOpen "/tmp/a" fd ∈ evs).
Proof.
  apply (overwrite_file_without_pass "/tmp/a" 0 true world_C8 0).
  - lia.
  - apply run_eq. vm_compute. reflexivity.
Defined.

(** ** The options of [main] *)

(** The option loop of [main].  [getopt] is taken by what it returns,
    call after call, until it returns [-1]: the option character, and
    with it the value of [atoi(optarg)], which only ['n'] reads.
    [None]: the usage message is printed and [main] returns 1. *)
Fixpoint option_loop (opts : list (ascii * Z)) (passes : Z) (final_zero verbose : bool)
  : option (Z * bool * bool) :=
  match opts with
  | [] => Some (passes, final_zero, verbose)
  | (opt, atoi_optarg) :: rest =>
      if Ascii.eqb opt "n" then
        let passes := atoi_optarg in
        let passes := if passes <? 1 then 1 else passes in
        option_loop rest passes final_zero verbose
      else if Ascii.eqb opt "z" then option_loop rest passes true verbose
      else if Ascii.eqb opt "v" then option_loop rest passes final_zero true
      else None
  end.

(** [int passes = 3; bool final_zero = false; bool verbose = false;] *)
Definition parse_options (opts : list (ascii * Z)) : option (Z * bool * bool) :=
  option_loop opts 3 false false.

(** The values given with [-n], in order. *)
Definition n_values (opts : list (ascii * Z)) : list Z :=
  (filter (fun o => o.1 = "n"%char) opts).*2.

Definition known_option (c : ascii) : bool :=
  Ascii.eqb c "n" || Ascii.eqb c "z" || Ascii.eqb c "v".

Lemma given_cons_ne (c d : ascii) (x : Z) opts :
  c <> d -> bool_decide (c ∈ ((d, x) :: opts).*1) = bool_decide (c ∈ opts.*1).
Proof.
  intros Hne. apply bool_decide_ext. rewrite fmap_cons, elem_of_cons.
  split; [by intros [? | ?] | by right].
Qed.

Lemma given_cons_eq (c : ascii) (x : Z) opts :
  bool_decide (c ∈ ((c, x) :: opts).*1) = true.
Proof. apply bool_decide_eq_true_2. rewrite fmap_cons. by left. Qed.

Lemma n_values_cons (c : ascii) (x : Z) opts :
  n_values ((c, x) :: opts) = if Ascii.eqb c "n" then x :: n_values opts else n_values opts.
Proof.
  unfold n_values. destruct (Ascii.eqb c "n") eqn:E.
  - apply Ascii.eqb_eq in E as ->. by rewrite filter_cons_True.
  - apply Ascii.eqb_neq in E. by rewrite filter_cons_False.
Qed.

Lemma option_loop_spec opts : forall p0 z0 v0,
  if forallb (fun o => known_option o.1) opts then
    option_loop opts p0 z0 v0
    = Some (match last (n_values opts) with Some x => Z.max 1 x | None => p0 end,
            z0 || bool_decide ("z"%char ∈ opts.*1),
            v0 || bool_decide ("v"%char ∈ opts.*1))
  else option_loop opts p0 z0 v0 = None.
Proof.
  induction opts as [|[c x] opts IH]; intros p0 z0 v0.
  - simpl. by rewrite !orb_false_r.
  - rewrite n_values_cons. cbn [forallb option_loop fst]. unfold known_option at 1.
    destruct (Ascii.eqb c "n") eqn:En; [| destruct (Ascii.eqb c "z") eqn:Ez;
      [| destruct (Ascii.eqb c "v") eqn:Ev]]; cbn [orb andb]; [| | | done].
    + apply Ascii.eqb_eq in En as ->.
      specialize (IH (if x <? 1 then 1 else x) z0 v0).
      destruct (forallb _ opts); [| done]. rewrite IH.
      rewrite !given_cons_ne by done. rewrite last_cons.
      destruct (last (n_values opts)); [done |].
      replace (if x <? 1 then 1 else x) with (Z.max 1 x); [done |].
      destruct (Z.ltb_spec x 1); lia.
    + apply Ascii.eqb_eq in Ez as ->.
      specialize (IH p0 true v0).
      destruct (forallb _ opts); [| done]. rewrite IH.
      rewrite given_cons_eq, given_cons_ne by done. by rewrite orb_true_r.
    + apply Ascii.eqb_eq in Ev as ->.
      specialize (IH p0 z0 true).
      destruct (forallb _ opts); [| done]. rewrite IH.
      rewrite given_cons_eq, given_cons_ne by done. by rewrite orb_true_r.
Qed.

Lemma forallb_false_Exists {A} (f : A -> bool) l :
  forallb f l = false -> Exists (fun a => f a = false) l.
Proof.
  induction l as [|a l IH]; simpl; [done |].
  destruct (f a) eqn:E; [| by left]. intros H. right. by apply IH.
Qed.

(** X15.  The options of [main] in closed form.  If [getopt] returns
    anything but ['n'], ['z'] or ['v'] at some point, the loop ends in
    the usage exit ([return 1]), whatever was given before or after.
    Otherwise the pass count is the value of the last [-n], raised to 1
    if it is less (so [-n 0], a negative or a non-numeric argument mean
    one pass), or 3 without [-n]: it is never below 1; the zero pass and
    verbosity are on exactly when [-z] resp. [-v] occurs. *)
Theorem parse_options_spec opts :
  match parse_options opts with
  | Some (passes, final_zero, verbose) =>
      Forall (fun o => known_option o.1 = true) opts /\
      1 <= passes /\
      passes = match last (n_values opts) with Some x => Z.max 1 x | None => 3 end /\
      final_zero = bool_decide ("z"%char ∈ opts.*1) /\
      verbose = bool_decide ("v"%char ∈ opts.*1)
  | None => Exists (fun o => known_option o.1 = false) opts
  end.
Proof.
  unfold parse_options. pose proof (option_loop_spec opts 3 false false) as H.
  destruct (forallb (fun o => known_option o.1) opts) eqn:E.
  - rewrite H. split; [| split; [destruct (last _); lia | done]].
    apply Forall_forall. intros o Ho. rewrite forallb_forall in E. apply E.
    by apply list_elem_of_In.
  - rewrite H. by apply forallb_false_Exists.
Qed.

(** ** What is left in the file *)

(** The first [n] cells of the file [rp] are all of kind [P]. *)
Definition filled (P : cell -> bool) (w : world) (rp : string) (n : Z) : Prop :=
  exists data, fs w !! rp = Some (NReg data) /\
    Forall (fun c => P c = true) (take (Z.to_nat n) data).

Lemma filled_same_fs P w w' rp n : fs w' = fs w -> filled P w rp n -> filled P w' rp n.
Proof. intros Hfs (data & Hdata & Hall). exists data. by rewrite Hfs. Qed.

Lemma filled_0 P w fd rp pos size : file_open w fd rp pos size -> filled P w rp 0.
Proof. intros (_ & _ & data & Hdata & _). exists data. split; [done | constructor]. Qed.

Lemma Forall_take_le {A} (P : A -> Prop) (m n : nat) (l : list A) :
  (m <= n)%nat -> Forall P (take n l) -> Forall P (take m l).
Proof.
  intros Hmn Hall. replace m with (Nat.min m n) by lia.
  rewrite <- take_take. by apply Forall_take.
Qed.

Lemma os_write_filled P resp fd buf count_ w wr w1 rp pos size :
  0 <= count_ -> pos + count_ <= size -> 0 <= pos ->
  file_open w fd rp pos size -> filled P w rp pos ->
  Forall (fun c => P c = true) (take (Z.to_nat count_) buf) ->
  os_write resp fd buf count_ w = (wr, w1) ->
  match wr with
  | IoOk k => filled P w1 rp (pos + k)
  | IoEintr => filled P w1 rp pos
  | IoErr => True
  end.
Proof.
  intros Hc Hfit Hpos (Hfd & Hlt & data & Hdata & Hlen) (data' & Hdata' & Hall) Hbuf.
  rewrite Hdata in Hdata'. injection Hdata' as <-.
  destruct resp as [n| |]; simpl.
  - unfold OS.write_n. rewrite Hfd, Hdata.
    set (src := take (Nat.min n (Z.to_nat count_)) buf).
    assert (Hsrc : Z.of_nat (length src) <= count_).
    { unfold src. rewrite length_take. lia. }
    destruct (Z.of_nat (length src) <? 0) eqn:E; [lia |].
    intros [= <- <-]. exists (OS.file_write pos src data).
    split; [simpl; by rewrite lookup_insert_eq |].
    unfold OS.file_write.
    replace (Z.to_nat pos - length data)%nat with 0%nat by lia.
    simpl. rewrite app_nil_r. unfold blit.
    replace (Z.to_nat (pos + Z.of_nat (length src)))
      with (length (take (Z.to_nat pos) data) + length src)%nat
      by (rewrite length_take; lia).
    rewrite app_assoc, take_app_length'; [| by rewrite length_app].
    apply Forall_app. split; [done |].
    unfold src. eapply Forall_take_le; [| exact Hbuf]. lia.
  - intros [= <- <-]. by exists data.
  - by intros [= <- <-].
Qed.

Lemma random_write_loop_filled tape : forall verbose fd size bufsize buf wt w buf' w' rp,
  0 <= wt <= size -> size <= OFF_MAX -> 0 < bufsize <= CHUNK ->
  bufsize <= Z.of_nat (length buf) ->
  file_open w fd rp wt size -> filled is_rnd w rp wt ->
  random_write_loop tape verbose fd size bufsize buf wt w = (Some buf', w') ->
  filled is_rnd w' rp size.
Proof.
  induction tape as [|resp tape IH];
    intros verbose fd size bufsize buf wt w buf' w' rp Hwt Hsize Hbs Hbuf Hopen Hfill;
    cbn [random_write_loop]; destruct (wt <? size) eqn:Elt;
    try (intros [= <- <-]; by replace size with wt by lia).
  all: rewrite chunk_len_spec by lia;
       remember (Z.min bufsize (size - wt)) as towrite eqn:Htw0;
       assert (Htw : 0 < towrite <= bufsize /\ towrite <= size - wt) by lia;
       pose proof CHUNK_val as HC;
       destruct (fill_random buf towrite w) as [[r buf1] w1] eqn:Efill;
       rewrite to_ssize_t_id by (pose proof (chunk_lt_2_63 towrite); lia);
       destruct (r =? towrite) eqn:Er; cbn [negb]; [| done].
  - cbn [os_write]. done.
  - apply Z.eqb_eq in Er as ->.
    pose proof Efill as Efill'.
    apply fill_random_frame in Efill' as (Hlen1 & Hframe1); [| lia | apply chunk_lt_2_63; lia].
    pose proof (file_open_random_frame _ _ _ _ _ _ Hframe1 Hopen) as Hopen1.
    destruct Hframe1 as (Hfs1 & _).
    apply fill_random_ok in Efill as (_ & Hrnd1 & _); [| lia | apply chunk_lt_2_63; lia].
    assert (Hfill1 : filled is_rnd w1 rp wt) by (by apply (filled_same_fs _ w)).
    destruct (os_write resp fd buf1 towrite (set_wr_tape tape w1)) as [wr w2] eqn:Ew.
    pose proof Ew as Ew'.
    apply (os_write_spec _ _ _ _ _ _ _ rp wt size) in Ew'; [| lia | lia | lia | exact Hopen1].
    apply (os_write_filled is_rnd _ _ _ _ _ _ _ rp wt size) in Ew;
      [| lia | lia | lia | exact Hopen1 | exact Hfill1 | exact Hrnd1].
    destruct wr as [k| |]; [| | done].
    + destruct Ew' as (Hk & Hopen2 & _).
      apply (IH verbose fd size bufsize buf1 (wt + k) w2 buf' w' rp); try done; lia.
    + destruct Ew' as (Hopen2 & _).
      apply (IH verbose fd size bufsize buf1 wt w2 buf' w' rp); try done; lia.
Qed.

Lemma zero_write_loop_filled tape : forall verbose fd size bufsize buf wt w buf' w' rp,
  0 <= wt <= size -> size <= OFF_MAX -> 0 < bufsize <= CHUNK ->
  bufsize <= Z.of_nat (length buf) ->
  Forall (fun c => is_zero c = true) (take (Z.to_nat bufsize) buf) ->
  file_open w fd rp wt size -> filled is_zero w rp wt ->
  zero_write_loop tape verbose fd size bufsize buf wt w = (Some buf', w') ->
  filled is_zero w' rp size.
Proof.
  induction tape as [|resp tape IH];
    intros verbose fd size bufsize buf wt w buf' w' rp Hwt Hsize Hbs Hbuf Hzero Hopen Hfill;
    cbn [zero_write_loop]; destruct (wt <? size) eqn:Elt;
    try (intros [= <- <-]; by replace size with wt by lia).
  all: rewrite chunk_len_spec by lia;
       remember (Z.min bufsize (size - wt)) as towrite eqn:Htw0;
       assert (Htw : 0 < towrite <= bufsize /\ towrite <= size - wt) by lia.
  destruct (os_write resp fd buf towrite (set_wr_tape tape w)) as [wr w2] eqn:Ew.
  pose proof Ew as Ew'.
  apply (os_write_spec _ _ _ _ _ _ _ rp wt size) in Ew'; [| lia | lia | lia | exact Hopen].
  apply (os_write_filled is_zero _ _ _ _ _ _ _ rp wt size) in Ew;
    [| lia | lia | lia | exact Hopen | exact Hfill
     | eapply Forall_take_le; [| exact Hzero]; lia].
  destruct wr as [k| |]; [| | done].
  - destruct Ew' as (Hk & Hopen2 & _).
    apply (IH verbose fd size bufsize buf (wt + k) w2 buf' w' rp); try done; lia.
  - destruct Ew' as (Hopen2 & _).
    apply (IH verbose fd size bufsize buf wt w2 buf' w' rp); try done; lia.
Qed.

Lemma pass_loop_filled n : forall pass passes path verbose fd size bufsize buf w buf' w' rp pos,
  0 <= size <= OFF_MAX -> 0 < bufsize <= CHUNK ->
  bufsize <= Z.of_nat (length buf) ->
  file_open w fd rp pos size ->
  (0 < n)%nat \/ filled is_rnd w rp size ->
  pass_loop n pass passes path verbose fd size bufsize buf w = (Some buf', w') ->
  filled is_rnd w' rp size.
Proof.
  induction n as [|n IH];
    intros pass passes path verbose fd size bufsize buf w buf' w' rp pos
      Hsize Hbs Hbuf Hopen Hstart; cbn [pass_loop].
  { intros [= <- <-]. destruct Hstart as [? | ?]; [lia | done]. }
  set (w0 := vlog verbose (MsgPass pass passes path) w).
  assert (Hopen0 : file_open w0 fd rp pos size) by (by apply file_open_vlog).
  destruct (OS.lseek0 fd w0) as [r w1] eqn:Eseek.
  apply (lseek0_spec _ _ _ _ rp pos size) in Eseek; [| done].
  destruct Eseek as [(-> & Hopen1 & _) | (-> & _)]; [| done].
  change (0 =? -1) with false. cbv iota.
  destruct (random_write_loop (wr_tape w1) verbose fd size bufsize buf 0 w1)
    as [[buf1|] w2] eqn:Eloop; [| done].
  pose proof Eloop as Eloop'.
  apply (random_write_loop_filled _ _ _ _ _ _ _ _ _ _ rp) in Eloop';
    [| lia | lia | done | done | done | by eapply filled_0].
  apply (random_write_loop_ok _ _ _ _ _ _ _ _ _ _ rp) in Eloop
    as (Hlen1 & Hopen2 & _); [| lia | lia | done | done | done].
  destruct (checkpoint_spec verbose fd w2) as (_ & _ & _ & _ & Hfs3 & _).
  apply (IH _ _ _ _ _ _ _ _ _ _ _ rp size); try done; [lia | by apply file_open_checkpoint |].
  right. by apply (filled_same_fs _ w2).
Qed.

Lemma zero_pass_filled path verbose fd size bufsize buf w buf' w' rp pos :
  0 <= size <= OFF_MAX -> 0 < bufsize <= CHUNK ->
  bufsize <= Z.of_nat (length buf) ->
  file_open w fd rp pos size ->
  zero_pass path verbose fd size bufsize buf w = (Some buf', w') ->
  filled is_zero w' rp size.
Proof.
  intros Hsize Hbs Hbuf Hopen. unfold zero_pass.
  set (w0 := vlog verbose (MsgFinalZero path) w).
  assert (Hopen0 : file_open w0 fd rp pos size) by (by apply file_open_vlog).
  destruct (OS.lseek0 fd w0) as [r w1] eqn:Eseek.
  apply (lseek0_spec _ _ _ _ rp pos size) in Eseek; [| done].
  destruct Eseek as [(-> & Hopen1 & _) | (-> & _)]; [| done].
  change (0 =? -1) with false. cbv iota.
  set (zbuf := blit 0 (replicate (Z.to_nat bufsize) Zero) buf).
  assert (Hz : Forall (fun c => is_zero c = true) (take (Z.to_nat bufsize) zbuf)).
  { unfold zbuf. rewrite blit_take by (by rewrite length_replicate).
    by apply Forall_replicate. }
  assert (Hzl : length zbuf = length buf).
  { unfold zbuf. apply blit_length; [lia |]. rewrite length_replicate. lia. }
  set (w1' := log (EvMemset bufsize) w1).
  assert (Hopen1' : file_open w1' fd rp 0 size) by done.
  destruct (zero_write_loop (wr_tape w1') verbose fd size bufsize zbuf 0 w1')
    as [[buf1|] w2] eqn:Eloop; [| done].
  apply (zero_write_loop_filled _ _ _ _ _ _ _ _ _ _ rp) in Eloop;
    [| lia | lia | done | lia | done | done | by eapply filled_0].
  intros [= <- <-].
  destruct (checkpoint_spec verbose fd w2) as (_ & _ & _ & _ & Hfs3 & _).
  by apply (filled_same_fs _ w2).
Qed.

(** X16.  After a successful [overwrite_file] nothing of the original
    content is left in the file: if the zero pass was asked for, every
    byte of the file is zero; otherwise, with at least one pass, every
    byte is one that the random source delivered.  The file has the
    length it had. *)
Theorem overwrite_leaves_no_original path passes final_zero verbose w w' rp data :
  resolve MAXSYMLINKS (fs w) path = Some (rp, NReg data) ->
  final_zero = true \/ 1 <= passes ->
  overwrite_file path passes final_zero verbose w = (Return 0, w') ->
  exists data', fs w' !! rp = Some (NReg data') /\ length data' = length data /\
    Forall (fun c => (if final_zero then is_zero c else is_rnd c) = true) data'.
Proof.
  intros Eres Hsome Hrun.
  destruct (overwrite_file_ok _ _ _ _ _ _ Hrun)
    as (rp' & data0 & Eres' & Hmax & (data' & Hdata' & Hlen') & _).
  rewrite Eres in Eres'. injection Eres' as <- <-.
  set (size := Z.of_nat (length data)) in *.
  assert (Hwhole : filled (if final_zero then is_zero else is_rnd) w' rp size).
  2: { destruct Hwhole as (d & Hd & Hall). rewrite Hdata' in Hd. injection Hd as <-.
       exists data'. split; [done |]. split; [done |].
       rewrite take_ge in Hall by (unfold size; lia).
       eapply Forall_impl; [exact Hall |]. intros c Hc. by destruct final_zero. }
  clear data' Hdata' Hlen'. revert Hrun. unfold overwrite_file.
  destruct (OS.stat path w) as [st w1] eqn:Estat.
  apply stat_spec in Estat as [-> Hst].
  set (w1 := log _ w).
  destruct st as [st|]; [| done].
  destruct Hst as (rp' & nd' & Eres' & Hns). rewrite Eres in Eres'.
  injection Eres' as <- <-.
  destruct (negb (S_ISREG (st_mode st))) eqn:Ereg; [done |].
  apply negb_false_iff in Ereg.
  destruct (node_stat_reg _ _ Hns Ereg) as (data' & [= <-] & Hsz & _).
  rewrite Hsz. fold size.
  destruct (OS.open_wronly path w1) as [fd w2] eqn:Eopen.
  apply open_wronly_spec in Eopen as (_ & _ & Hopen2).
  destruct (fd <? 0) eqn:Efd; [done |].
  destruct (Hopen2 eq_refl) as (rp' & data' & Eres' & Hopen).
  change (fs w1) with (fs w) in Eres'. rewrite Eres in Eres'.
  injection Eres' as <- <-. fold size in Hopen.
  assert (Hsize : 0 <= size <= OFF_MAX) by (unfold size; lia).
  pose proof (bufsize_of_pos size Hsize) as Hbs.
  destruct (alloc_buf (bufsize_of size) w2) as [o w3] eqn:Ealloc.
  apply alloc_buf_spec in Ealloc as (Hfs3 & Hfdt3 & Hnf3 & Ho).
  destruct o as [buf | status]; [| done].
  destruct Ho as [-> _].
  pose proof (file_open_frame _ _ _ _ _ _ Hfs3 Hfdt3 Hnf3 Hopen) as Hopen3.
  set (buf := replicate (Z.to_nat (bufsize_of size)) Junk).
  assert (Hbuf : bufsize_of size <= Z.of_nat (length buf)).
  { unfold buf. rewrite length_replicate. lia. }
  destruct (pass_loop (Z.to_nat passes) 1 passes path verbose fd size
              (bufsize_of size) buf w3) as [[buf4|] w4] eqn:Epass; [| done].
  assert (Hfinish : forall P w5,
            filled P w5 rp size ->
            (let '(r, w) := OS.close fd w5 in
             (Return 0, if negb (r =? 0) then vlog verbose (MsgPerror "close") w else w))
            = (Return 0, w') -> filled P w' rp size).
  { intros P w5 Hfill. pose proof (close_fs fd w5) as Hcf.
    destruct (OS.close fd w5) as [rc w6]. cbn [snd] in Hcf.
    intros [= <-]. apply (filled_same_fs _ w5); [| done].
    destruct (negb (rc =? 0)); [by rewrite vlog_fs | done]. }
  pose proof Epass as Epass'.
  apply (pass_loop_ok _ _ _ _ _ _ _ _ _ _ _ _ rp 0) in Epass'
    as (Hlen4 & [pos4 Hopen4] & _); [| done | done | done | done].
  destruct final_zero.
  - destruct (zero_pass path verbose fd size (bufsize_of size) buf4 w4)
      as [[buf5|] w5] eqn:Ezero; [| done].
    apply (zero_pass_filled _ _ _ _ _ _ _ _ _ rp pos4) in Ezero; [| done | done | lia | done].
    by apply Hfinish.
  - destruct Hsome as [? | Hp]; [done |].
    apply (pass_loop_filled _ _ _ _ _ _ _ _ _ _ _ _ rp 0) in Epass;
      [| done | done | done | done | left; lia].
    by apply Hfinish.
Qed.

Lemma overwrite_leaves_no_original_witness :
  exists data',
    fs (overwrite_file "/tmp/a" 2 true false world_C4).2 !! "/tmp/a"%string
      = Some (NReg data') /\
    length data' = length [Orig Byte.xaa; Orig Byte.xaa; Orig Byte.xaa] /\
    Forall (fun c => (if true then is_zero c else is_rnd c) = true) data'.
Proof.
  apply (overwrite_leaves_no_original "/tmp/a" 2 true false world_C4
           (overwrite_file "/tmp/a" 2 true false world_C4).2 "/tmp/a"
           [Orig Byte.xaa; Orig Byte.xaa; Orig Byte.xaa]).
  - vm_compute. reflexivity.
  - by left.
  - apply run_eq. vm_compute. reflexivity.
Defined.

(** ** [fsync] is the fallback *)

Definition is_fsync (e : event) : bool :=
  match e with EvFsync _ _ => true | _ => false end.
Definition is_failed_fdatasync (e : event) : bool :=
  match e with EvFdatasync _ false => true | _ => false end.

(** Events other than [fdatasync] and [fsync]. *)
Definition no_sync (e : event) : bool :=
  match e with EvFdatasync _ _ | EvFsync _ _ => false | _ => true end.

(** From [t] to [t'] there are as many [fsync] calls as failed
    [fdatasync] calls, and [n] calls of [fdatasync]. *)
Definition synced (n : nat) (t t' : list event) : Prop :=
  exists evs, t' = evs ++ t /\
    count is_fsync evs = count is_failed_fdatasync evs /\
    count is_fdatasync evs = n.

Lemma synced_trans n m t1 t2 t3 :
  synced n t1 t2 -> synced m t2 t3 -> synced (n + m) t1 t3.
Proof.
  intros (e1 & -> & H1 & N1) (e2 & -> & H2 & N2). exists (e2 ++ e1).
  split; [by rewrite app_assoc |]. rewrite !count_app. lia.
Qed.

Lemma no_sync_synced t t' : extends no_sync t t' -> synced 0 t t'.
Proof.
  intros (evs & -> & Hall). exists evs. split; [done |].
  rewrite !(count_none _ no_sync evs Hall); [done | by intros [] | by intros [] | by intros []].
Qed.

Lemma synced_0_l n t1 t2 t3 : extends no_sync t1 t2 -> synced n t2 t3 -> synced n t1 t3.
Proof. intros H1%no_sync_synced H2. exact (synced_trans 0 n _ _ _ H1 H2). Qed.

Lemma synced_0_r n t1 t2 t3 : synced n t1 t2 -> extends no_sync t2 t3 -> synced n t1 t3.
Proof.
  intros H1 H2%no_sync_synced. replace n with (n + 0)%nat by lia.
  by eapply synced_trans.
Qed.

Lemma random_event_no_sync e : random_event e = true -> no_sync e = true.
Proof. by destruct e. Qed.

Lemma os_write_no_sync resp fd buf n w :
  extends no_sync (trace w) (trace (os_write resp fd buf n w).2).
Proof.
  destruct resp; simpl; try by ext_steps.
  unfold OS.write_n. repeat case_match; simplify_eq; simpl; ext_steps.
Qed.

Lemma fail_no_sync verbose fd m w0 w1 :
  extends no_sync (trace w0) (trace w1) ->
  extends no_sync (trace w0) (trace (bail fd (vlog verbose m w1))).
Proof.
  intros H. eapply extends_trans; [exact H |].
  eapply extends_trans; [by apply vlog_events |].
  unfold bail, OS.close, pop. simpl. ext_steps.
Qed.

Lemma random_write_loop_no_sync tape : forall verbose fd size bufsize buf wt w,
  extends no_sync (trace w)
    (trace (random_write_loop tape verbose fd size bufsize buf wt w).2).
Proof.
  induction tape as [|resp tape IH]; intros verbose fd size bufsize buf wt w;
    cbn [random_write_loop]; destruct (wt <? size); try apply extends_refl.
  all: pose proof (fill_random_events buf (chunk_len bufsize size wt) w) as H1;
       destruct (fill_random buf (chunk_len bufsize size wt) w) as [[r buf1] w1];
       simpl in H1; apply (extends_weaken _ no_sync) in H1; [| apply random_event_no_sync];
       destruct (negb _); cbn [snd]; [by apply fail_no_sync |].
  - pose proof (os_write_no_sync WrErr fd buf1 (chunk_len bufsize size wt) w1) as H2.
    destruct (os_write WrErr fd buf1 _ w1) as [wr w2]. cbn [snd] in *.
    apply fail_no_sync. by eapply extends_trans.
  - pose proof (os_write_no_sync resp fd buf1 (chunk_len bufsize size wt) (set_wr_tape tape w1)) as H2.
    destruct (os_write resp fd buf1 _ (set_wr_tape tape w1)) as [wr w2]. cbn [snd] in H2.
    assert (H12 : extends no_sync (trace w) (trace w2)) by (by eapply extends_trans).
    destruct wr.
    + eapply extends_trans; [exact H12 | apply IH].
    + eapply extends_trans; [exact H12 | apply IH].
    + by apply fail_no_sync.
Qed.

Lemma zero_write_loop_no_sync tape : forall verbose fd size bufsize buf wt w,
  extends no_sync (trace w)
    (trace (zero_write_loop tape verbose fd size bufsize buf wt w).2).
Proof.
  induction tape as [|resp tape IH]; intros verbose fd size bufsize buf wt w;
    cbn [zero_write_loop]; destruct (wt <? size); try apply extends_refl.
  - pose proof (os_write_no_sync WrErr fd buf (chunk_len bufsize size wt) w) as H2.
    destruct (os_write WrErr fd buf _ w) as [wr w2]. cbn [snd] in *.
    by apply fail_no_sync.
  - pose proof (os_write_no_sync resp fd buf (chunk_len bufsize size wt) (set_wr_tape tape w)) as H2.
    destruct (os_write resp fd buf _ (set_wr_tape tape w)) as [wr w2]. cbn [snd] in H2.
    destruct wr.
    + eapply extends_trans; [exact H2 | apply IH].
    + eapply extends_trans; [exact H2 | apply IH].
    + by apply fail_no_sync.
Qed.

Lemma lseek0_no_sync fd w : extends no_sync (trace w) (trace (OS.lseek0 fd w).2).
Proof. unfold OS.lseek0, pop. cbn [fst snd]. repeat case_match; simpl; ext_steps. Qed.

(** One checkpoint: one [fdatasync], and [fsync] exactly if it failed. *)
Lemma checkpoint_synced v fd w : synced 1 (trace w) (trace (checkpoint v fd w)).
Proof.
  unfold checkpoint, sync_and_check, OS.fdatasync, OS.fsync, pop. cbn [fst snd].
  destruct (hd true (plan w SFdatasync)); simpl.
  - by eexists [_].
  - destruct (hd true (plan _ SFsync)); simpl; [by eexists [_; _] |].
    destruct v; simpl; [by eexists [_; _; _] | by eexists [_; _]].
Qed.

(** The passes made: all [n] when the loop completes, fewer when it
    gives up. *)
Lemma pass_loop_synced n : forall pass passes path verbose fd size bufsize buf w,
  exists k, (k <= n)%nat /\
    ((pass_loop n pass passes path verbose fd size bufsize buf w).1 <> None -> k = n) /\
    synced k (trace w) (trace (pass_loop n pass passes path verbose fd size bufsize buf w).2).
Proof.
  induction n as [|n IH]; intros pass passes path verbose fd size bufsize buf w;
    cbn [pass_loop].
  { exists 0%nat. split; [done |]. split; [done |]. apply no_sync_synced, extends_refl. }
  pose proof (vlog_events no_sync verbose (MsgPass pass passes path) w eq_refl) as H0.
  pose proof (lseek0_no_sync fd (vlog verbose (MsgPass pass passes path) w)) as H1.
  destruct (OS.lseek0 fd _) as [r w1]. cbn [snd] in H1.
  assert (H01 : extends no_sync (trace w) (trace w1)) by (by eapply extends_trans).
  destruct (r =? -1).
  { exists 0%nat. split; [lia |]. split; [done |]. cbn [snd].
    by apply no_sync_synced, fail_no_sync. }
  pose proof (random_write_loop_no_sync (wr_tape w1) verbose fd size bufsize buf 0 w1) as H2.
  destruct (random_write_loop _ verbose fd size bufsize buf 0 w1) as [[buf1|] w2];
    cbn [fst snd] in *.
  2: { exists 0%nat. split; [lia |]. split; [done |].
       apply no_sync_synced. by eapply extends_trans. }
  destruct (IH (pass + 1) passes path verbose fd size bufsize buf1 (checkpoint verbose fd w2))
    as (k & Hk & Hdone & Hsync).
  exists (S k). split; [lia |]. split; [intros H; by rewrite Hdone |].
  eapply (synced_0_l (S k)); [exact (extends_trans _ _ _ _ H01 H2) |].
  exact (synced_trans 1 k _ _ _ (checkpoint_synced verbose fd w2) Hsync).
Qed.

Lemma zero_pass_synced path verbose fd size bufsize buf w :
  exists k, (k <= 1)%nat /\
    ((zero_pass path verbose fd size bufsize buf w).1 <> None -> k = 1%nat) /\
    synced k (trace w) (trace (zero_pass path verbose fd size bufsize buf w).2).
Proof.
  unfold zero_pass.
  pose proof (vlog_events no_sync verbose (MsgFinalZero path) w eq_refl) as H0.
  pose proof (lseek0_no_sync fd (vlog verbose (MsgFinalZero path) w)) as H1.
  destruct (OS.lseek0 fd _) as [r w1]. cbn [snd] in H1.
  assert (H01 : extends no_sync (trace w) (trace w1)) by (by eapply extends_trans).
  destruct (r =? -1).
  { exists 0%nat. split; [lia |]. split; [done |]. cbn [snd].
    by apply no_sync_synced, fail_no_sync. }
  match goal with |- context [zero_write_loop ?t ?v ?f ?s ?b ?bf ?wt ?w0] =>
    pose proof (zero_write_loop_no_sync t v f s b bf wt w0) as H2;
    destruct (zero_write_loop t v f s b bf wt w0) as [[buf1|] w2] end;
    cbn [fst snd] in *.
  2: { exists 0%nat. split; [lia |]. split; [done |].
       apply no_sync_synced. eapply extends_trans; [exact H01 |].
       eapply extends_trans; [| exact H2]. simpl. ext_steps. }
  exists 1%nat. split; [lia |]. split; [done |].
  eapply (synced_0_l 1); [| apply checkpoint_synced].
  eapply extends_trans; [exact H01 |]. eapply extends_trans; [| exact H2]. simpl. ext_steps.
Qed.

Lemma overwrite_file_synced (path : string) (passes : Z) (final_zero verbose : bool)
    (w : world) :
  exists k, (k <= Z.to_nat passes + (if final_zero then 1 else 0))%nat /\
    ((overwrite_file path passes final_zero verbose w).1 = Return 0 ->
     k = (Z.to_nat passes + (if final_zero then 1 else 0))%nat) /\
    synced k (trace w) (trace (overwrite_file path passes final_zero verbose w).2).
Proof.
  assert (Hnone : forall (o : outcome Z) w1, o <> Return 0 ->
            extends no_sync (trace w) (trace w1) ->
            exists k, (k <= Z.to_nat passes + (if final_zero then 1 else 0))%nat /\
              ((o, w1).1 = Return 0 ->
               k = (Z.to_nat passes + (if final_zero then 1 else 0))%nat) /\
              synced k (trace w) (trace (o, w1).2)).
  { intros o w1 Ho Hext. exists 0%nat. split; [lia |]. split; [done |].
    by apply no_sync_synced. }
  unfold overwrite_file.
  destruct (OS.stat path w) as [st w1] eqn:Estat.
  apply stat_spec in Estat as [-> _].
  set (w1 := log _ w).
  assert (H1 : extends no_sync (trace w) (trace w1)) by (unfold w1; simpl; ext_steps).
  destruct st as [st|].
  2: { apply Hnone; [done |]. eapply extends_trans; [exact H1 | by apply vlog_events]. }
  destruct (negb (S_ISREG (st_mode st))).
  { apply Hnone; [done |]. eapply extends_trans; [exact H1 | by apply vlog_events]. }
  destruct (OS.open_wronly path w1) as [fd w2] eqn:Eopen.
  apply open_wronly_spec in Eopen as (Htr2 & _).
  assert (H2 : extends no_sync (trace w) (trace w2)).
  { rewrite Htr2. by apply extends_cons. }
  destruct (fd <? 0).
  { apply Hnone; [done |]. eapply extends_trans; [exact H2 | by apply vlog_events]. }
  destruct (alloc_buf (bufsize_of (st_size st)) w2) as [o w3] eqn:Ealloc.
  apply alloc_buf_spec in Ealloc as (_ & _ & _ & Ho).
  destruct o as [buf | status].
  2: { destruct Ho as [_ Htr3]. apply Hnone; [done |]. rewrite Htr3.
       apply extends_cons; [done |]. by apply extends_cons. }
  destruct Ho as [_ Htr3].
  assert (H3 : extends no_sync (trace w) (trace w3)).
  { rewrite Htr3. by apply extends_cons. }
  destruct (pass_loop_synced (Z.to_nat passes) 1 passes path verbose fd (st_size st)
              (bufsize_of (st_size st)) buf w3) as (k & Hk & Hdone & Hsync).
  destruct (pass_loop (Z.to_nat passes) 1 passes path verbose fd (st_size st)
              (bufsize_of (st_size st)) buf w3) as [[buf4|] w4]; cbn [fst snd] in *.
  2: { exists k. split; [lia |]. split; [done |]. by eapply synced_0_l. }
  rewrite Hdone in * by done. clear Hdone Hk k.
  assert (Hfinish : forall k w5, synced k (trace w) (trace w5) ->
            synced k (trace w)
              (trace (let '(r, w) := OS.close fd w5 in
                      (Return 0 : outcome Z,
                       if negb (r =? 0) then vlog verbose (MsgPerror "close") w else w)).2)).
  { intros k w5 H5. unfold OS.close, pop. cbn [fst snd].
    eapply synced_0_r; [exact H5 |].
    destruct (negb _); [destruct verbose |]; simpl; ext_steps. }
  destruct final_zero.
  - destruct (zero_pass_synced path verbose fd (st_size st) (bufsize_of (st_size st)) buf4 w4)
      as (k & Hk & Hdone & Hsyncz).
    destruct (zero_pass path verbose fd (st_size st) (bufsize_of (st_size st)) buf4 w4)
      as [[buf5|] w5]; cbn [fst snd] in *.
    + rewrite Hdone in * by done. exists (Z.to_nat passes + 1)%nat.
      split; [lia |]. split; [done |]. apply Hfinish.
      eapply synced_trans; [| exact Hsyncz]. by eapply synced_0_l.
    + exists (Z.to_nat passes + k)%nat. split; [lia |]. split; [done |].
      eapply synced_trans; [| exact Hsyncz]. by eapply synced_0_l.
  - exists (Z.to_nat passes + 0)%nat. split; [lia |]. split; [done |].
    rewrite Nat.add_0_r. apply Hfinish. by eapply synced_0_l.
Qed.

(** X17.  [fsync] is the fallback of [fdatasync] and nothing else:
    whatever the outcome of [overwrite_file], it has called [fsync]
    exactly as often as an [fdatasync] has failed.  [fdatasync] is called
    once after every completed pass: never more often than there are
    passes (one more with the zero pass), and exactly that often when
    [overwrite_file] returns 0. *)
Theorem overwrite_file_sync_fallback (path : string) (passes : Z)
    (final_zero verbose : bool) (w : world) :
  exists evs,
    trace (overwrite_file path passes final_zero verbose w).2 = evs ++ trace w /\
    count is_fsync evs = count is_failed_fdatasync evs /\
    (count is_fdatasync evs <= Z.to_nat passes + (if final_zero then 1 else 0))%nat /\
    ((overwrite_file path passes final_zero verbose w).1 = Return 0 ->
     count is_fdatasync evs = (Z.to_nat passes + (if final_zero then 1 else 0))%nat).
Proof.
  destruct (overwrite_file_synced path passes final_zero verbose w)
    as (k & Hk & Hdone & evs & Hevs & Hbal & Hn).
  exists evs. split; [done |]. split; [done |]. rewrite Hn. split; [lia | done].
Qed.

(** ** The policy of the random byte source *)

(** The bytes [getrandom] delivers up to its first hard error,
    interrupted calls apart. *)
Fixpoint gr_stream (tape : list gr_resp) : list Byte.byte :=
  match tape with
  | GrBytes bs :: t => bs ++ gr_stream t
  | GrEintr :: t => gr_stream t
  | GrErr :: _ | [] => []
  end.

(** The bytes [/dev/urandom] delivers up to its end or its first hard
    error, interrupted calls apart, and whether it was an error. *)
Fixpoint rd_stream (tape : list rd_resp) : list Byte.byte * bool :=
  match tape with
  | RdBytes [] :: _ | [] => ([], false)
  | RdBytes bs :: t => (bs ++ (rd_stream t).1, (rd_stream t).2)
  | RdEintr :: t => rd_stream t
  | RdErr :: _ => ([], true)
  end.

(** The spec's policy for [len] bytes: the kernel interface first; if it
    fills the range, success, and the device is left alone.  After a
    hard error the device is read from the start of the buffer again:
    success if it fills the range, [-1] if it cannot be opened or a read
    fails, the short count at its end.  The result and the buffer. *)
Definition fill_policy (gr : list gr_resp) (open_ok : bool) (rd : list rd_resp)
    (buf : list cell) (len : Z) : Z * list cell :=
  let n := Z.to_nat len in
  let d1 := take n (gr_stream gr) in
  if decide (length d1 = n) then (len, blit 0 (Rnd <$> d1) buf)
  else if negb open_ok then (-1, blit 0 (Rnd <$> d1) buf)
  else
    let d2 := take n (rd_stream rd).1 in
    (if decide (length d2 = n) then len
     else if (rd_stream rd).2 then -1
     else Z.of_nat (length d2),
     blit 0 (Rnd <$> d2) (blit 0 (Rnd <$> d1) buf)).

Ltac stream_end :=
  simpl; rewrite ?take_nil, ?take_0; simpl; rewrite ?blit_nil;
  try done; try (f_equal; lia).

Lemma getrandom_loop_stream tape : forall buf p left w,
  0 <= p -> 0 <= left -> p + left <= Z.of_nat (length buf) ->
  let d := take (Z.to_nat left) (gr_stream tape) in
  (getrandom_loop tape buf p left w).1
  = (left - Z.of_nat (length d), blit p (Rnd <$> d) buf).
Proof.
  induction tape as [|r tape IH]; intros buf p left w Hp Hl Hb d; subst d;
    cbn [getrandom_loop]; destruct (left =? 0) eqn:E0.
  - apply Z.eqb_eq in E0 as ->. stream_end.
  - stream_end.
  - apply Z.eqb_eq in E0 as ->. stream_end.
  - destruct r as [bs| |]; cbn [gr_stream].
    + set (data := take (Z.to_nat left) bs).
      assert (Hdata : (length data <= Z.to_nat left)%nat)
        by (unfold data; rewrite length_take; lia).
      rewrite IH; [| lia | lia |].
      2: { rewrite blit_length; rewrite ?length_fmap; lia. }
      rewrite take_app. fold data.
      replace (Z.to_nat (left - Z.of_nat (length data)))
        with (Z.to_nat left - length bs)%nat.
      2: { unfold data. rewrite length_take. lia. }
      f_equal; [rewrite length_app; lia |].
      rewrite fmap_app. rewrite <- (length_fmap Rnd data).
      apply blit_blit; lia.
    + apply IH; lia.
    + stream_end.
Qed.

Lemma urandom_loop_stream tape : forall fd buf len total w,
  0 <= total <= len -> len <= Z.of_nat (length buf) -> len < 2 ^ 63 ->
  let s := (rd_stream tape).1 in
  let d := take (Z.to_nat (len - total)) s in
  (urandom_loop tape fd buf len total w).1
  = (if decide (length d = Z.to_nat (len - total)) then len
     else if (rd_stream tape).2 then -1
     else total + Z.of_nat (length d),
     blit total (Rnd <$> d) buf).
Proof.
  assert (Hdone : forall (s : list Byte.byte) (e : bool) buf len total (w : world),
    total = len ->
    (total, buf, w).1
    = (if decide (length (take (Z.to_nat (len - total)) s) = Z.to_nat (len - total)) then len
       else if e then -1 else total + Z.of_nat (length (take (Z.to_nat (len - total)) s)),
       blit total (Rnd <$> take (Z.to_nat (len - total)) s) buf)).
  { intros s e buf len total w ->. replace (len - len) with 0 by lia.
    change (Z.to_nat 0) with 0%nat. rewrite take_0. simpl. by rewrite blit_nil. }
  assert (Hstop : forall (e : bool) r buf len total (w : world),
    total < len -> r = (if e then -1 else total) ->
    (r, buf, w).1
    = (if decide (length (take (Z.to_nat (len - total)) (@nil Byte.byte))
                  = Z.to_nat (len - total)) then len
       else if e then -1
       else total + Z.of_nat (length (take (Z.to_nat (len - total)) (@nil Byte.byte))),
       blit total (Rnd <$> take (Z.to_nat (len - total)) []) buf)).
  { intros e r buf len total w Hlt ->. rewrite take_nil. simpl.
    destruct (decide _) as [H|H]; [lia |]. rewrite blit_nil.
    destruct e; [done | f_equal; f_equal; lia]. }
  induction tape as [|a tape IH]; intros fd buf len total w Ht Hb Hlen s d; subst s d;
    cbn [urandom_loop]; rewrite to_ssize_t_id by lia;
    destruct (total <? len) eqn:E0.
  - apply Z.ltb_lt in E0. by apply (Hstop false).
  - apply Z.ltb_ge in E0. apply Hdone. lia.
  - apply Z.ltb_lt in E0. destruct a as [bs| |].
    + set (data := take (Z.to_nat (len - total)) bs).
      destruct bs as [|b bs'].
      { unfold data. cbn [rd_stream fst snd]. rewrite !take_nil. simpl.
        destruct (decide _) as [H|H]; [lia |]. rewrite blit_nil. f_equal. lia. }
      assert (Hdata : (0 < length data <= Z.to_nat (len - total))%nat).
      { unfold data. rewrite length_take. simpl. lia. }
      destruct (Z.of_nat (length data) =? 0) eqn:Er; [lia |].
      rewrite IH; [| lia | | lia].
      2: { rewrite blit_length; rewrite ?length_fmap; lia. }
      cbn [rd_stream fst snd]. rewrite take_app. fold data.
      replace (Z.to_nat (len - (total + Z.of_nat (length data))))
        with (Z.to_nat (len - total) - length (b :: bs'))%nat.
      2: { unfold data. rewrite length_take. lia. }
      set (d' := take (Z.to_nat (len - total) - length (b :: bs')) (rd_stream tape).1).
      assert (Hd' : (length d' <= Z.to_nat (len - total) - length (b :: bs'))%nat)
        by (unfold d'; rewrite length_take; lia).
      assert (Hdl : length data = Nat.min (Z.to_nat (len - total)) (length (b :: bs')))
        by (unfold data; by rewrite length_take).
      f_equal.
      * rewrite length_app.
        destruct (decide (length d' = _)) as [H1|H1];
          destruct (decide (length data + length d' = _)%nat) as [H2|H2];
          try done; try lia.
        destruct (rd_stream tape).2; [done | lia].
      * rewrite fmap_app. rewrite <- (length_fmap Rnd data).
        apply blit_blit; lia.
    + apply (IH fd buf len total); lia.
    + by apply (Hstop true).
  - apply Z.ltb_ge in E0. apply Hdone. lia.
Qed.

(** C5.  [fill_random] follows the policy of the spec, and returns
    [len] (success) exactly when the requested range has been filled
    with random bytes.  Result and buffer are those of [fill_policy]:
    [getrandom] first, interrupted calls retried; if it delivers [len]
    bytes these fill the range, the result is [len] and nothing but
    [getrandom] has been called.  After a hard error [/dev/urandom] is
    opened and read, interrupted calls retried, into the range from its
    start: the result is [len] if it delivers [len] bytes, and otherwise
    a failure, [-1] or a short count below [len].  On success the range
    holds exactly the bytes that the successful source delivered. *)
Theorem fill_random_follows_policy buf len w :
  0 <= len <= Z.of_nat (length buf) -> len < 2 ^ 63 -> 0 <= next_fd w ->
  let res := fill_random buf len w in
  let n := Z.to_nat len in
  res.1 = fill_policy (rnd_tape w) (hd true (plan w SOpenUrandom)) (dev_tape w) buf len /\
  (res.1.1 = len ->
     take n res.1.2 = Rnd <$> take n (gr_stream (rnd_tape w)) /\
       length (take n (gr_stream (rnd_tape w))) = n \/
     take n res.1.2 = Rnd <$> take n (rd_stream (dev_tape w)).1 /\
       length (take n (rd_stream (dev_tape w)).1) = n) /\
  (res.1.1 <> len -> res.1.1 = -1 \/ 0 <= res.1.1 < len) /\
  exists evs, trace res.2 = evs ++ trace w /\
    (length (take n (gr_stream (rnd_tape w))) = n ->
     Forall (fun e => getrandom_event e = true) evs) /\
    ((exists fd, EvOpenUrandom fd ∈ evs) -> exists k, EvGetrandom k IoErr ∈ evs).
Proof.
  intros Hlen Hmax Hfd res n.
  assert (Hpol : res.1 = fill_policy (rnd_tape w) (hd true (plan w SOpenUrandom))
                           (dev_tape w) buf len /\
                 exists evs, trace res.2 = evs ++ trace w /\
                   (length (take n (gr_stream (rnd_tape w))) = n ->
                    Forall (fun e => getrandom_event e = true) evs)).
  { subst res. unfold fill_random, fill_policy. fold n.
    pose proof (getrandom_loop_stream (rnd_tape w) buf 0 len w
                  ltac:(lia) ltac:(lia) ltac:(lia)) as Hs. cbv zeta in Hs. fold n in Hs.
    destruct (getrandom_loop (rnd_tape w) buf 0 len w) as [[left1 buf1] w1] eqn:E1.
    cbn [fst] in Hs. injection Hs as -> ->.
    apply getrandom_loop_spec in E1
      as (d & _ & _ & _ & _ & Hfdt1 & Hnf1 & Hpl1 & Hdev1 & _ & ev1 & Hev1 & Hall1 & _);
      [| lia | lia | lia].
    set (d1 := take n (gr_stream (rnd_tape w))) in *.
    assert (Hd1 : (length d1 <= n)%nat) by (unfold d1; rewrite length_take; lia).
    destruct (decide (length d1 = n)) as [Hfull | Hpart].
    { replace (len - Z.of_nat (length d1) =? 0) with true by (symmetry; apply Z.eqb_eq; lia).
      rewrite to_ssize_t_id by lia. split; [done |]. by exists ev1. }
    replace (len - Z.of_nat (length d1) =? 0) with false by (symmetry; apply Z.eqb_neq; lia).
    unfold OS.open_urandom, OS.alloc_fd, pop. cbn [fst snd]. rewrite Hpl1.
    destruct (hd true (plan w SOpenUrandom)); cbn [negb].
    2: { change (-1 <? 0) with true. cbv iota. cbn [fst snd]. split; [done |].
         exists (EvOpenUrandom (-1) :: ev1). split; [simpl; by rewrite Hev1 | done]. }
    cbn [next_fd set_plan set_fdt set_next_fd log]. rewrite Hnf1.
    replace (next_fd w <? 0) with false by (symmetry; apply Z.ltb_ge; lia).
    assert (Hb1 : len <= Z.of_nat (length (blit 0 (Rnd <$> d1) buf))).
    { rewrite blit_length; rewrite ?length_fmap; lia. }
    match goal with |- context [urandom_loop ?t ?fd ?b ?l ?tot ?w0] =>
      pose proof (urandom_loop_stream t fd b l tot w0 ltac:(lia) Hb1 Hmax) as Hu;
      pose proof (urandom_loop_events t fd b l tot w0) as Hev2;
      destruct (urandom_loop t fd b l tot w0) as [[total buf2] w2] eqn:E2 end.
    cbn [dev_tape log set_next_fd set_fdt set_plan] in Hu. rewrite Hdev1 in Hu.
    cbv zeta in Hu. rewrite Z.sub_0_r in Hu. fold n in Hu.
    cbn [fst] in Hu. injection Hu as -> ->.
    cbn [fst snd]. split.
    - reflexivity.
    - cbn [snd] in Hev2. destruct Hev2 as (ev2 & Hev2 & _).
      unfold OS.close, pop. cbn [fst snd]. simpl. rewrite Hev2. simpl. rewrite Hev1.
      exists (EvClose (next_fd w) :: ev2 ++ EvOpenUrandom (next_fd w) :: ev1).
      split; [simpl; by rewrite <- app_assoc | done]. }
  destruct Hpol as [Hpol (evs & Hevs & Hget)].
  split; [done |].
  pose proof Hpol as Hres. unfold fill_policy in Hres. fold n in Hres.
  set (d1 := take n (gr_stream (rnd_tape w))) in *.
  set (d2 := take n (rd_stream (dev_tape w)).1) in *.
  assert (Hd1 : (length d1 <= n)%nat) by (unfold d1; rewrite length_take; lia).
  assert (Hd2 : (length d2 <= n)%nat) by (unfold d2; rewrite length_take; lia).
  split; [| split].
  - intros Hok. destruct (decide (length d1 = n)) as [H1 | H1].
    + left. split; [| done]. rewrite Hres. cbn [snd].
      apply blit_take. by rewrite length_fmap.
    + right. destruct (negb (hd true (plan w SOpenUrandom))).
      { rewrite Hres in Hok. cbn [fst] in Hok. lia. }
      destruct (decide (length d2 = n)) as [H2 | H2].
      * split; [| done]. rewrite Hres. cbn [snd]. apply blit_take. by rewrite length_fmap.
      * rewrite Hres in Hok. cbn [fst] in Hok.
        destruct (rd_stream (dev_tape w)).2; lia.
  - intros Hne. rewrite Hres in *. destruct (decide (length d1 = n)); [done |].
    destruct (negb (hd true (plan w SOpenUrandom))); [by left |]. cbn [fst] in *.
    destruct (decide (length d2 = n)); [done |].
    destruct (rd_stream (dev_tape w)).2; [by left | right; lia].
  - exists evs. split; [done |]. split; [done |].
    destruct (fill_random buf len w) as [[r buf'] w'] eqn:Erun.
    apply fill_random_spec in Erun as (_ & _ & _ & _ & _ & _ & _ & Hdev); [| done | done].
    by apply Hdev.
Qed.

Lemma fill_random_follows_policy_witness :
  (fill_random (replicate 4 Junk) 4 world_C5).1 = (4, Rnd <$> take 4 bytes_seq) /\
  take 2 (gr_stream (rnd_tape world_C5)) = take 2 bytes_seq /\
  (rd_stream (dev_tape world_C5)).1 = bytes_seq.
Proof.
  destruct (fill_random_follows_policy (replicate 4 Junk) 4 world_C5) as [H _].
  - simpl. lia.
  - reflexivity.
  - simpl. lia.
  - split; [| split; reflexivity]. rewrite H. reflexivity.
Defined.

(** ** The scratch buffer *)

Definition is_malloc (e : event) : bool :=
  match e with EvMalloc _ _ => true | _ => false end.

Lemma loop_event_not_malloc e : loop_event e = true -> is_malloc e = false.
Proof. by destruct e. Qed.

(** C8.  For every regular file that [overwrite_file] can open, it
    allocates the scratch buffer, once: right after [stat] and [open]
    it calls [malloc] with the smaller of [CHUNK] (1 MiB) and the file
    length, or with [CHUNK] for an empty file, so never with 0; and it
    makes no other allocation, whatever the number of passes and
    whatever happens in them. *)
Theorem scratch_buffer_allocated path passes final_zero verbose w rp data :
  resolve MAXSYMLINKS (fs w) path = Some (rp, NReg data) ->
  Z.of_nat (length data) <= OFF_MAX ->
  hd true (plan w SOpen) = true -> 0 <= next_fd w ->
  let L := Z.of_nat (length data) in
  let size := if L =? 0 then CHUNK else Z.min CHUNK L in
  let w' := (overwrite_file path passes final_zero verbose w).2 in
  0 < size <= CHUNK /\
  exists ok later,
    trace w' = later ++ [EvMalloc size ok; EvOpen path (next_fd w); EvStat path true]
                 ++ trace w /\
    Forall (fun e => is_malloc e = false) later.
Proof.
  intros Hres Hmax Hopen Hfd L size w'.
  assert (Hsize : size = bufsize_of L) by (unfold size; rewrite bufsize_of_spec; [done | lia]).
  split; [rewrite Hsize; apply bufsize_of_pos; lia |].
  subst w'. unfold overwrite_file, OS.stat. rewrite Hres.
  cbn [node_stat]. fold L.
  replace (L <=? OFF_MAX) with true by (symmetry; apply Z.leb_le; lia).
  cbn [st_mode st_size S_ISREG negb].
  unfold OS.open_wronly, OS.alloc_fd, pop. cbn [fst snd fs log set_plan plan].
  rewrite Hres, Hopen. cbn [next_fd log set_plan].
  replace (next_fd w <? 0) with false by (symmetry; apply Z.ltb_ge; lia).
  rewrite <- Hsize.
  match goal with |- context [alloc_buf size ?w2] =>
    destruct (alloc_buf size w2) as [o w3] eqn:Ealloc end.
  apply alloc_buf_spec in Ealloc as (_ & _ & _ & Ho).
  destruct o as [buf | status].
  2: { destruct Ho as [_ Htr3]. cbn [snd]. rewrite Htr3. simpl.
       exists false, [EvStderr (MsgMallocFailed size)]. split; [done |]. by repeat constructor. }
  destruct Ho as [_ Htr3].
  assert (Hlater : forall w4, extends loop_event (trace w3) (trace w4) ->
            exists ok later,
              trace w4 = later ++ [EvMalloc size ok; EvOpen path (next_fd w); EvStat path true]
                           ++ trace w /\
              Forall (fun e => is_malloc e = false) later).
  { intros w4 (later & Htr4 & Hall). exists true, later. split.
    - rewrite Htr4, Htr3. done.
    - eapply Forall_impl; [exact Hall |]. apply loop_event_not_malloc. }
  pose proof (pass_loop_events (Z.to_nat passes) 1 passes path verbose (next_fd w) L size
                buf w3) as H4.
  destruct (pass_loop (Z.to_nat passes) 1 passes path verbose (next_fd w) L size buf w3)
    as [[buf4|] w4]; cbn [snd] in *; [| by apply Hlater].
  assert (Hfinish : forall w5, extends loop_event (trace w3) (trace w5) ->
            extends loop_event (trace w3)
              (trace (let '(r, w) := OS.close (next_fd w) w5 in
                      (Return 0 : outcome Z,
                       if negb (r =? 0) then vlog verbose (MsgPerror "close") w else w)).2)).
  { intros w5 H5. pose proof (close_events (next_fd w) w5) as Hc.
    destruct (OS.close (next_fd w) w5) as [rc w6]. cbn [snd] in *.
    eapply extends_trans; [exact H5 |]. eapply extends_trans; [exact Hc |].
    destruct (negb (rc =? 0)); [by apply vlog_events | apply extends_refl]. }
  destruct final_zero.
  - pose proof (zero_pass_events path verbose (next_fd w) L size buf4 w4) as H5.
    destruct (zero_pass path verbose (next_fd w) L size buf4 w4) as [[buf5|] w5];
      cbn [snd] in *.
    + apply Hlater, Hfinish. by eapply extends_trans.
    + apply Hlater. by eapply extends_trans.
  - by apply Hlater, Hfinish.
Qed.

Lemma scratch_buffer_allocated_witness :
  0 < (if 0 =? 0 then CHUNK else Z.min CHUNK 0) <= CHUNK /\
  exists ok later,
    trace (overwrite_file "/tmp/empty" 2 true true world_C9).2
    = later ++ [EvMalloc (if 0 =? 0 then CHUNK else Z.min CHUNK 0) ok;
                EvOpen "/tmp/empty" (next_fd world_C9); EvStat "/tmp/empty" true]
        ++ trace world_C9 /\
    Forall (fun e => is_malloc e = false) later.
Proof.
  apply (scratch_buffer_allocated "/tmp/empty" 2 true true world_C9 "/tmp/empty" []).
  - vm_compute. reflexivity.
  - vm_compute. discriminate.
  - reflexivity.
  - simpl. lia.
Defined.
